(** * A shallow embedding of the address-book assistant ([main.py])

    The development follows the layout of the program: Python strings and
    the few [str] methods the program calls, [shlex.split], the calendar
    arithmetic of [datetime.date], the validated fields, [Record],
    [AddressBook], the console view, the [input_error] decorator and the
    command loop of [App].

    Conventions.
    - A Python [str] is a [string] whose characters are the code points
      U+0000..U+00FF (one [ascii] per code point).  The tables below give
      the behaviour of [str.isspace], [str.isdigit], [str.lower] and
      [str.casefold] on exactly that range.
    - A raised exception is a value of [exn]; code that can raise lives in
      the monad [M S], which threads the mutable object of type [S] and
      keeps the state reached at the moment of the [raise].
    - The wall clock ([date.today()]) is an explicit argument [today].
    - [date.strftime] is the one of the C library on Linux (glibc), which
      prints the year of [%Y] without padding.
    - The view and the file are observed through the list of [event]s;
      writing the file ([save_data]) is taken to succeed. *)

From Stdlib Require Import ZArith NArith List String Ascii Bool Lia.
From Stdlib Require Import Sorting.Sorted Sorting.Permutation.
Import ListNotations.

Open Scope string_scope.
Open Scope Z_scope.

(* ================================================================== *)
(** * Python strings *)

Module Str.

Definition ord (c : ascii) : Z := Z.of_N (N_of_ascii c).

Definition between (lo hi : Z) (c : ascii) : bool :=
  (lo <=? ord c) && (ord c <=? hi).

(** [str.isspace] on one character: TAB..CR, FS..US, SPACE, NEL, NBSP. *)
Definition isspace (c : ascii) : bool :=
  between 9 13 c || between 28 32 c || (ord c =? 133) || (ord c =? 160).

(** The ten decimal digits [0-9]. *)
Definition isdecimal (c : ascii) : bool := between 48 57 c.

(** [str.isdigit] on one character: the decimal digits and the
    characters with the Unicode property Numeric_Type=Digit, which in
    this range are the superscripts U+00B2, U+00B3 and U+00B9. *)
Definition isdigit_char (c : ascii) : bool :=
  isdecimal c || (ord c =? 178) || (ord c =? 179) || (ord c =? 185).

Fixpoint forallb_str (p : ascii -> bool) (s : string) : bool :=
  match s with
  | EmptyString => true
  | String c s' => p c && forallb_str p s'
  end.

(** [s.isdigit()]: false on the empty string. *)
Definition isdigit (s : string) : bool :=
  match s with
  | EmptyString => false
  | _ => forallb_str isdigit_char s
  end.

Fixpoint lstrip (s : string) : string :=
  match s with
  | EmptyString => EmptyString
  | String c s' => if isspace c then lstrip s' else s
  end.

Fixpoint rstrip (s : string) : string :=
  match s with
  | EmptyString => EmptyString
  | String c s' =>
      match rstrip s' with
      | EmptyString => if isspace c then EmptyString else String c EmptyString
      | t => String c t
      end
  end.

(** [s.strip()] *)
Definition strip (s : string) : string := rstrip (lstrip s).

Definition of_ord (n : Z) : ascii := ascii_of_N (Z.to_N n).

(** Characters with a lowercase partner in range: [A-Z] and U+00C0..U+00DE
    without the multiplication sign U+00D7. *)
Definition has_lower (c : ascii) : bool :=
  between 65 90 c || (between 192 222 c && negb (ord c =? 215)).

Definition lower_char (c : ascii) : ascii :=
  if has_lower c then of_ord (ord c + 32) else c.

Fixpoint lower (s : string) : string :=
  match s with
  | EmptyString => EmptyString
  | String c s' => String (lower_char c) (lower s')
  end.

(** [s.casefold()].  It differs from [lower] on two characters of the
    range: U+00DF folds to the two letters "ss", and U+00B5 folds to
    U+03BC.  No other character of the range folds to U+03BC or to
    U+00B5, so U+00B5 is left in place: the program only ever compares
    folded names for equality. *)
Fixpoint casefold (s : string) : string :=
  match s with
  | EmptyString => EmptyString
  | String c s' =>
      if ord c =? 223 then String "s" (String "s" (casefold s'))
      else String (lower_char c) (casefold s')
  end.

End Str.

(* ================================================================== *)
(** * Exceptions and the state-and-exception monad *)

(** The message literals of the program, in source order. *)
Inductive literal : Type :=
| PhoneTenDigits        (* "Номер телефону має складатися рівно з 10 цифр." *)
| InvalidDateFormat     (* "Invalid date format. Use DD.MM.YYYY" *)
| PhoneNotInContact     (* "Цього номеру немає у контакті." *)
| OldPhoneNotFound      (* "Старий номер не знайдено у контакті." *)
| BirthdayAlreadySet    (* "День народження вже задано для цього контакту." *)
| ContactNameNotFound   (* "Контакт з таким іменем не знайдено." *)
| NotEnoughArguments    (* "Недостатньо аргументів." *)
| ContactNotFound       (* "Контакт не знайдено." *)
| NotFoundLit           (* "Не знайдено." *)
| HowCanIHelp           (* "How can I help you?" *)
| ContactAdded          (* "Contact added." *)
| ContactUpdated        (* "Contact updated." *)
| PhoneChanged          (* "Phone changed." *)
| PhoneRemoved          (* "Phone removed." *)
| ContactDeleted        (* "Contact deleted." *)
| BirthdayAdded         (* "Birthday added." *)
| NoBirthdaySet         (* "Для цього контакту не задано дня народження." *)
| InvalidCommand.       (* "Invalid command. Введіть 'help' для довідки." *)

(** Messages raised by the interpreter and the standard library. *)
Inductive builtin_message : Type :=
| UnpackTooFew (expected got : nat) (* not enough values to unpack *)
| DayOutOfRange                     (* day is out of range for month *)
| YearOutOfRange                    (* year N is out of range *)
| DateResultOutOfRange              (* date value out of range *)
| NoMatchFormat                     (* time data does not match format *)
| NoClosingQuotation                (* shlex *)
| NoEscapedCharacter                (* shlex *)
| NoneHasNoAttribute.               (* 'NoneType' object has no attribute *)

Inductive message : Type :=
| Lit (l : literal)
| Builtin (b : builtin_message).

Inductive exn : Type :=
| ValueError (m : message)
| KeyError (m : message)
| IndexError (m : message)
| AttributeError (m : message)
| OverflowError (m : message)
| EOFError.

Inductive result (A : Type) : Type :=
| Return (a : A)
| Raise (e : exn).
Arguments Return {A} a.
Arguments Raise {A} e.

(** A computation over a mutable object of type [S]. *)
Definition M (S A : Type) : Type := S -> result A * S.

Definition ret {S A} (a : A) : M S A := fun s => (Return a, s).

Definition raise {S A} (e : exn) : M S A := fun s => (Raise e, s).

Definition bind {S A B} (m : M S A) (k : A -> M S B) : M S B :=
  fun s =>
    match m s with
    | (Return a, s') => k a s'
    | (Raise e, s') => (Raise e, s')
    end.

Definition get {S} : M S S := fun s => (Return s, s).
Definition put {S} (s : S) : M S unit := fun _ => (Return tt, s).

(** A pure computation that may raise, run inside [M]. *)
Definition lift {S A} (r : result A) : M S A := fun s => (r, s).

Notation "x <- m ;; k" := (bind m (fun x => k))
  (at level 61, m at next level, right associativity).
Notation "m ;;; k" := (bind m (fun _ => k))
  (at level 61, right associativity).

Definition is_raise {A} (r : result A) : bool :=
  match r with Raise _ => true | Return _ => false end.

(* ================================================================== *)
(** * Fields *)

Record Field : Type := { value : string }.

Definition Name := Field.
Definition Phone := Field.
Definition Birthday := Field.

(** [Phone.__init__] *)
Definition Phone_init (v : string) : result Phone :=
  let raw := Str.strip v in
  if negb (Str.isdigit raw && (length raw =? 10)%nat)
  then Raise (ValueError (Lit PhoneTenDigits))
  else Return {| value := raw |}.

(* ================================================================== *)
(** * Calendar dates ([datetime.date]) *)

Module Date.

Record date : Type := { year : Z; month : Z; day : Z }.

Definition MINYEAR : Z := 1.
Definition MAXYEAR : Z := 9999.
Definition MAXORDINAL : Z := 3652059.

Definition is_leap (y : Z) : bool :=
  (y mod 4 =? 0) && (negb (y mod 100 =? 0) || (y mod 400 =? 0)).

Definition DAYS_IN_MONTH (m : Z) : Z :=
  match m with
  | 1 => 31 | 2 => 28 | 3 => 31 | 4 => 30 | 5 => 31 | 6 => 30
  | 7 => 31 | 8 => 31 | 9 => 30 | 10 => 31 | 11 => 30 | 12 => 31
  | _ => -1
  end.

Definition DAYS_BEFORE_MONTH (m : Z) : Z :=
  match m with
  | 1 => 0 | 2 => 31 | 3 => 59 | 4 => 90 | 5 => 120 | 6 => 151
  | 7 => 181 | 8 => 212 | 9 => 243 | 10 => 273 | 11 => 304 | 12 => 334
  | _ => -1
  end.

Definition days_in_month (y m : Z) : Z :=
  if (m =? 2) && is_leap y then 29 else DAYS_IN_MONTH m.

Definition days_before_year (year : Z) : Z :=
  let y := year - 1 in y * 365 + y / 4 - y / 100 + y / 400.

Definition days_before_month (y m : Z) : Z :=
  DAYS_BEFORE_MONTH m + (if (2 <? m) && is_leap y then 1 else 0).

Definition ymd2ord (y m d : Z) : Z :=
  days_before_year y + days_before_month y m + d.

Definition DI400Y : Z := 146097.
Definition DI100Y : Z := 36524.
Definition DI4Y : Z := 1461.

Definition ord2ymd (n0 : Z) : date :=
  let n := n0 - 1 in
  let n400 := n / DI400Y in
  let n := n mod DI400Y in
  let year := n400 * 400 + 1 in
  let n100 := n / DI100Y in
  let n := n mod DI100Y in
  let n4 := n / DI4Y in
  let n := n mod DI4Y in
  let n1 := n / 365 in
  let n := n mod 365 in
  let year := year + n100 * 100 + n4 * 4 + n1 in
  if (n1 =? 4) || (n100 =? 4) then
    {| year := year - 1; month := 12; day := 31 |}
  else
    let leapyear := (n1 =? 3) && (negb (n4 =? 24) || (n100 =? 3)) in
    let month := Z.shiftr (n + 50) 5 in
    let preceding :=
      DAYS_BEFORE_MONTH month + (if (2 <? month) && leapyear then 1 else 0) in
    if n <? preceding then
      let month := month - 1 in
      let preceding :=
        preceding
        - (DAYS_IN_MONTH month + (if (month =? 2) && leapyear then 1 else 0)) in
      {| year := year; month := month; day := n - preceding + 1 |}
    else
      {| year := year; month := month; day := n - preceding + 1 |}.

(** The range checks of the [date] constructor. *)
Definition valid (y m d : Z) : bool :=
  (MINYEAR <=? y) && (y <=? MAXYEAR) &&
  (1 <=? m) && (m <=? 12) &&
  (1 <=? d) && (d <=? days_in_month y m).

Definition make (y m d : Z) : result date :=
  if negb ((MINYEAR <=? y) && (y <=? MAXYEAR))
  then Raise (ValueError (Builtin YearOutOfRange))
  else if negb ((1 <=? m) && (m <=? 12) && (1 <=? d) && (d <=? days_in_month y m))
  then Raise (ValueError (Builtin DayOutOfRange))
  else Return {| year := y; month := m; day := d |}.

(** [d.replace(year=y)] *)
Definition replace_year (d : date) (y : Z) : result date :=
  make y (month d) (day d).

Definition toordinal (d : date) : Z := ymd2ord (year d) (month d) (day d).

Definition fromordinal (n : Z) : date := ord2ymd n.

(** Monday is 0, Sunday is 6. *)
Definition weekday (d : date) : Z := (toordinal d + 6) mod 7.

(** [d + timedelta(days=n)] *)
Definition add_days (d : date) (n : Z) : result date :=
  let o := toordinal d + n in
  if (0 <? o) && (o <=? MAXORDINAL) then Return (fromordinal o)
  else Raise (OverflowError (Builtin DateResultOutOfRange)).

(** Dates compare as the triples (year, month, day). *)
Definition ltb (a b : date) : bool :=
  (year a <? year b)
  || ((year a =? year b)
      && ((month a <? month b)
          || ((month a =? month b) && (day a <? day b)))).

Definition eqb (a b : date) : bool :=
  (year a =? year b) && (month a =? month b) && (day a =? day b).

Definition leb (a b : date) : bool := ltb a b || eqb a b.

(** ** [strptime] and [strftime] with the format "%d.%m.%Y" *)

Definition digit_val (c : ascii) : Z := Str.ord c - 48.

Definition is_char (n : Z) (c : ascii) : bool := Str.ord c =? n.

Definition opt {A} (b : bool) (a : A) : list A := if b then [a] else [].

(** The alternatives of the directive %d, in the order the regular
    expression tries them: 3[0-1], [1-2]\d, 0[1-9], [1-9], space [1-9].
    Each alternative yields the value read and the rest of the input. *)
Definition alts_d (s : string) : list (Z * string) :=
  match s with
  | EmptyString => []
  | String a EmptyString =>
      opt (Str.between 49 57 a) (digit_val a, EmptyString)
  | String a (String b r) =>
      opt (is_char 51 a && Str.between 48 49 b) (30 + digit_val b, r)
      ++ opt (Str.between 49 50 a && Str.isdecimal b)
             (10 * digit_val a + digit_val b, r)
      ++ opt (is_char 48 a && Str.between 49 57 b) (digit_val b, r)
      ++ opt (Str.between 49 57 a) (digit_val a, String b r)
      ++ opt (is_char 32 a && Str.between 49 57 b) (digit_val b, r)
  end.

(** The alternatives of %m: 1[0-2], 0[1-9], [1-9]. *)
Definition alts_m (s : string) : list (Z * string) :=
  match s with
  | EmptyString => []
  | String a EmptyString =>
      opt (Str.between 49 57 a) (digit_val a, EmptyString)
  | String a (String b r) =>
      opt (is_char 49 a && Str.between 48 50 b) (10 + digit_val b, r)
      ++ opt (is_char 48 a && Str.between 49 57 b) (digit_val b, r)
      ++ opt (Str.between 49 57 a) (digit_val a, String b r)
  end.

(** %Y: exactly four decimal digits. *)
Definition match_Y (s : string) : option (Z * string) :=
  match s with
  | String a (String b (String c (String d r))) =>
      if Str.isdecimal a && Str.isdecimal b && Str.isdecimal c && Str.isdecimal d
      then Some (1000 * digit_val a + 100 * digit_val b
                 + 10 * digit_val c + digit_val d, r)
      else None
  | _ => None
  end.

Definition match_dot (s : string) : option string :=
  match s with
  | String c r => if is_char 46 c then Some r else None
  | EmptyString => None
  end.

(** First alternative whose continuation matches (backtracking). *)
Fixpoint first_match {A B} (alts : list (A * string))
         (k : A -> string -> option B) : option B :=
  match alts with
  | [] => None
  | (a, r) :: rest =>
      match k a r with
      | Some b => Some b
      | None => first_match rest k
      end
  end.

(** The match of the whole pattern at the start of [s]: the three numbers
    and the unconverted rest. *)
Definition match_dmY (s : string) : option (Z * Z * Z * string) :=
  first_match (alts_d s) (fun d r1 =>
    match match_dot r1 with
    | None => None
    | Some r2 =>
        first_match (alts_m r2) (fun m r3 =>
          match match_dot r3 with
          | None => None
          | Some r4 =>
              match match_Y r4 with
              | None => None
              | Some (y, r5) => Some (d, m, y, r5)
              end
          end)
    end).

(** [datetime.strptime(s, "%d.%m.%Y").date()] *)
Definition strptime (s : string) : result date :=
  match match_dmY s with
  | None => Raise (ValueError (Builtin NoMatchFormat))
  | Some (d, m, y, rest) =>
      match rest with
      | EmptyString => make y m d
      | _ => Raise (ValueError (Builtin NoMatchFormat))
      end
  end.

Definition digit_char (n : Z) : ascii := Str.of_ord (48 + n).

Definition pad2 (n : Z) : string :=
  String (digit_char (n / 10 mod 10)) (String (digit_char (n mod 10)) EmptyString).

Definition pad4 (n : Z) : string :=
  String (digit_char (n / 1000 mod 10))
    (String (digit_char (n / 100 mod 10)) (pad2 n)).

(** The conversion [%Y] of the C library's [strftime] (glibc), which
    [date.strftime] calls: the year in decimal, without padding, so a
    year below 1000 has fewer than four digits. *)
Definition year_text (y : Z) : string :=
  if y <? 10 then String (digit_char y) EmptyString
  else if y <? 100 then pad2 y
  else if y <? 1000 then String (digit_char (y / 100 mod 10)) (pad2 y)
  else pad4 y.

(** [d.strftime("%d.%m.%Y")]: day and month on two digits, the year as
    [%Y] prints it. *)
Definition strftime (d : date) : string :=
  pad2 (day d) ++ "." ++ pad2 (month d) ++ "." ++ year_text (year d).

End Date.

(** [Birthday.__init__] *)
Definition Birthday_init (v : string) : result Birthday :=
  match Date.strptime (Str.strip v) with
  | Return dt => Return {| value := Date.strftime dt |}
  | Raise (ValueError _) => Raise (ValueError (Lit InvalidDateFormat))
  | Raise e => Raise e
  end.

(* ================================================================== *)
(** * [shlex.split] (POSIX mode, no comments, whitespace splitting) *)

Module Shlex.

Inductive state : Type :=
| InSpace                        (* ' ' *)
| InWord                         (* 'a' *)
| InQuote (q : ascii)            (* one of the two quote characters *)
| InEscape (back : option ascii) (* after a backslash; [back] is the
                                    enclosing quote, if any *).

Definition whitespace (c : ascii) : bool :=
  Date.is_char 32 c || Date.is_char 9 c || Date.is_char 13 c || Date.is_char 10 c.
Definition quotes (c : ascii) : bool := Date.is_char 39 c || Date.is_char 34 c.
Definition escape (c : ascii) : bool := Date.is_char 92 c.
Definition escapedquotes (c : ascii) : bool := Date.is_char 34 c.

Definition snoc (t : string) (c : ascii) : string := t ++ String c EmptyString.

Definition nonempty (t : string) : bool :=
  match t with EmptyString => false | _ => true end.

(** The tokens of the rest of the input.  [token] is the token being
    built and [quoted] tells whether a quote was seen while building it.
    Characters that are neither whitespace, quote nor escape extend the
    token (word characters and, under whitespace splitting, all the
    others alike). *)
Fixpoint read (st : state) (quoted : bool) (token : string)
         (input : list ascii) : result (list string) :=
  match input with
  | [] =>
      match st with
      | InSpace => Return []
      | InWord => Return (if nonempty token || quoted then [token] else [])
      | InQuote _ => Raise (ValueError (Builtin NoClosingQuotation))
      | InEscape _ => Raise (ValueError (Builtin NoEscapedCharacter))
      end
  | c :: rest =>
      match st with
      | InSpace =>
          if whitespace c then
            if nonempty token || quoted then
              match read InSpace false EmptyString rest with
              | Return ts => Return (token :: ts)
              | Raise e => Raise e
              end
            else read InSpace quoted token rest
          else if escape c then read (InEscape None) quoted token rest
          else if quotes c then read (InQuote c) quoted token rest
          else read InWord quoted (String c EmptyString) rest
      | InQuote q =>
          if Ascii.eqb c q then read InWord true token rest
          else if escape c && escapedquotes q
          then read (InEscape (Some q)) true token rest
          else read (InQuote q) true (snoc token c) rest
      | InEscape back =>
          match back with
          | Some q =>
              let token :=
                if negb (escape c) && negb (Ascii.eqb c q)
                then snoc token "\"%char else token in
              read (InQuote q) quoted (snoc token c) rest
          | None => read InWord quoted (snoc token c) rest
          end
      | InWord =>
          if whitespace c then
            if nonempty token || quoted then
              match read InSpace false EmptyString rest with
              | Return ts => Return (token :: ts)
              | Raise e => Raise e
              end
            else read InSpace quoted token rest
          else if quotes c then read (InQuote c) quoted token rest
          else if escape c then read (InEscape None) quoted token rest
          else read InWord quoted (snoc token c) rest
      end
  end.

Definition split (s : string) : result (list string) :=
  read InSpace false EmptyString (list_ascii_of_string s).

End Shlex.

(* ================================================================== *)
(** * Record *)

Record ContactRecord : Type := {
  name : Name;
  phones : list Phone;
  birthday : option Birthday
}.

(** [Record.__init__] *)
Definition Record_init (n : string) : ContactRecord :=
  {| name := {| value := n |}; phones := []; birthday := None |}.

Definition set_phones (self : ContactRecord) (l : list Phone) : ContactRecord :=
  {| name := name self; phones := l; birthday := birthday self |}.

Definition set_birthday (self : ContactRecord) (b : Birthday) : ContactRecord :=
  {| name := name self; phones := phones self; birthday := Some b |}.

Definition has_value (v : string) (ph : Phone) : bool := String.eqb (value ph) v.

Definition add_phone (phone : string) : M ContactRecord unit :=
  p <- lift (Phone_init phone) ;;
  self <- get ;;
  if existsb (has_value (value p)) (phones self) then ret tt
  else put (set_phones self (phones self ++ [p])).

(** The loop of [remove_phone]: delete the first phone equal to [cleaned];
    [None] when the loop runs to its end. *)
Fixpoint del_first (cleaned : string) (l : list Phone) : option (list Phone) :=
  match l with
  | [] => None
  | ph :: t =>
      if has_value cleaned ph then Some t
      else option_map (cons ph) (del_first cleaned t)
  end.

Definition remove_phone (phone : string) : M ContactRecord unit :=
  p <- lift (Phone_init phone) ;;
  let cleaned := value p in
  self <- get ;;
  match del_first cleaned (phones self) with
  | Some l => put (set_phones self l)
  | None => raise (ValueError (Lit PhoneNotInContact))
  end.

(** The loop of [edit_phone]: overwrite the value of the first phone equal
    to [old_clean]; [None] when the loop runs to its end. *)
Fixpoint assign_first (old_clean new_value : string) (l : list Phone)
  : option (list Phone) :=
  match l with
  | [] => None
  | ph :: t =>
      if has_value old_clean ph then Some ({| value := new_value |} :: t)
      else option_map (cons ph) (assign_first old_clean new_value t)
  end.

Definition edit_phone (old new : string) : M ContactRecord unit :=
  o <- lift (Phone_init old) ;;
  let old_clean := value o in
  new_phone <- lift (Phone_init new) ;;
  self <- get ;;
  match assign_first old_clean (value new_phone) (phones self) with
  | Some l => put (set_phones self l)
  | None => raise (ValueError (Lit OldPhoneNotFound))
  end.

Definition add_birthday (bday : string) : M ContactRecord unit :=
  self <- get ;;
  match birthday self with
  | Some _ => raise (ValueError (Lit BirthdayAlreadySet))
  | None =>
      b <- lift (Birthday_init bday) ;;
      put (set_birthday self b)
  end.

(* ================================================================== *)
(** * AddressBook *)

(** A Python [dict] with string keys: the entries in insertion order, one
    per key. *)
Definition dict (V : Type) : Type := list (string * V).

Fixpoint dict_get {V} (k : string) (d : dict V) : option V :=
  match d with
  | [] => None
  | (k', v) :: t => if String.eqb k' k then Some v else dict_get k t
  end.

(** [d[k] = v]: overwrite in place, or append a new entry. *)
Fixpoint dict_set {V} (k : string) (v : V) (d : dict V) : dict V :=
  match d with
  | [] => [(k, v)]
  | (k', v') :: t =>
      if String.eqb k' k then (k', v) :: t else (k', v') :: dict_set k v t
  end.

(** [del d[k]] *)
Fixpoint dict_del {V} (k : string) (d : dict V) : dict V :=
  match d with
  | [] => []
  | (k', v') :: t => if String.eqb k' k then t else (k', v') :: dict_del k t
  end.

Definition dict_mem {V} (k : string) (d : dict V) : bool :=
  match dict_get k d with Some _ => true | None => false end.

Definition dict_keys {V} (d : dict V) : list string := map fst d.
Definition dict_values {V} (d : dict V) : list V := map snd d.

Record AddressBook : Type := { data : dict ContactRecord }.

Definition _key (n : string) : string := Str.casefold n.

Definition add_record (record : ContactRecord) : M AddressBook unit :=
  self <- get ;;
  put {| data := dict_set (_key (value (name record))) record (data self) |}.

Definition find (n : string) (self : AddressBook) : option ContactRecord :=
  dict_get (_key n) (data self).

Definition delete (n : string) : M AddressBook unit :=
  self <- get ;;
  let key := _key n in
  if dict_mem key (data self) then put {| data := dict_del key (data self) |}
  else raise (KeyError (Lit ContactNameNotFound)).

Definition _shift_if_weekend (d : Date.date) : result Date.date :=
  if Date.weekday d =? 5 then Date.add_days d 2
  else if Date.weekday d =? 6 then Date.add_days d 1
  else Return d.

(** One entry of the result: the dictionary with the keys "name" and
    "date". *)
Record item : Type := { item_name : string; item_date : string }.

Definition bind_result {A B} (r : result A) (k : A -> result B) : result B :=
  match r with
  | Return a => k a
  | Raise e => Raise e
  end.

(** The body of the loop of [get_upcoming_birthdays] for one record: the
    entry appended to the result, if any. *)
Definition upcoming_entry (today end_date : Date.date) (rec : ContactRecord)
  : result (option item) :=
  match birthday rec with
  | None => Return None
  | Some b =>
      bind_result (Date.strptime (value b)) (fun bday =>
      bind_result (Date.replace_year bday (Date.year today)) (fun bday_this_year =>
      bind_result
        (if Date.ltb bday_this_year today
         then Date.replace_year bday_this_year (Date.year today + 1)
         else Return bday_this_year) (fun bday_this_year =>
      bind_result (_shift_if_weekend bday_this_year) (fun greet =>
      if Date.leb today greet && Date.leb greet end_date
      then Return (Some {| item_name := value (name rec);
                           item_date := Date.strftime greet |})
      else Return None))))
  end.

Fixpoint upcoming_loop (today end_date : Date.date) (recs : list ContactRecord)
  : result (list item) :=
  match recs with
  | [] => Return []
  | rec :: rest =>
      bind_result (upcoming_entry today end_date rec) (fun e =>
      bind_result (upcoming_loop today end_date rest) (fun l =>
      Return (match e with Some x => x :: l | None => l end)))
  end.

(** [list.sort(key=...)]: the keys are computed for every element first;
    the sort is stable. *)
Fixpoint keyed {A K} (key : A -> result K) (l : list A) : result (list (K * A)) :=
  match l with
  | [] => Return []
  | x :: t =>
      bind_result (key x) (fun k =>
      bind_result (keyed key t) (fun kt => Return ((k, x) :: kt)))
  end.

Fixpoint insert_stable {K A} (ltb : K -> K -> bool) (x : K * A) (l : list (K * A))
  : list (K * A) :=
  match l with
  | [] => [x]
  | y :: t => if ltb (fst y) (fst x) then y :: insert_stable ltb x t
              else x :: y :: t
  end.

(** Stable sort: elements are inserted from the right, each one after the
    elements with a strictly smaller key and before all the others. *)
Definition sort_stable {K A} (ltb : K -> K -> bool) (l : list (K * A))
  : list (K * A) :=
  fold_right (insert_stable ltb) [] l.

Definition sort_by_key {A K} (ltb : K -> K -> bool) (key : A -> result K)
           (l : list A) : result (list A) :=
  bind_result (keyed key l) (fun kl => Return (map snd (sort_stable ltb kl))).

Definition get_upcoming_birthdays (today : Date.date) (days : Z)
  : M AddressBook (list item) :=
  end_date <- lift (Date.add_days today (days - 1)) ;;
  self <- get ;;
  result <- lift (upcoming_loop today end_date (dict_values (data self))) ;;
  lift (sort_by_key Date.ltb (fun x => Date.strptime (item_date x)) result).

(* ================================================================== *)
(** * The view, persistence and the application *)

(** What [show_message] and [show_error] are given. *)
Inductive text : Type :=
| Msg (m : message)       (* a literal, or [str(e)] of a ValueError *)
| Repr (m : message)      (* [str(e)] of a KeyError: its argument, quoted *)
| FieldValue (s : string) (* the value of a field *)
| Unexpected (e : exn).   (* f"Сталася помилка: {e}" *)

Inductive printed : Type :=
| DataLoaded  (* f"Дані завантажено з {DEFAULT_DB}" *)
| DataSaved.  (* f"Дані збережено у {DEFAULT_DB}" *)

(** The observable actions of the program, in the order they happen: the
    calls to the view, the two [print]s of [run] and the calls to
    [save_data] with the store that is written. *)
Inductive event : Type :=
| ShowWelcome
| ShowGoodbye
| ShowMessage (t : text)
| ShowError (t : text)
| ShowContact (rec : ContactRecord)
| ShowContacts (recs : list ContactRecord)
| ShowBirthdays (items : list item)
| ShowHelp
| Print (p : printed)
| SaveData (b : AddressBook).

Record App : Type := { book : AddressBook; events : list event }.

Definition emit (e : event) : M App unit :=
  fun self => (Return tt, {| book := book self; events := events self ++ [e] |}).

(** Run a method of the store on [self.book]. *)
Definition on_book {A} (m : M AddressBook A) : M App A :=
  fun self =>
    let (r, b) := m (book self) in
    (r, {| book := b; events := events self |}).

(** [rec = self.book.find(name)] followed by a method call on [rec].  The
    object [rec] is the one the store holds under the folded name, so the
    method mutates the store's entry; when [find] gives [None] the
    attribute access raises. *)
Definition on_found {A} (n : string) (m : M ContactRecord A) : M AddressBook A :=
  fun self =>
    match find n self with
    | None => (Raise (AttributeError (Builtin NoneHasNoAttribute)), self)
    | Some rec =>
        let (r, rec') := m rec in
        (r, {| data := dict_set (_key n) rec' (data self) |})
    end.

Definition show_message (t : text) : M App unit := emit (ShowMessage t).
Definition show_error (t : text) : M App unit := emit (ShowError t).

(** [ConsoleView.show_contact]: reads [rec.phones] first. *)
Definition show_contact (rec : option ContactRecord) : M App unit :=
  match rec with
  | None => raise (AttributeError (Builtin NoneHasNoAttribute))
  | Some r => emit (ShowContact r)
  end.

Definition save_data : M App unit :=
  self <- get ;; emit (SaveData (book self)).

Definition autosave : M App unit := save_data.

(** The error report chosen by the [except] clauses of [input_error]. *)
Definition report (e : exn) : text :=
  match e with
  | IndexError _ => Msg (Lit NotEnoughArguments)
  | AttributeError _ => Msg (Lit ContactNotFound)
  | KeyError m => Repr m
  | ValueError m => Msg m
  | OverflowError _ | EOFError => Unexpected e
  end.

Definition input_error (func : M App unit) : M App unit :=
  fun self =>
    match func self with
    | (Return a, s) => (Return a, s)
    | (Raise e, s) => show_error (report e) s
    end.

(** [a, *_ = args], [a, b, *_ = args] and [a, b, c, *_ = args] *)
Definition unpack1 (args : list string) : result string :=
  match args with
  | a :: _ => Return a
  | _ => Raise (ValueError (Builtin (UnpackTooFew 1 (List.length args))))
  end.

Definition unpack2 (args : list string) : result (string * string) :=
  match args with
  | a :: b :: _ => Return (a, b)
  | _ => Raise (ValueError (Builtin (UnpackTooFew 2 (List.length args))))
  end.

Definition unpack3 (args : list string) : result (string * string * string) :=
  match args with
  | a :: b :: c :: _ => Return (a, b, c)
  | _ => Raise (ValueError (Builtin (UnpackTooFew 3 (List.length args))))
  end.

Definition handle_add_body (args : list string) : M App unit :=
  np <- lift (unpack2 args) ;;
  let (n, phone) := np : string * string in
  self <- get ;;
  msg <- match find n (book self) with
         | None =>
             on_book (add_record (Record_init n)) ;;;
             ret ContactAdded
         | Some _ => ret ContactUpdated
         end ;;
  on_book (on_found n (add_phone phone)) ;;;
  autosave ;;;
  show_message (Msg (Lit msg)).

Definition handle_add (args : list string) : M App unit :=
  input_error (handle_add_body args).

Definition handle_change_body (args : list string) : M App unit :=
  a <- lift (unpack3 args) ;;
  let '(n, old_p, new_p) := a : string * string * string in
  on_book (on_found n (edit_phone old_p new_p)) ;;;
  autosave ;;;
  show_message (Msg (Lit PhoneChanged)).

Definition handle_change (args : list string) : M App unit :=
  input_error (handle_change_body args).

Definition handle_remove_phone_body (args : list string) : M App unit :=
  a <- lift (unpack2 args) ;;
  let (n, p) := a : string * string in
  on_book (on_found n (remove_phone p)) ;;;
  autosave ;;;
  show_message (Msg (Lit PhoneRemoved)).

Definition handle_remove_phone (args : list string) : M App unit :=
  input_error (handle_remove_phone_body args).

Definition handle_delete_body (args : list string) : M App unit :=
  n <- lift (unpack1 args) ;;
  on_book (delete n) ;;;
  autosave ;;;
  show_message (Msg (Lit ContactDeleted)).

Definition handle_delete (args : list string) : M App unit :=
  input_error (handle_delete_body args).

Definition handle_phone_body (args : list string) : M App unit :=
  n <- lift (unpack1 args) ;;
  self <- get ;;
  show_contact (find n (book self)).

Definition handle_phone (args : list string) : M App unit :=
  input_error (handle_phone_body args).

Definition handle_all : M App unit :=
  self <- get ;;
  emit (ShowContacts (dict_values (data (book self)))).

Definition handle_add_birthday_body (args : list string) : M App unit :=
  a <- lift (unpack2 args) ;;
  let (n, d) := a : string * string in
  on_book (on_found n (add_birthday d)) ;;;
  autosave ;;;
  show_message (Msg (Lit BirthdayAdded)).

Definition handle_add_birthday (args : list string) : M App unit :=
  input_error (handle_add_birthday_body args).

Definition handle_show_birthday_body (args : list string) : M App unit :=
  n <- lift (unpack1 args) ;;
  self <- get ;;
  match find n (book self) with
  | None => raise (AttributeError (Builtin NoneHasNoAttribute))
  | Some rec =>
      match birthday rec with
      | Some b => show_message (FieldValue (value b))
      | None => show_message (Msg (Lit NoBirthdaySet))
      end
  end.

Definition handle_show_birthday (args : list string) : M App unit :=
  input_error (handle_show_birthday_body args).

Definition handle_birthdays (today : Date.date) : M App unit :=
  items <- on_book (get_upcoming_birthdays today 7) ;;
  emit (ShowBirthdays items).

Definition handle_help : M App unit := emit ShowHelp.

(** [App.parse_input] *)
Definition parse_input (line : string) : result (string * list string) :=
  bind_result (Shlex.split (Str.strip line)) (fun parts =>
  match parts with
  | [] => Return (EmptyString, [])
  | p :: rest => Return (Str.lower p, rest)
  end).

(** The chain of comparisons in the loop of [run], below the test for
    "exit" and "close". *)
Definition execute (today : Date.date) (cmd : string) (args : list string)
  : M App unit :=
  if String.eqb cmd "hello" then show_message (Msg (Lit HowCanIHelp))
  else if String.eqb cmd "help" then handle_help
  else if String.eqb cmd "add" then handle_add args
  else if String.eqb cmd "change" then handle_change args
  else if String.eqb cmd "remove-phone" then handle_remove_phone args
  else if String.eqb cmd "delete" then handle_delete args
  else if String.eqb cmd "phone" then handle_phone args
  else if String.eqb cmd "all" then handle_all
  else if String.eqb cmd "add-birthday" then handle_add_birthday args
  else if String.eqb cmd "show-birthday" then handle_show_birthday args
  else if String.eqb cmd "birthdays" then handle_birthdays today
  else show_message (Msg (Lit InvalidCommand)).

(** The [while True] loop of [run].  The input is the sequence of lines
    that [input] returns, each with the date the clock shows while the line
    is processed; reading past the last line makes [input] raise
    [EOFError].  The loop returns when it reaches [break]. *)
Fixpoint loop (inputs : list (Date.date * string)) : M App unit :=
  match inputs with
  | [] => raise EOFError
  | (today, line) :: rest =>
      ca <- lift (parse_input line) ;;
      let (cmd, args) := ca : string * list string in
      if negb (Shlex.nonempty cmd) then loop rest
      else if String.eqb cmd "exit" || String.eqb cmd "close"
      then emit ShowGoodbye
      else execute today cmd args ;;; loop rest
  end.

(** [try: body finally: handler] *)
Definition try_finally {S A} (body : M S A) (handler : M S unit) : M S A :=
  fun s =>
    let (r, s') := body s in
    match handler s' with
    | (Return _, s'') => (r, s'')
    | (Raise e, s'') => (Raise e, s'')
    end.

Definition run (inputs : list (Date.date * string)) : M App unit :=
  emit ShowWelcome ;;;
  emit (Print DataLoaded) ;;;
  try_finally (loop inputs) (save_data ;;; emit (Print DataSaved)).

Definition empty_book : AddressBook := {| data := [] |}.

(** The application as [main] builds it, given the store [load_data]
    returned. *)
Definition App_init (b : AddressBook) : App := {| book := b; events := [] |}.

(* ================================================================== *)
(** * Vocabulary of the statements *)

Open Scope list_scope.

(** The normalized values of the phones of a record, in order. *)
Definition phone_values (r : ContactRecord) : list string :=
  map value (phones r).

(** U+00B2, SUPERSCRIPT TWO. *)
Definition superscript_two : ascii := Str.of_ord 178.

(** The string made of [n] copies of [c]. *)
Fixpoint replicate (n : nat) (c : ascii) : string :=
  match n with
  | O => EmptyString
  | S k => String c (replicate k c)
  end.

(** Every key of the store is the folded name of the record it holds, and
    no key occurs twice. *)
Definition keyed_by_name (b : AddressBook) : Prop :=
  NoDup (dict_keys (data b))
  /\ forall k r, In (k, r) (data b) -> k = _key (value (name r)).

(** The verbs of the commands that change the store, and of those that
    only read it. *)
Definition mutating_commands : list string :=
  ["add"; "change"; "remove-phone"; "delete"; "add-birthday"].

Definition read_only_commands : list string :=
  ["phone"; "all"; "show-birthday"; "birthdays"; "help"; "hello"].

(** The event is a call to [save_data]. *)
Definition is_save (e : event) : bool :=
  match e with SaveData _ => true | _ => false end.

Definition mkdate (y m d : Z) : Date.date :=
  {| Date.year := y; Date.month := m; Date.day := d |}.

(** A record as the commands [add] and [add-birthday] leave it. *)
Definition contact (n phone bday : string) : ContactRecord :=
  {| name := {| value := n |};
     phones := [{| value := phone |}];
     birthday := Some {| value := bday |} |}.

(** The store that holds the records [recs], in this order. *)
Definition book_of (recs : list ContactRecord) : AddressBook :=
  {| data := map (fun r => (_key (value (name r)), r)) recs |}.

(** The store after the commands "add Ann 0123456789", "add-birthday Ann
    03.01.1990", "add Bob 0987654321", "add-birthday Bob 06.01.1990". *)
Definition january_book : AddressBook :=
  book_of [contact "Ann" "0123456789" "03.01.1990";
           contact "Bob" "0987654321" "06.01.1990"].

(** The store after "add Ann 0123456789", "add-birthday Ann 29.02.2024". *)
Definition leap_day_book : AddressBook :=
  book_of [contact "Ann" "0123456789" "29.02.2024"].

(** The event is a call to [show_error]. *)
Definition is_show_error (e : event) : bool :=
  match e with ShowError _ => true | _ => false end.

(** A session typed on 1 March 2025. *)
Definition leap_day_session : list (Date.date * string) :=
  map (pair (mkdate 2025 3 1))
      ["add Ann 0123456789"; "add-birthday Ann 29.02.2024"; "birthdays";
       "hello"; "exit"].

(** The line made of the verb add, a space, a quotation mark and the
    letters Ann: the quotation is never closed. *)
Definition unbalanced_line : string :=
  ("add " ++ String (Str.of_ord 34) "Ann")%string.

(** ** Command lines *)

(** A character that [shlex] and [str.strip] treat as an ordinary one:
    neither whitespace, nor a quote, nor the backslash. *)
Definition plain_char (c : ascii) : bool :=
  negb (Str.isspace c || Shlex.quotes c || Shlex.escape c).

(** A word that can be typed as it is: not empty, of plain characters. *)
Definition plain_word (w : string) : bool :=
  Shlex.nonempty w && Str.forallb_str plain_char w.

(** A character that can stand between double quotes as it is. *)
Definition quotable_char (c : ascii) : bool :=
  negb (Date.is_char 34 c || Shlex.escape c).

Definition quotable (w : string) : bool := Str.forallb_str quotable_char w.

(** The word between double quotes. *)
Definition dquote (w : string) : string :=
  String (Str.of_ord 34) (w ++ String (Str.of_ord 34) EmptyString)%string.

(** How an argument is typed: as it is when it is a plain word, between
    double quotes otherwise. *)
Definition typed (w : string) : string :=
  if plain_word w then w else dquote w.

(** The words, typed and separated by one space. *)
Fixpoint command_line (words : list string) : string :=
  match words with
  | [] => EmptyString
  | [w] => typed w
  | w :: rest => (typed w ++ String " " (command_line rest))%string
  end.

(** The commands that take arguments, each with the number of arguments
    its handler unpacks. *)
Definition required_arguments : list (string * nat) :=
  [("add", 2%nat); ("change", 3%nat); ("remove-phone", 2%nat);
   ("delete", 1%nat); ("phone", 1%nat); ("add-birthday", 2%nat);
   ("show-birthday", 1%nat)].

(** The commands that start by looking a contact up and need it. *)
Definition contact_commands : list (string * nat) :=
  [("change", 3%nat); ("remove-phone", 2%nat); ("phone", 1%nat);
   ("add-birthday", 2%nat); ("show-birthday", 1%nat)].

(** ** The calendar and the specification of the query *)

Import Date.

(** The number of days of the year [y]. *)
Definition year_length (y : Z) : Z := if is_leap y then 366 else 365.

(** The last lines of [ord2ymd]: the month and the day of the [n]-th day
    (from 0) of a year. *)
Definition month_day (leapyear : bool) (n : Z) : Z * Z :=
  let month := Z.shiftr (n + 50) 5 in
  let preceding :=
    DAYS_BEFORE_MONTH month + (if (2 <? month) && leapyear then 1 else 0) in
  if n <? preceding then
    let month := month - 1 in
    let preceding :=
      preceding
      - (DAYS_IN_MONTH month + (if (month =? 2) && leapyear then 1 else 0)) in
    (month, n - preceding + 1)
  else (month, n - preceding + 1).

(** [month_day] returns a month and a day of that month, at the distance
    [n] from 1 January. *)
Definition month_day_ok (leapyear : bool) (n : Z) : bool :=
  let (m, d) := month_day leapyear n in
  (1 <=? m) && (m <=? 12) && (1 <=? d)
  && (d <=? (if (m =? 2) && leapyear then 29 else DAYS_IN_MONTH m))
  && (DAYS_BEFORE_MONTH m + (if (2 <? m) && leapyear then 1 else 0) + d =? n + 1).

(** The integers 0, ..., [n] - 1. *)
Definition upto (n : nat) : list Z := map Z.of_nat (seq 0 n).

(** A date that the constructor of [date] accepts. *)
Definition valid_date (d : date) : Prop := valid (year d) (month d) (day d) = true.

(** The specification of the query, in its own words and over day counts
    (no exception, no text).  [spec_project]: the month and day of the
    birthday in the year of [today], or in the next year when that date is
    strictly before [today]. *)
Definition spec_project (today bday : date) : date :=
  let this_year := mkdate (year today) (month bday) (day bday) in
  if toordinal this_year <? toordinal today
  then mkdate (year today + 1) (month bday) (day bday)
  else this_year.

(** A Saturday moves forward 2 days, a Sunday 1 day. *)
Definition spec_shift (d : date) : date :=
  if weekday d =? 5 then fromordinal (toordinal d + 2)
  else if weekday d =? 6 then fromordinal (toordinal d + 1)
  else d.

(** today <= shifted <= today + (windowDays - 1) days *)
Definition spec_in_window (today : date) (windowDays : Z) (shifted : date) : bool :=
  (toordinal today <=? toordinal shifted)
  && (toordinal shifted <=? toordinal today + (windowDays - 1)).

(** The birthday of a record, as a date. *)
Definition birthday_date (rec : ContactRecord) : option date :=
  match birthday rec with
  | None => None
  | Some b =>
      match strptime (value b) with
      | Return d => Some d
      | Raise _ => None
      end
  end.

(** The entry of one record, with its greeting date: present exactly when
    the record has a birthday whose shifted date is in the window. *)
Definition spec_entry (today : date) (windowDays : Z) (rec : ContactRecord)
  : list (date * item) :=
  match birthday_date rec with
  | None => []
  | Some bday =>
      let shifted := spec_shift (spec_project today bday) in
      if spec_in_window today windowDays shifted
      then [(shifted, {| item_name := value (name rec);
                         item_date := strftime shifted |})]
      else []
  end.

(** [a] is an earlier day than [b]. *)
Definition before (a b : date) : bool := toordinal a <? toordinal b.

(** The entries of the records, sorted by greeting date, ties in the order
    of the records. *)
Definition spec_upcoming (today : date) (windowDays : Z) (recs : list ContactRecord)
  : list item :=
  map snd (sort_stable before (flat_map (spec_entry today windowDays) recs)).

(** Any day but 29 February. *)
Definition not_leap_day (d : date) : Prop := ~ (month d = 2 /\ day d = 29).

(** Every birthday of the store parses, to a date other than
    29 February. *)
Definition birthdays_projectable (b : AddressBook) : Prop :=
  forall rec bd, In rec (dict_values (data b)) -> birthday rec = Some bd ->
    exists d, strptime (value bd) = Return d /\ not_leap_day d.

(** An entry whose text is the text of its valid greeting date, in a year
    of four digits. *)
Definition well_formed_entry (e : date * item) : Prop :=
  valid_date (fst e) /\ 1000 <= year (fst e)
  /\ item_date (snd e) = strftime (fst e).

(** The greeting date of [a] is not after the one of [b]. *)
Definition not_after (a b : date * item) : Prop :=
  toordinal (fst a) <= toordinal (fst b).

(** ** The fields of the stored records *)

(** The double quotation mark. *)
Definition dq : ascii := Str.of_ord 34.

(** A phone value as [Phone] accepts it. *)
Definition phone_value_ok (v : string) : Prop :=
  Str.isdigit v = true /\ String.length v = 10%nat.

(** A birthday value as [Birthday] stores it: the text [strftime] gives
    for a valid date. *)
Definition birthday_value_ok (v : string) : Prop :=
  exists d, valid_date d /\ v = strftime d.

(** Every field of the record has a value its constructor accepts. *)
Definition record_valid (rec : ContactRecord) : Prop :=
  Forall (fun ph => phone_value_ok (value ph)) (phones rec)
  /\ (forall b, birthday rec = Some b -> birthday_value_ok (value b)).

Definition store_valid (b : AddressBook) : Prop :=
  Forall record_valid (dict_values (data b)).


(** ** The commands *)

(** [m] never changes the property [Q] of the store. *)
Definition book_inv {A} (Q : AddressBook -> Prop) (m : M App A) : Prop :=
  forall s, Q (book s) -> Q (book (snd (m s))).

(** [m] shows nothing and saves nothing, whether it returns or raises. *)
Definition silent {A} (m : M App A) : Prop :=
  forall s, events (snd (m s)) = events s.

(** When [m] returns, it has saved the store it leaves and then shown one
    message, and nothing else; when it raises, it has shown and saved
    nothing. *)
Definition saves_then_reports (m : M App unit) : Prop :=
  forall s,
    match m s with
    | (Return _, s') =>
        exists l, events s' = events s ++ [SaveData (book s'); ShowMessage (Msg (Lit l))]
    | (Raise _, s') => events s' = events s
    end.

(** [m] leaves the store alone and adds no [SaveData] to the events. *)
Definition never_saves {A} (m : M App A) : Prop :=
  forall s,
    book (snd (m s)) = book s
    /\ exists es, events (snd (m s)) = events s ++ es
                  /\ forallb (fun e => negb (is_save e)) es = true.

(* ================================================================== *)
(** * Strings and fields *)

Lemma has_value_true (v : string) (ph : Phone) :
  has_value v ph = true <-> value ph = v.
Proof. unfold has_value. apply String.eqb_eq. Qed.

Lemma has_value_false (v : string) (ph : Phone) :
  has_value v ph = false <-> value ph <> v.
Proof. unfold has_value. apply String.eqb_neq. Qed.

Lemma field_eta (f : Field) : {| value := value f |} = f.
Proof. destruct f; reflexivity. Qed.

Lemma field_value_inj (f g : Field) : value f = value g -> f = g.
Proof. destruct f, g; simpl; congruence. Qed.

(** [Phone_init] raises nothing but the validation error. *)
Lemma Phone_init_raise (s : string) (e : exn) :
  Phone_init s = Raise e -> e = ValueError (Lit PhoneTenDigits).
Proof.
  unfold Phone_init.
  destruct (negb _); intros H; inversion H; reflexivity.
Qed.

(** What [Phone_init] accepts, and what it stores. *)
Lemma Phone_init_return (s : string) (p : Phone) :
  Phone_init s = Return p <->
  (Str.isdigit (Str.strip s) = true
   /\ String.length (Str.strip s) = 10%nat
   /\ value p = Str.strip s).
Proof.
  unfold Phone_init.
  destruct (Str.isdigit (Str.strip s)) eqn:Hd;
    destruct (Nat.eqb_spec (String.length (Str.strip s)) 10) as [Hl | Hl]; simpl.
  - split.
    + intros H; inversion H; subst; simpl. repeat split; auto.
    + intros (_ & _ & Hv). f_equal. apply field_value_inj. simpl.
      symmetry. exact Hv.
  - split; [discriminate | intros (_ & H & _); contradiction].
  - split; [discriminate | intros (H & _); discriminate].
  - split; [discriminate | intros (H & _); discriminate].
Qed.

Lemma Phone_init_total (s : string) :
  (exists p, Phone_init s = Return p)
  \/ Phone_init s = Raise (ValueError (Lit PhoneTenDigits)).
Proof.
  unfold Phone_init. destruct (negb _); eauto.
Qed.

(** On strings whose characters are all decimal digits after trimming,
    the claim about [Phone] holds word for word. *)
Lemma isdigit_of_decimal (s : string) :
  s <> EmptyString -> Str.forallb_str Str.isdecimal s = true -> Str.isdigit s = true.
Proof.
  intros Hne Hall. destruct s as [|c s]; [congruence|].
  unfold Str.isdigit.
  revert Hall. generalize (String c s). intros t.
  induction t as [|a t IH]; simpl; auto.
  intros H. apply andb_prop in H. destruct H as [Ha Ht].
  unfold Str.isdigit_char. rewrite Ha. simpl. auto.
Qed.

Lemma Phone_init_decimal (s : string) :
  String.length (Str.strip s) = 10%nat ->
  Str.forallb_str Str.isdecimal (Str.strip s) = true ->
  Phone_init s = Return {| value := Str.strip s |}.
Proof.
  intros Hl Hd. apply Phone_init_return. repeat split; auto.
  apply isdigit_of_decimal; auto.
  intros E. rewrite E in Hl. discriminate.
Qed.

(** Below U+0080 the digits of [str.isdigit] are the decimal digits, so on
    such strings [Phone_init] succeeds exactly when the trimmed string is
    ten decimal digits. *)
Lemma isdigit_char_ascii (c : ascii) :
  Str.ord c < 128 -> Str.isdigit_char c = Str.isdecimal c.
Proof.
  intros H. unfold Str.isdigit_char.
  destruct (Z.eqb_spec (Str.ord c) 178); [lia|].
  destruct (Z.eqb_spec (Str.ord c) 179); [lia|].
  destruct (Z.eqb_spec (Str.ord c) 185); [lia|].
  rewrite !orb_false_r. reflexivity.
Qed.

Lemma Phone_init_ascii (s : string) :
  Str.forallb_str (fun c => Str.ord c <? 128) (Str.strip s) = true ->
  ((exists p, Phone_init s = Return p) <->
   (String.length (Str.strip s) = 10%nat
    /\ Str.forallb_str Str.isdecimal (Str.strip s) = true)).
Proof.
  intros Hascii.
  assert (Heq : Str.forallb_str Str.isdigit_char (Str.strip s)
                = Str.forallb_str Str.isdecimal (Str.strip s)).
  { induction (Str.strip s) as [|c t IH]; simpl in *; [reflexivity|].
    apply andb_prop in Hascii. destruct Hascii as [Hc Ht].
    apply Z.ltb_lt in Hc. rewrite (isdigit_char_ascii c Hc), (IH Ht). reflexivity. }
  split.
  - intros [p Hp]. apply Phone_init_return in Hp. destruct Hp as (Hd & Hl & _).
    split; [exact Hl|]. rewrite <- Heq.
    unfold Str.isdigit in Hd. destruct (Str.strip s); [discriminate | exact Hd].
  - intros [Hl Hd]. exists {| value := Str.strip s |}.
    apply Phone_init_decimal; assumption.
Qed.

(* ================================================================== *)
(** * Record *)

Lemma existsb_has_value (v : string) (l : list Phone) :
  existsb (has_value v) l = true <-> In v (map value l).
Proof.
  rewrite existsb_exists. split.
  - intros (ph & Hin & Hv). apply has_value_true in Hv. subst.
    apply in_map. exact Hin.
  - intros Hin. apply in_map_iff in Hin. destruct Hin as (ph & Hv & Hin).
    exists ph. split; [exact Hin | apply has_value_true; exact Hv].
Qed.

Lemma existsb_has_value_false (v : string) (l : list Phone) :
  existsb (has_value v) l = false <-> ~ In v (map value l).
Proof.
  rewrite <- existsb_has_value. destruct (existsb _ _); split; congruence.
Qed.

(** [add_phone] on a valid number: a no-op when the value is present,
    otherwise the phone is appended at the end. *)
Lemma add_phone_valid (phone : string) (p : Phone) (r : ContactRecord) :
  Phone_init phone = Return p ->
  add_phone phone r =
  (Return tt,
   if existsb (has_value (value p)) (phones r) then r
   else set_phones r (phones r ++ [p])).
Proof.
  intros Hp. unfold add_phone, bind, lift, get, put, ret. rewrite Hp.
  destruct (existsb _ _); reflexivity.
Qed.

Lemma add_phone_invalid (phone : string) (e : exn) (r : ContactRecord) :
  Phone_init phone = Raise e -> add_phone phone r = (Raise e, r).
Proof.
  intros Hp. unfold add_phone, bind, lift. rewrite Hp. reflexivity.
Qed.

Lemma NoDup_snoc {A} (l : list A) (x : A) :
  NoDup l -> ~ In x l -> NoDup (l ++ [x]).
Proof.
  induction l as [|a l IH]; simpl; intros Hnd Hnin.
  - constructor; [intros [] | constructor].
  - inversion Hnd as [|? ? Ha Hl]; subst. constructor.
    + rewrite in_app_iff. simpl. intros [H | [H | []]]; [auto | subst; auto].
    + apply IH; auto.
Qed.

(** [add_phone] keeps the phone values distinct. *)
Lemma add_phone_NoDup (phone : string) (r : ContactRecord) :
  NoDup (phone_values r) -> NoDup (phone_values (snd (add_phone phone r))).
Proof.
  intros Hnd.
  destruct (Phone_init_total phone) as [[p Hp] | He].
  - rewrite (add_phone_valid _ _ _ Hp). simpl.
    destruct (existsb _ _) eqn:Hex; auto.
    apply existsb_has_value_false in Hex.
    unfold phone_values, set_phones. simpl. rewrite map_app. simpl.
    apply NoDup_snoc; assumption.
  - rewrite (add_phone_invalid _ _ _ He). exact Hnd.
Qed.

Lemma del_first_none (v : string) (l : list Phone) :
  del_first v l = None <-> ~ In v (map value l).
Proof.
  induction l as [|ph t IH]; simpl.
  - split; auto.
  - destruct (has_value v ph) eqn:Hv.
    + apply has_value_true in Hv. split; [discriminate | intros H; exfalso; auto].
    + apply has_value_false in Hv.
      destruct (del_first v t); simpl.
      * split; [discriminate|]. intros H. exfalso. apply H. right.
        destruct (in_dec string_dec v (map value t)) as [Hin|Hin]; auto.
        apply IH in Hin. discriminate.
      * split; auto. intros _ [H|H]; [auto|]. revert H. apply IH. reflexivity.
Qed.

(** A successful [del_first] removes exactly the first match. *)
Lemma del_first_some (v : string) (l l' : list Phone) :
  del_first v l = Some l' ->
  exists before ph after,
    l = before ++ ph :: after /\ value ph = v
    /\ ~ In v (map value before) /\ l' = before ++ after.
Proof.
  revert l'. induction l as [|ph t IH]; simpl; intros l' H; [discriminate|].
  destruct (has_value v ph) eqn:Hv.
  - apply has_value_true in Hv. inversion H; subst.
    exists [], ph, l'. simpl. auto.
  - apply has_value_false in Hv.
    destruct (del_first v t) as [t'|]; simpl in H; [|discriminate].
    inversion H; subst.
    destruct (IH t' eq_refl) as (b & p & a & -> & Hp & Hb & ->).
    exists (ph :: b), p, a. simpl. repeat split; auto.
    intros [E|E]; auto.
Qed.

(** [remove_phone] keeps the phone values distinct. *)
Lemma remove_phone_NoDup (phone : string) (r : ContactRecord) :
  NoDup (phone_values r) -> NoDup (phone_values (snd (remove_phone phone r))).
Proof.
  intros Hnd. unfold remove_phone, bind, lift, get, put, raise.
  destruct (Phone_init phone) as [p|e]; simpl; auto.
  destruct (del_first (value p) (phones r)) as [l'|] eqn:Hd; simpl; auto.
  apply del_first_some in Hd.
  destruct Hd as (b & ph & a & Hl & _ & _ & ->).
  unfold phone_values in *. simpl. rewrite Hl in Hnd.
  rewrite map_app in *. simpl in Hnd. apply NoDup_remove_1 in Hnd. exact Hnd.
Qed.

Lemma assign_first_none (o n : string) (l : list Phone) :
  ~ In o (map value l) -> assign_first o n l = None.
Proof.
  induction l as [|ph t IH]; simpl; intros H; auto.
  destruct (has_value o ph) eqn:Hv.
  - apply has_value_true in Hv. exfalso. auto.
  - rewrite IH; auto.
Qed.

Lemma assign_first_some (o n : string) (before after : list Phone) (ph : Phone) :
  value ph = o -> ~ In o (map value before) ->
  assign_first o n (before ++ ph :: after)
  = Some (before ++ {| value := n |} :: after).
Proof.
  intros Hph. induction before as [|b t IH]; simpl; intros Hb.
  - apply has_value_true in Hph. rewrite Hph. reflexivity.
  - destruct (has_value o b) eqn:Hv.
    + apply has_value_true in Hv. exfalso. auto.
    + rewrite IH; auto.
Qed.

(** [add_birthday] when a birthday is present. *)
Lemma add_birthday_present (raw : string) (r : ContactRecord) :
  birthday r <> None ->
  add_birthday raw r = (Raise (ValueError (Lit BirthdayAlreadySet)), r).
Proof.
  intros H. unfold add_birthday, bind, get, raise.
  destruct (birthday r); [reflexivity | congruence].
Qed.

(** [Birthday_init] raises nothing but the format error. *)
Lemma Birthday_init_raise (s : string) (e : exn) :
  Birthday_init s = Raise e -> e = ValueError (Lit InvalidDateFormat).
Proof.
  unfold Birthday_init, Date.strptime, Date.make.
  destruct (Date.match_dmY _) as [[[[d m] y] rest]|]; [|intros H; inversion H; auto].
  destruct rest; [|intros H; inversion H; auto].
  destruct (negb _); [intros H; inversion H; auto|].
  destruct (negb _); intros H; inversion H; auto.
Qed.

(* ================================================================== *)
(** * Claims about fields and records *)

(** C4 (fails on [edit_phone]): a record whose two phones were added by
    [add_phone] has distinct phone values; editing the first number into
    the second succeeds and leaves the same value twice in the sequence.
    [add_phone] and [remove_phone] keep the values distinct (lemmas
    [add_phone_NoDup], [remove_phone_NoDup], [add_phone_valid]). *)
Theorem edit_phone_duplicates_phone :
  let r0 := snd (add_phone "2222222222" (snd (add_phone "1111111111" (Record_init "Ann")))) in
  let r1 := snd (edit_phone "1111111111" "2222222222" r0) in
  NoDup (phone_values r0)
  /\ fst (edit_phone "1111111111" "2222222222" r0) = Return tt
  /\ phone_values r1 = ["2222222222"; "2222222222"]
  /\ ~ NoDup (phone_values r1).
Proof.
  vm_compute. repeat split.
  - constructor.
    + intros [H | []]. discriminate.
    + constructor; [intros [] | constructor].
  - intros H. inversion H as [|? ? Hnin _]; subst. apply Hnin. left. reflexivity.
Qed.

(** C5, as the claim states it, fails: with a valid old number that the
    record does not hold and an invalid new number, [edit_phone] raises the
    validation error of the new number, not the not-found error. *)
Lemma edit_phone_validates_new_before_lookup :
  let r := snd (add_phone "1111111111" (Record_init "Ann")) in
  ~ In (Str.strip "2222222222") (phone_values r)
  /\ fst (edit_phone "2222222222" "abc" r) = Raise (ValueError (Lit PhoneTenDigits))
  /\ fst (edit_phone "2222222222" "abc" r) <> Raise (ValueError (Lit OldPhoneNotFound)).
Proof.
  vm_compute. repeat split; try discriminate.
  intros [H | []]. discriminate.
Qed.

(** C5, amended: [edit_phone] validates the old number, then the new one,
    and raises the validation error of the first that is invalid; with both
    valid it raises the not-found error when no phone of the record has the
    old normalized value; otherwise it overwrites the value of the first
    such phone, every position unchanged.  Whenever it raises, the record
    is left as it was. *)
Theorem edit_phone_spec (r : ContactRecord) (oldRaw newRaw : string) :
  (forall e, Phone_init oldRaw = Raise e ->
     edit_phone oldRaw newRaw r = (Raise (ValueError (Lit PhoneTenDigits)), r))
  /\ (forall o e, Phone_init oldRaw = Return o -> Phone_init newRaw = Raise e ->
     edit_phone oldRaw newRaw r = (Raise (ValueError (Lit PhoneTenDigits)), r))
  /\ (forall o n, Phone_init oldRaw = Return o -> Phone_init newRaw = Return n ->
     ~ In (value o) (phone_values r) ->
     edit_phone oldRaw newRaw r = (Raise (ValueError (Lit OldPhoneNotFound)), r))
  /\ (forall o n before ph after,
     Phone_init oldRaw = Return o -> Phone_init newRaw = Return n ->
     phones r = before ++ ph :: after ->
     value ph = value o -> ~ In (value o) (map value before) ->
     edit_phone oldRaw newRaw r
     = (Return tt, set_phones r (before ++ n :: after))).
Proof.
  unfold edit_phone, bind, lift, get, put, raise.
  repeat split.
  - intros e He. rewrite He. apply Phone_init_raise in He. subst. reflexivity.
  - intros o e Ho He. rewrite Ho, He. apply Phone_init_raise in He. subst.
    reflexivity.
  - intros o n Ho Hn Hnin. rewrite Ho, Hn.
    rewrite assign_first_none; auto.
  - intros o n before ph after Ho Hn Hl Hph Hb. rewrite Ho, Hn, Hl.
    rewrite (assign_first_some _ _ _ _ _ Hph Hb). rewrite field_eta. reflexivity.
Qed.

Lemma edit_phone_spec_witness :
  let r := snd (add_phone "2222222222" (snd (add_phone "1111111111" (Record_init "Ann")))) in
  edit_phone "2222222222" "3333333333" r
  = (Return tt,
     set_phones r [{| value := "1111111111" |}; {| value := "3333333333" |}])
  /\ edit_phone "4444444444" "3333333333" r
     = (Raise (ValueError (Lit OldPhoneNotFound)), r)
  /\ edit_phone "4444444444" "33" r
     = (Raise (ValueError (Lit PhoneTenDigits)), r)
  /\ edit_phone "44" "3333333333" r
     = (Raise (ValueError (Lit PhoneTenDigits)), r).
Proof.
  intros r. split; [|split; [|split]].
  - apply (proj2 (proj2 (proj2 (edit_phone_spec r "2222222222" "3333333333")))
             {| value := "2222222222" |} {| value := "3333333333" |}
             [{| value := "1111111111" |}] {| value := "2222222222" |} []);
      try reflexivity.
    simpl. intros [H | []]. discriminate.
  - apply (proj1 (proj2 (proj2 (edit_phone_spec r "4444444444" "3333333333")))
             {| value := "4444444444" |} {| value := "3333333333" |});
      try reflexivity.
    simpl. intros [H | [H | []]]; discriminate.
  - apply (proj1 (proj2 (edit_phone_spec r "4444444444" "33"))
             {| value := "4444444444" |} (ValueError (Lit PhoneTenDigits)));
      reflexivity.
  - apply (proj1 (edit_phone_spec r "44" "3333333333")
             (ValueError (Lit PhoneTenDigits))).
    reflexivity.
Defined.

(** C6 (fails on superscript digits): ten copies of U+00B2 are accepted
    by [Phone_init] and stored, although no character of the string is a
    decimal digit.  On strings of decimal digits the claim holds (lemmas
    [Phone_init_return], [Phone_init_decimal]), and on strings below
    U+0080 in both directions ([Phone_init_ascii]). *)
Theorem Phone_init_accepts_superscript_digits :
  let s := replicate 10 superscript_two in
  Phone_init s = Return {| value := s |}
  /\ Str.strip s = s
  /\ String.length s = 10%nat
  /\ Str.forallb_str (fun c => negb (Str.isdecimal c)) s = true.
Proof. vm_compute. repeat split. Qed.

(** C7: a successful [add_birthday] leaves a birthday on the record; on a
    record with a birthday every [add_birthday], whatever its argument,
    raises the already-set error and leaves the record, and so the
    birthday, as it was; and the phone operations never touch the
    birthday. *)
Theorem add_birthday_set_once :
  (forall raw r r', add_birthday raw r = (Return tt, r') -> birthday r' <> None)
  /\ (forall raw r, birthday r <> None ->
        add_birthday raw r = (Raise (ValueError (Lit BirthdayAlreadySet)), r))
  /\ (forall p o n r,
        birthday (snd (add_phone p r)) = birthday r
        /\ birthday (snd (remove_phone p r)) = birthday r
        /\ birthday (snd (edit_phone o n r)) = birthday r).
Proof.
  split; [|split].
  - intros raw r r'. unfold add_birthday, bind, get, raise, lift, put.
    destruct (birthday r); [discriminate|].
    destruct (Birthday_init raw); [|discriminate].
    intros H. inversion H. simpl. discriminate.
  - intros raw r. apply add_birthday_present.
  - intros p o n r. repeat split.
    + unfold add_phone, bind, lift, get, put, ret.
      destruct (Phone_init p); simpl; auto. destruct (existsb _ _); reflexivity.
    + unfold remove_phone, bind, lift, get, put, raise.
      destruct (Phone_init p); simpl; auto. destruct (del_first _ _); reflexivity.
    + unfold edit_phone, bind, lift, get, put, raise.
      destruct (Phone_init o); simpl; auto.
      destruct (Phone_init n); simpl; auto.
      destruct (assign_first _ _ _); reflexivity.
Qed.

Lemma add_birthday_set_once_witness :
  let r := snd (add_birthday "03.01.1990" (Record_init "Ann")) in
  birthday r = Some {| value := "03.01.1990" |}
  /\ add_birthday "04.02.1991" r = (Raise (ValueError (Lit BirthdayAlreadySet)), r)
  /\ add_birthday "not a date" r = (Raise (ValueError (Lit BirthdayAlreadySet)), r).
Proof.
  intros r. split; [reflexivity|].
  assert (Hset : birthday r <> None).
  { apply (proj1 add_birthday_set_once "03.01.1990" (Record_init "Ann") r).
    reflexivity. }
  split; apply (proj1 (proj2 add_birthday_set_once)); exact Hset.
Defined.

(* ================================================================== *)
(** * The dictionary *)

Section Dict.
Context {V : Type}.
Implicit Types (k : string) (v : V) (d : dict V).

Lemma dict_get_set_same k v d : dict_get k (dict_set k v d) = Some v.
Proof.
  induction d as [|[k' v'] t IH]; simpl.
  - rewrite String.eqb_refl. reflexivity.
  - destruct (String.eqb k' k) eqn:E; simpl; rewrite E; auto.
Qed.

Lemma dict_get_set_other k k' v d :
  k <> k' -> dict_get k' (dict_set k v d) = dict_get k' d.
Proof.
  intros Hne. induction d as [|[k0 v0] t IH]; simpl.
  - apply String.eqb_neq in Hne. rewrite Hne. reflexivity.
  - destruct (String.eqb k0 k) eqn:E; simpl.
    + apply String.eqb_eq in E. subst.
      apply String.eqb_neq in Hne. rewrite Hne. reflexivity.
    + destruct (String.eqb k0 k'); auto.
Qed.

Lemma dict_set_set k v d : dict_set k v (dict_set k v d) = dict_set k v d.
Proof.
  induction d as [|[k' v'] t IH]; simpl.
  - rewrite String.eqb_refl. reflexivity.
  - destruct (String.eqb k' k) eqn:E; simpl; rewrite E; [reflexivity|].
    rewrite IH. reflexivity.
Qed.

Lemma dict_get_In k v d : dict_get k d = Some v -> In (k, v) d.
Proof.
  induction d as [|[k' v'] t IH]; simpl; [discriminate|].
  destruct (String.eqb k' k) eqn:E.
  - apply String.eqb_eq in E. intros H. inversion H. subst. auto.
  - auto.
Qed.

Lemma dict_get_None k d : dict_get k d = None <-> ~ In k (dict_keys d).
Proof.
  induction d as [|[k' v'] t IH]; simpl.
  - split; auto.
  - destruct (String.eqb k' k) eqn:E.
    + apply String.eqb_eq in E. split; [discriminate | intros H; exfalso; auto].
    + apply String.eqb_neq in E. rewrite IH. split.
      * intros H [H'|H']; auto.
      * intros H H'. auto.
Qed.

(** Writing an entry keeps the keys when the key is present, and adds
    the key at the end otherwise. *)
Lemma dict_set_keys k v d :
  dict_keys (dict_set k v d)
  = if dict_mem k d then dict_keys d else dict_keys d ++ [k].
Proof.
  unfold dict_mem. induction d as [|[k' v'] t IH]; simpl; auto.
  destruct (String.eqb k' k) eqn:E; simpl; auto.
  rewrite IH. destruct (dict_get k t); reflexivity.
Qed.

Lemma dict_set_In k v d k' v' :
  In (k', v') (dict_set k v d) -> (k' = k /\ v' = v) \/ In (k', v') d.
Proof.
  induction d as [|[k0 v0] t IH]; simpl.
  - intros [H|[]]. inversion H. auto.
  - destruct (String.eqb k0 k) eqn:E; simpl.
    + apply String.eqb_eq in E. subst.
      intros [H|H]; [inversion H; auto | auto].
    + intros [H|H]; [auto|]. destruct (IH H); auto.
Qed.

Lemma dict_del_In k d k' v' : In (k', v') (dict_del k d) -> In (k', v') d.
Proof.
  induction d as [|[k0 v0] t IH]; simpl; auto.
  destruct (String.eqb k0 k); simpl; auto.
  intros [H|H]; auto.
Qed.

Lemma dict_del_keys_incl k d x :
  In x (dict_keys (dict_del k d)) -> In x (dict_keys d).
Proof.
  induction d as [|[k0 v0] t IH]; simpl; auto.
  destruct (String.eqb k0 k); simpl; auto.
  intros [H|H]; auto.
Qed.

Lemma dict_set_NoDup k v d :
  NoDup (dict_keys d) -> NoDup (dict_keys (dict_set k v d)).
Proof.
  intros Hnd. rewrite dict_set_keys. unfold dict_mem.
  destruct (dict_get k d) eqn:E; auto.
  apply NoDup_snoc; auto. apply dict_get_None. exact E.
Qed.

Lemma dict_del_NoDup k d :
  NoDup (dict_keys d) -> NoDup (dict_keys (dict_del k d)).
Proof.
  induction d as [|[k0 v0] t IH]; simpl; auto.
  intros Hnd. inversion Hnd as [|? ? Hnin Ht]; subst.
  destruct (String.eqb k0 k); simpl; auto.
  constructor; auto. intros H. apply Hnin. eapply dict_del_keys_incl. exact H.
Qed.


End Dict.

(* ================================================================== *)
(** * The store *)


Lemma add_record_run (rec : ContactRecord) (b : AddressBook) :
  add_record rec b
  = (Return tt, {| data := dict_set (_key (value (name rec))) rec (data b) |}).
Proof. reflexivity. Qed.

Lemma keyed_by_name_set (b : AddressBook) (k : string) (rec : ContactRecord) :
  k = _key (value (name rec)) ->
  keyed_by_name b -> keyed_by_name {| data := dict_set k rec (data b) |}.
Proof.
  intros Hk [Hnd Hkeys]. split; simpl.
  - apply dict_set_NoDup. exact Hnd.
  - intros k' r Hin. apply dict_set_In in Hin.
    destruct Hin as [[-> ->] | Hin]; auto.
Qed.

Lemma add_record_keyed (rec : ContactRecord) (b : AddressBook) :
  keyed_by_name b -> keyed_by_name (snd (add_record rec b)).
Proof. intros H. rewrite add_record_run. simpl. apply keyed_by_name_set; auto. Qed.

Lemma delete_keyed (n : string) (b : AddressBook) :
  keyed_by_name b -> keyed_by_name (snd (delete n b)).
Proof.
  intros [Hnd Hkeys]. unfold delete, bind, get, put, raise.
  destruct (dict_mem _ _); simpl; [|split; auto].
  split; simpl.
  - apply dict_del_NoDup. exact Hnd.
  - intros k r Hin. apply Hkeys. eapply dict_del_In. exact Hin.
Qed.

(** A method that leaves the name of the record alone, run on the record
    that [find] returns, keeps the store keyed by name. *)
Lemma on_found_keyed {A} (n : string) (m : M ContactRecord A) (b : AddressBook) :
  (forall r, name (snd (m r)) = name r) ->
  keyed_by_name b -> keyed_by_name (snd (on_found n m b)).
Proof.
  intros Hname Hk. unfold on_found, find.
  destruct (dict_get (_key n) (data b)) as [rec|] eqn:E; simpl; auto.
  destruct (m rec) as [r rec'] eqn:Em. simpl.
  apply keyed_by_name_set; auto.
  specialize (Hname rec). rewrite Em in Hname. simpl in Hname. rewrite Hname.
  destruct Hk as [_ Hkeys]. apply Hkeys. apply dict_get_In. exact E.
Qed.

Lemma add_phone_name (p : string) (r : ContactRecord) :
  name (snd (add_phone p r)) = name r.
Proof.
  unfold add_phone, bind, lift, get, put, ret.
  destruct (Phone_init p); simpl; auto. destruct (existsb _ _); reflexivity.
Qed.

Lemma remove_phone_name (p : string) (r : ContactRecord) :
  name (snd (remove_phone p r)) = name r.
Proof.
  unfold remove_phone, bind, lift, get, put, raise.
  destruct (Phone_init p); simpl; auto. destruct (del_first _ _); reflexivity.
Qed.

Lemma edit_phone_name (o n : string) (r : ContactRecord) :
  name (snd (edit_phone o n r)) = name r.
Proof.
  unfold edit_phone, bind, lift, get, put, raise.
  destruct (Phone_init o); simpl; auto.
  destruct (Phone_init n); simpl; auto.
  destruct (assign_first _ _ _); reflexivity.
Qed.

Lemma add_birthday_name (d : string) (r : ContactRecord) :
  name (snd (add_birthday d r)) = name r.
Proof.
  unfold add_birthday, bind, lift, get, put, raise.
  destruct (birthday r); simpl; auto.
  destruct (Birthday_init d); reflexivity.
Qed.

(** [get_upcoming_birthdays] leaves the store as it found it, whether it
    returns or raises. *)
Lemma get_upcoming_birthdays_frame (today : Date.date) (days : Z) (b : AddressBook) :
  snd (get_upcoming_birthdays today days b) = b.
Proof.
  unfold get_upcoming_birthdays, bind, lift, get.
  destruct (Date.add_days today (days - 1)); simpl; auto.
  destruct (upcoming_loop _ _ _); simpl; auto.
Qed.

(* ================================================================== *)
(** * The handlers *)

Section BookInvariant.
Variable Q : AddressBook -> Prop.

Lemma book_inv_ret {A} (a : A) : book_inv Q (ret a).
Proof. intros s H. exact H. Qed.

Lemma book_inv_raise {A} (e : exn) : book_inv Q (@raise App A e).
Proof. intros s H. exact H. Qed.

Lemma book_inv_lift {A} (r : result A) : book_inv Q (lift r).
Proof. intros s H. exact H. Qed.

Lemma book_inv_get : book_inv Q (@get App).
Proof. intros s H. exact H. Qed.

Lemma book_inv_emit (e : event) : book_inv Q (emit e).
Proof. intros s H. exact H. Qed.

Lemma book_inv_bind {A B} (m : M App A) (k : A -> M App B) :
  book_inv Q m -> (forall a, book_inv Q (k a)) -> book_inv Q (bind m k).
Proof.
  intros Hm Hk s H. unfold bind. specialize (Hm s H).
  destruct (m s) as [[a|e] s']; simpl in *; auto.
  apply Hk. exact Hm.
Qed.

Lemma book_inv_on_book {A} (m : M AddressBook A) :
  (forall b, Q b -> Q (snd (m b))) -> book_inv Q (on_book m).
Proof.
  intros Hm s H. unfold on_book. specialize (Hm _ H).
  destruct (m (book s)); simpl in *. exact Hm.
Qed.

Lemma book_inv_input_error (m : M App unit) :
  book_inv Q m -> book_inv Q (input_error m).
Proof.
  intros Hm s H. unfold input_error. specialize (Hm s H).
  destruct (m s) as [[a|e] s']; simpl in *; auto.
Qed.

End BookInvariant.

Ltac book_inv_step :=
  first
    [ apply book_inv_bind; [| intros ?]
    | apply book_inv_ret | apply book_inv_raise | apply book_inv_lift
    | apply book_inv_get | apply book_inv_emit | apply book_inv_input_error
    | match goal with
      | |- book_inv _ (match ?x with _ => _ end) => destruct x
      end ].

Ltac unfold_handlers :=
  unfold handle_add, handle_add_body, handle_change, handle_change_body,
    handle_remove_phone, handle_remove_phone_body, handle_delete,
    handle_delete_body, handle_phone, handle_phone_body, handle_all,
    handle_add_birthday, handle_add_birthday_body, handle_show_birthday,
    handle_show_birthday_body, handle_birthdays, handle_help,
    show_message, show_error, show_contact, autosave, save_data.

(** [execute] is one of the handlers, according to the verb. *)
Lemma execute_cases (P : M App unit -> Prop) (today : Date.date)
      (cmd : string) (args : list string) :
  P (show_message (Msg (Lit HowCanIHelp))) ->
  P handle_help -> P (handle_add args) -> P (handle_change args) ->
  P (handle_remove_phone args) -> P (handle_delete args) ->
  P (handle_phone args) -> P handle_all -> P (handle_add_birthday args) ->
  P (handle_show_birthday args) -> P (handle_birthdays today) ->
  P (show_message (Msg (Lit InvalidCommand))) ->
  P (execute today cmd args).
Proof.
  intros. unfold execute.
  repeat match goal with
         | |- P (if ?c then _ else _) => destruct c
         end; assumption.
Qed.

(** Every command keeps the store keyed by the folded names. *)
Lemma execute_keyed (today : Date.date) (cmd : string) (args : list string) :
  book_inv keyed_by_name (execute today cmd args).
Proof.
  apply execute_cases; unfold_handlers; repeat book_inv_step;
    try (apply book_inv_on_book; intros b Hb).
  all: try (apply add_record_keyed; exact Hb).
  all: try (apply delete_keyed; exact Hb).
  all: try (rewrite get_upcoming_birthdays_frame; exact Hb).
  all: apply on_found_keyed;
    [ first [ apply add_phone_name | apply edit_phone_name
            | apply remove_phone_name | apply add_birthday_name ]
    | exact Hb ].
Qed.

Section Silent.

Lemma silent_ret {A} (a : A) : silent (ret a).
Proof. intros s. reflexivity. Qed.

Lemma silent_raise {A} (e : exn) : silent (@raise App A e).
Proof. intros s. reflexivity. Qed.

Lemma silent_lift {A} (r : result A) : silent (lift r).
Proof. intros s. reflexivity. Qed.

Lemma silent_get : silent (@get App).
Proof. intros s. reflexivity. Qed.

Lemma silent_on_book {A} (m : M AddressBook A) : silent (on_book m).
Proof. intros s. unfold on_book. destruct (m (book s)). reflexivity. Qed.

Lemma silent_bind {A B} (m : M App A) (k : A -> M App B) :
  silent m -> (forall a, silent (k a)) -> silent (bind m k).
Proof.
  intros Hm Hk s. unfold bind. specialize (Hm s).
  destruct (m s) as [[a|e] s']; simpl in *; auto.
  rewrite Hk. exact Hm.
Qed.

Lemma saves_then_reports_bind {A} (m : M App A) (k : A -> M App unit) :
  silent m -> (forall a, saves_then_reports (k a)) ->
  saves_then_reports (bind m k).
Proof.
  intros Hm Hk s. unfold bind. specialize (Hm s).
  destruct (m s) as [[a|e] s']; simpl in *; auto.
  specialize (Hk a s'). rewrite Hm in Hk. exact Hk.
Qed.

Lemma saves_then_reports_tail (l : literal) :
  saves_then_reports (autosave ;;; show_message (Msg (Lit l))).
Proof.
  intros s. unfold autosave, save_data, show_message, bind, get, emit. simpl.
  exists l. rewrite <- app_assoc. reflexivity.
Qed.

(** Under [input_error] such a handler returns, having either saved and
    then shown its message, or shown one error and saved nothing. *)
Lemma input_error_saves_then_reports (m : M App unit) (s : App) :
  saves_then_reports m ->
  fst (input_error m s) = Return tt
  /\ ((exists l, events (snd (input_error m s))
                 = events s ++ [SaveData (book (snd (input_error m s)));
                                ShowMessage (Msg (Lit l))])
      \/ (exists t, events (snd (input_error m s)) = events s ++ [ShowError t])).
Proof.
  intros Hm. specialize (Hm s). unfold input_error.
  destruct (m s) as [[[]|e] s']; simpl.
  - split; [reflexivity | left; exact Hm].
  - split; [reflexivity | right]. exists (report e). rewrite Hm. reflexivity.
Qed.

Lemma never_saves_ret {A} (a : A) : never_saves (@ret App A a).
Proof.
  intros s. split; [reflexivity|]. exists []. rewrite app_nil_r. auto.
Qed.

Lemma never_saves_raise {A} (e : exn) : never_saves (@raise App A e).
Proof.
  intros s. split; [reflexivity|]. exists []. rewrite app_nil_r. auto.
Qed.

Lemma never_saves_lift {A} (r : result A) : never_saves (@lift App A r).
Proof.
  intros s. split; [reflexivity|]. exists []. rewrite app_nil_r. auto.
Qed.

Lemma never_saves_get : never_saves (@get App).
Proof.
  intros s. split; [reflexivity|]. exists []. rewrite app_nil_r. auto.
Qed.

Lemma never_saves_emit (e : event) : is_save e = false -> never_saves (emit e).
Proof.
  intros He s. split; [reflexivity|]. exists [e]. simpl. rewrite He. auto.
Qed.

Lemma never_saves_on_book {A} (m : M AddressBook A) :
  (forall b, snd (m b) = b) -> never_saves (on_book m).
Proof.
  intros Hm s. unfold on_book. specialize (Hm (book s)).
  destruct (m (book s)); simpl in *. split; [exact Hm|].
  exists []. rewrite app_nil_r. auto.
Qed.

Lemma never_saves_bind {A B} (m : M App A) (k : A -> M App B) :
  never_saves m -> (forall a, never_saves (k a)) -> never_saves (bind m k).
Proof.
  intros Hm Hk s. unfold bind. destruct (Hm s) as (Hb & es & He & Hs).
  destruct (m s) as [[a|e] s']; simpl in *.
  - destruct (Hk a s') as (Hb' & es' & He' & Hs').
    split; [congruence|]. exists (es ++ es').
    rewrite He', He, app_assoc, forallb_app, Hs, Hs'. auto.
  - split; [exact Hb|]. exists es. auto.
Qed.

Lemma never_saves_input_error (m : M App unit) :
  never_saves m -> never_saves (input_error m).
Proof.
  intros Hm s. unfold input_error. destruct (Hm s) as (Hb & es & He & Hs).
  destruct (m s) as [[a|e] s']; simpl in *.
  - split; [exact Hb|]. exists es. auto.
  - split; [exact Hb|]. exists (es ++ [ShowError (report e)]).
    rewrite He, app_assoc, forallb_app, Hs. auto.
Qed.

End Silent.

Ltac silent_step :=
  first
    [ apply silent_bind; [| intros ?]
    | apply silent_ret | apply silent_raise | apply silent_lift
    | apply silent_get | apply silent_on_book
    | match goal with
      | |- silent (match ?x with _ => _ end) => destruct x
      end ].

Ltac saves_step :=
  first
    [ apply saves_then_reports_tail
    | apply saves_then_reports_bind; [repeat silent_step | intros ?]
    | match goal with
      | |- saves_then_reports (match ?x with _ => _ end) => destruct x
      end ].

Ltac never_saves_step :=
  first
    [ apply never_saves_bind; [| intros ?]
    | apply never_saves_ret | apply never_saves_raise | apply never_saves_lift
    | apply never_saves_get | apply never_saves_input_error
    | apply never_saves_emit; reflexivity
    | apply never_saves_on_book; intros ?; apply get_upcoming_birthdays_frame
    | match goal with
      | |- never_saves (match ?x with _ => _ end) => destruct x
      end ].

Lemma handle_add_saves (args : list string) :
  saves_then_reports (handle_add_body args).
Proof. unfold handle_add_body. repeat saves_step. Qed.

Lemma handle_change_saves (args : list string) :
  saves_then_reports (handle_change_body args).
Proof. unfold handle_change_body. repeat saves_step. Qed.

Lemma handle_remove_phone_saves (args : list string) :
  saves_then_reports (handle_remove_phone_body args).
Proof. unfold handle_remove_phone_body. repeat saves_step. Qed.

Lemma handle_delete_saves (args : list string) :
  saves_then_reports (handle_delete_body args).
Proof. unfold handle_delete_body. repeat saves_step. Qed.

Lemma handle_add_birthday_saves (args : list string) :
  saves_then_reports (handle_add_birthday_body args).
Proof. unfold handle_add_birthday_body. repeat saves_step. Qed.

Lemma handle_phone_never_saves (args : list string) :
  never_saves (handle_phone args).
Proof. unfold_handlers. repeat never_saves_step. Qed.

Lemma handle_all_never_saves : never_saves handle_all.
Proof. unfold_handlers. repeat never_saves_step. Qed.

Lemma handle_show_birthday_never_saves (args : list string) :
  never_saves (handle_show_birthday args).
Proof. unfold_handlers. repeat never_saves_step. Qed.

Lemma handle_birthdays_never_saves (today : Date.date) :
  never_saves (handle_birthdays today).
Proof. unfold_handlers. repeat never_saves_step. Qed.

Lemma handle_help_never_saves : never_saves handle_help.
Proof. unfold_handlers. repeat never_saves_step. Qed.

Lemma hello_never_saves : never_saves (show_message (Msg (Lit HowCanIHelp))).
Proof. unfold_handlers. repeat never_saves_step. Qed.

(* ================================================================== *)
(** * Claims about the store and the commands *)

(** The order of the events of one command: each of the commands add,
    change, remove-phone, delete and add-birthday returns to the loop and
    has either saved the whole store, as the command left it, and then shown
    its success message (these two events and no other), or shown one error
    and saved nothing; each of the commands phone, all, show-birthday,
    birthdays, help and hello leaves the store as it was and never saves. *)
Lemma persist_contract (today : Date.date) (cmd : string)
        (args : list string) (s : App) :
  (In cmd mutating_commands ->
     fst (execute today cmd args s) = Return tt
     /\ ((exists l, events (snd (execute today cmd args s))
                    = events s ++ [SaveData (book (snd (execute today cmd args s)));
                                   ShowMessage (Msg (Lit l))])
         \/ (exists t, events (snd (execute today cmd args s))
                       = events s ++ [ShowError t])))
  /\ (In cmd read_only_commands ->
        book (snd (execute today cmd args s)) = book s
        /\ exists es, events (snd (execute today cmd args s)) = events s ++ es
                      /\ forallb (fun e => negb (is_save e)) es = true).
Proof.
  split.
  - intros Hin. simpl in Hin.
    destruct Hin as [<- | [<- | [<- | [<- | [<- | []]]]]].
    + change (execute today "add" args) with (handle_add args).
      apply input_error_saves_then_reports, handle_add_saves.
    + change (execute today "change" args) with (handle_change args).
      apply input_error_saves_then_reports, handle_change_saves.
    + change (execute today "remove-phone" args) with (handle_remove_phone args).
      apply input_error_saves_then_reports, handle_remove_phone_saves.
    + change (execute today "delete" args) with (handle_delete args).
      apply input_error_saves_then_reports, handle_delete_saves.
    + change (execute today "add-birthday" args) with (handle_add_birthday args).
      apply input_error_saves_then_reports, handle_add_birthday_saves.
  - intros Hin. simpl in Hin.
    destruct Hin as [<- | [<- | [<- | [<- | [<- | [<- | []]]]]]].
    + change (execute today "phone" args) with (handle_phone args).
      apply handle_phone_never_saves.
    + change (execute today "all" args) with handle_all.
      apply handle_all_never_saves.
    + change (execute today "show-birthday" args) with (handle_show_birthday args).
      apply handle_show_birthday_never_saves.
    + change (execute today "birthdays" args) with (handle_birthdays today).
      apply handle_birthdays_never_saves.
    + change (execute today "help" args) with handle_help.
      apply handle_help_never_saves.
    + change (execute today "hello" args)
        with (show_message (Msg (Lit HowCanIHelp))).
      apply hello_never_saves.
Qed.

Lemma persist_contract_witness :
  let s := App_init empty_book in
  let today := mkdate 2024 1 1 in
  (fst (execute today "add" ["Ann"; "0123456789"] s) = Return tt
   /\ ((exists l, events (snd (execute today "add" ["Ann"; "0123456789"] s))
                  = events s
                    ++ [SaveData (book (snd (execute today "add" ["Ann"; "0123456789"] s)));
                        ShowMessage (Msg (Lit l))])
       \/ (exists t, events (snd (execute today "add" ["Ann"; "0123456789"] s))
                     = events s ++ [ShowError t])))
  /\ (book (snd (execute today "phone" ["Ann"] s)) = book s
      /\ exists es, events (snd (execute today "phone" ["Ann"] s)) = events s ++ es
                    /\ forallb (fun e => negb (is_save e)) es = true).
Proof.
  intros s today. split.
  - apply (proj1 (persist_contract today "add" ["Ann"; "0123456789"] s)).
    simpl. auto.
  - apply (proj2 (persist_contract today "phone" ["Ann"] s)).
    simpl. auto.
Defined.




(** C10: when [find] knows no record for the name and the phone string is
    rejected by [Phone_init], the command add returns to the loop with the
    store extended by the empty record of that name, which [find] now
    returns; the only event is the error report of the validation, so
    nothing is saved. *)
Theorem handle_add_invalid_phone_keeps_empty_record
        (n phone : string) (rest : list string) (s : App) :
  find n (book s) = None ->
  is_raise (Phone_init phone) = true ->
  fst (handle_add (n :: phone :: rest) s) = Return tt
  /\ book (snd (handle_add (n :: phone :: rest) s))
     = snd (add_record (Record_init n) (book s))
  /\ find n (book (snd (handle_add (n :: phone :: rest) s)))
     = Some (Record_init n)
  /\ events (snd (handle_add (n :: phone :: rest) s))
     = events s ++ [ShowError (Msg (Lit PhoneTenDigits))].
Proof.
  intros Hfind Hbad.
  destruct (Phone_init phone) as [p|e] eqn:Hp; [discriminate|].
  apply Phone_init_raise in Hp as He. subst e.
  assert (Hrun : handle_add (n :: phone :: rest) s
                 = (Return tt,
                    {| book := snd (add_record (Record_init n) (book s));
                       events := events s ++ [ShowError (Msg (Lit PhoneTenDigits))] |})).
  { unfold handle_add, input_error, handle_add_body, bind, lift, get, ret.
    simpl unpack2. cbv iota beta. rewrite Hfind.
    unfold on_book at 1. rewrite add_record_run. cbv iota beta. simpl book.
    unfold on_book, on_found, find. simpl data. simpl value.
    rewrite dict_get_set_same.
    rewrite (add_phone_invalid _ _ _ Hp). simpl.
    rewrite dict_set_set. reflexivity. }
  rewrite Hrun. simpl. repeat split.
  unfold find. simpl. apply dict_get_set_same.
Qed.

Lemma handle_add_invalid_phone_keeps_empty_record_witness :
  let s := App_init empty_book in
  let s' := snd (handle_add ["Bob"; "012345678x"] s) in
  book s' = {| data := [("bob", Record_init "Bob")] |}
  /\ find "Bob" (book s') = Some (Record_init "Bob")
  /\ events s' = [ShowError (Msg (Lit PhoneTenDigits))].
Proof.
  intros s s'.
  destruct (handle_add_invalid_phone_keeps_empty_record "Bob" "012345678x" [] s)
    as (_ & Hbook & Hfound & Hev); [reflexivity | reflexivity |].
  split; [exact Hbook|]. split; [exact Hfound | exact Hev].
Defined.

(* ================================================================== *)
(** * The calendar *)

Lemma is_leap_spec (y : Z) :
  is_leap y = true <-> (y mod 4 = 0 /\ (y mod 100 <> 0 \/ y mod 400 = 0)).
Proof.
  unfold is_leap.
  destruct (Z.eqb_spec (y mod 4) 0), (Z.eqb_spec (y mod 100) 0),
    (Z.eqb_spec (y mod 400) 0); simpl; split; intros; try lia; try discriminate; auto.
Qed.

Lemma days_before_year_succ (y : Z) :
  days_before_year (y + 1) = days_before_year y + year_length y.
Proof.
  unfold days_before_year, year_length.
  destruct (is_leap y) eqn:E.
  - apply is_leap_spec in E. Z.div_mod_to_equations; lia.
  - assert (H : ~ (y mod 4 = 0 /\ (y mod 100 <> 0 \/ y mod 400 = 0))).
    { rewrite <- is_leap_spec. congruence. }
    Z.div_mod_to_equations; lia.
Qed.

Lemma upto_In (n : nat) (k : Z) : 0 <= k < Z.of_nat n -> In k (upto n).
Proof.
  intros H. unfold upto. apply in_map_iff. exists (Z.to_nat k). split.
  - lia.
  - apply in_seq. lia.
Qed.

Lemma month_day_checked (leapyear : bool) (k : Z) :
  0 <= k < 365 -> month_day_ok leapyear k = true.
Proof.
  intros H.
  assert (Ht : forallb (month_day_ok true) (upto 365) = true)
    by (vm_compute; reflexivity).
  assert (Hf : forallb (month_day_ok false) (upto 365) = true)
    by (vm_compute; reflexivity).
  rewrite forallb_forall in Ht, Hf.
  destruct leapyear; [apply Ht | apply Hf]; apply (upto_In 365); lia.
Qed.

Lemma ord2ymd_unfold (n0 : Z) :
  ord2ymd n0 =
  let n := n0 - 1 in
  let a := n / DI400Y in
  let r := n mod DI400Y in
  let b := r / DI100Y in
  let r1 := r mod DI100Y in
  let c := r1 / DI4Y in
  let r2 := r1 mod DI4Y in
  let e := r2 / 365 in
  let k := r2 mod 365 in
  let y := a * 400 + 1 + b * 100 + c * 4 + e in
  if (e =? 4) || (b =? 4) then {| year := y - 1; month := 12; day := 31 |}
  else
    let (m, d) := month_day ((e =? 3) && (negb (c =? 24) || (b =? 3))) k in
    {| year := y; month := m; day := d |}.
Proof.
  unfold ord2ymd, month_day. cbv zeta.
  destruct (_ || _); [reflexivity|].
  destruct (_ <? _); reflexivity.
Qed.

Lemma ord2ymd_correct (n0 : Z) :
  1 <= n0 <= MAXORDINAL ->
  valid (year (ord2ymd n0)) (month (ord2ymd n0)) (day (ord2ymd n0)) = true
  /\ toordinal (ord2ymd n0) = n0.
Proof.
  intros Hn. rewrite ord2ymd_unfold. cbv zeta.
  unfold DI400Y, DI100Y, DI4Y, MAXORDINAL in *.
  pose proof (Z.div_mod (n0 - 1) 146097 ltac:(lia)) as E1.
  pose proof (Z.mod_pos_bound (n0 - 1) 146097 ltac:(lia)) as B1.
  set (a := (n0 - 1) / 146097) in *. set (r := (n0 - 1) mod 146097) in *.
  pose proof (Z.div_mod r 36524 ltac:(lia)) as E2.
  pose proof (Z.mod_pos_bound r 36524 ltac:(lia)) as B2.
  set (b := r / 36524) in *. set (r1 := r mod 36524) in *.
  pose proof (Z.div_mod r1 1461 ltac:(lia)) as E3.
  pose proof (Z.mod_pos_bound r1 1461 ltac:(lia)) as B3.
  set (c := r1 / 1461) in *. set (r2 := r1 mod 1461) in *.
  pose proof (Z.div_mod r2 365 ltac:(lia)) as E4.
  pose proof (Z.mod_pos_bound r2 365 ltac:(lia)) as B4.
  set (e := r2 / 365) in *. set (k := r2 mod 365) in *.
  clearbody a r b r1 c r2 e k.
  assert (Ha : 0 <= a <= 24) by lia.
  assert (Hb : 0 <= b <= 4) by lia.
  assert (Hc : 0 <= c <= 24) by lia.
  assert (He : 0 <= e <= 4) by lia.
  destruct ((e =? 4) || (b =? 4)) eqn:Hsp.
  - (* the last day of a leap year *)
    simpl year. simpl month. simpl day.
    assert (Hy : exists q, a * 400 + 1 + b * 100 + c * 4 + e - 1 = 4 * q
                           /\ (q mod 25 <> 0 \/ q mod 100 = 0) /\ k = 0
                           /\ 1 <= q <= 2499).
    { apply orb_prop in Hsp. destruct Hsp as [H|H]; apply Z.eqb_eq in H.
      - exists (100 * a + 25 * b + c + 1).
        assert (c <= 23) by lia. assert (k = 0) by lia.
        assert (b <= 3) by lia.
        assert (a <= 24) by lia.
        split; [lia|]. split; [left; Z.div_mod_to_equations; lia | ].
        split; [lia|]. split; [lia|].
        destruct (Z.eq_dec a 24); [subst a|lia].
        destruct (Z.eq_dec b 3); [subst b|lia]. lia.
      - exists (100 * a + 100).
        assert (r1 = 0) by lia. assert (c = 0) by lia. assert (e = 0) by lia.
        assert (k = 0) by lia. assert (a <= 23) by lia.
        split; [lia|]. split; [right; Z.div_mod_to_equations; lia | ].
        split; lia. }
    destruct Hy as (q & Hq & Hq' & Hk & Hqb). rewrite Hq.
    assert (Hleap : is_leap (4 * q) = true).
    { apply is_leap_spec. Z.div_mod_to_equations. lia. }
    remember (4 * q) as Y eqn:HY.
    unfold valid, toordinal, ymd2ord, days_in_month, days_before_month,
      days_before_year, MINYEAR, MAXYEAR.
    simpl year. simpl month. simpl day. rewrite Hleap. simpl.
    split.
    + repeat (apply andb_true_intro; split); try reflexivity; apply Z.leb_le; lia.
    + Z.div_mod_to_equations. lia.
  - apply orb_false_elim in Hsp. destruct Hsp as [He4 Hb4].
    apply Z.eqb_neq in He4, Hb4.
    set (y := a * 400 + 1 + b * 100 + c * 4 + e).
    set (L := (e =? 3) && (negb (c =? 24) || (b =? 3))).
    assert (HL : is_leap y = L).
    { unfold L, y. apply eq_true_iff_eq. rewrite is_leap_spec.
      rewrite andb_true_iff, orb_true_iff, negb_true_iff, Z.eqb_eq, Z.eqb_eq, Z.eqb_neq.
      Z.div_mod_to_equations. lia. }
    pose proof (month_day_checked L k ltac:(lia)) as Hok.
    unfold month_day_ok in Hok. destruct (month_day L k) as [m d].
    repeat (apply andb_prop in Hok; destruct Hok as [Hok ?]).
    simpl year. simpl month. simpl day.
    unfold valid, toordinal, ymd2ord, days_in_month, days_before_month,
      days_before_year, MINYEAR, MAXYEAR.
    simpl year. simpl month. simpl day. rewrite HL.
    split.
    + repeat (apply andb_true_intro; split); try assumption;
        apply Z.leb_le; unfold y; lia.
    + match goal with H : (_ =? k + 1) = true |- _ => apply Z.eqb_eq in H end.
      unfold y. Z.div_mod_to_equations. lia.
Qed.

Lemma valid_spec (y m d : Z) :
  valid y m d = true <->
  (1 <= y <= 9999 /\ 1 <= m <= 12 /\ 1 <= d <= days_in_month y m).
Proof.
  unfold valid, MINYEAR, MAXYEAR.
  rewrite !andb_true_iff, !Z.leb_le. tauto.
Qed.

Ltac month_cases m :=
  let H := fresh "Hm" in
  assert (H : m = 1 \/ m = 2 \/ m = 3 \/ m = 4 \/ m = 5 \/ m = 6 \/ m = 7
              \/ m = 8 \/ m = 9 \/ m = 10 \/ m = 11 \/ m = 12) by lia;
  repeat (destruct H as [H | H]); subst m.

Lemma days_before_year_le (y : Z) (n : nat) :
  days_before_year y <= days_before_year (y + Z.of_nat n).
Proof.
  induction n as [|n IH].
  - replace (y + Z.of_nat 0) with y by lia. lia.
  - replace (y + Z.of_nat (S n)) with (y + Z.of_nat n + 1) by lia.
    rewrite days_before_year_succ. unfold year_length.
    destruct (is_leap _); lia.
Qed.

Lemma days_before_year_mono (y1 y2 : Z) :
  y1 <= y2 -> days_before_year y1 <= days_before_year y2.
Proof.
  intros H. replace y2 with (y1 + Z.of_nat (Z.to_nat (y2 - y1))) by lia.
  apply days_before_year_le.
Qed.

(** The day of the year of a valid date. *)
Lemma day_of_year_bounds (y m d : Z) :
  1 <= m <= 12 -> 1 <= d <= days_in_month y m ->
  1 <= days_before_month y m + d <= year_length y.
Proof.
  intros Hm Hd. unfold days_before_month, days_in_month, year_length in *.
  destruct (is_leap y); month_cases m; cbn -[Z.add Z.sub] in *; lia.
Qed.

Lemma day_of_year_lt (y m1 d1 m2 d2 : Z) :
  1 <= m1 <= 12 -> 1 <= m2 <= 12 ->
  1 <= d1 <= days_in_month y m1 -> 1 <= d2 <= days_in_month y m2 ->
  m1 < m2 ->
  days_before_month y m1 + d1 < days_before_month y m2 + d2.
Proof.
  intros H1 H2 Hd1 Hd2 Hlt.
  unfold days_before_month, days_in_month in *.
  destruct (is_leap y); month_cases m1; month_cases m2; cbn -[Z.add Z.sub] in *; lia.
Qed.

Lemma ltb_spec (a b : date) :
  ltb a b = true <->
  (year a < year b
   \/ (year a = year b
       /\ (month a < month b \/ (month a = month b /\ day a < day b)))).
Proof.
  unfold ltb.
  rewrite !orb_true_iff, !andb_true_iff, !orb_true_iff, !andb_true_iff,
    !Z.ltb_lt, !Z.eqb_eq. tauto.
Qed.

Lemma eqb_spec (a b : date) : Date.eqb a b = true <-> a = b.
Proof.
  unfold Date.eqb. rewrite !andb_true_iff, !Z.eqb_eq.
  destruct a, b; simpl. split.
  - intros [[-> ->] ->]. reflexivity.
  - intros H. inversion H. auto.
Qed.

Lemma toordinal_lt (a b : date) :
  valid_date a -> valid_date b -> ltb a b = true -> toordinal a < toordinal b.
Proof.
  unfold valid_date. rewrite !valid_spec, ltb_spec.
  intros (Hya & Hma & Hda) (Hyb & Hmb & Hdb) Hlt.
  unfold toordinal, ymd2ord.
  destruct Hlt as [Hy | [Hy [Hm | [Hm Hd]]]].
  - pose proof (day_of_year_bounds _ _ _ Hma Hda).
    pose proof (day_of_year_bounds _ _ _ Hmb Hdb).
    pose proof (days_before_year_succ (year a)).
    pose proof (days_before_year_mono (year a + 1) (year b) ltac:(lia)).
    lia.
  - rewrite Hy in *.
    pose proof (day_of_year_lt _ _ _ _ _ Hma Hmb Hda Hdb Hm). lia.
  - rewrite Hy, Hm. lia.
Qed.

Lemma ltb_toordinal (a b : date) :
  valid_date a -> valid_date b -> ltb a b = (toordinal a <? toordinal b).
Proof.
  intros Ha Hb.
  destruct (ltb a b) eqn:E.
  - symmetry. apply Z.ltb_lt. apply toordinal_lt; assumption.
  - symmetry. apply Z.ltb_ge.
    destruct (ltb b a) eqn:E'.
    + apply toordinal_lt in E'; auto. lia.
    + assert (a = b).
      { assert (Hn1 : ~ (ltb a b = true)) by congruence.
        assert (Hn2 : ~ (ltb b a = true)) by congruence.
        rewrite ltb_spec in Hn1, Hn2.
        destruct a, b; simpl in *. f_equal; lia. }
      subst. lia.
Qed.

Lemma toordinal_inj (a b : date) :
  valid_date a -> valid_date b -> toordinal a = toordinal b -> a = b.
Proof.
  intros Ha Hb H.
  pose proof (ltb_toordinal a b Ha Hb) as H1.
  pose proof (ltb_toordinal b a Hb Ha) as H2.
  rewrite H, Z.ltb_irrefl in H1. rewrite H, Z.ltb_irrefl in H2.
  assert (Hn1 : ~ (ltb a b = true)) by congruence.
  assert (Hn2 : ~ (ltb b a = true)) by congruence.
  rewrite ltb_spec in Hn1, Hn2.
  destruct a, b; simpl in *. f_equal; lia.
Qed.

Lemma leb_toordinal (a b : date) :
  valid_date a -> valid_date b -> leb a b = (toordinal a <=? toordinal b).
Proof.
  intros Ha Hb. unfold leb. rewrite (ltb_toordinal a b Ha Hb).
  destruct (Date.eqb a b) eqn:E.
  - apply eqb_spec in E. subst. rewrite Z.ltb_irrefl. simpl.
    symmetry. apply Z.leb_le. lia.
  - rewrite orb_false_r.
    destruct (Z.ltb_spec (toordinal a) (toordinal b)) as [H|H].
    + symmetry. apply Z.leb_le. lia.
    + symmetry. apply Z.leb_gt.
      assert (toordinal a <> toordinal b).
      { intros Heq. apply toordinal_inj in Heq; auto. subst.
        assert (Date.eqb b b = true) by (apply eqb_spec; reflexivity). congruence. }
      lia.
Qed.

Ltac small_cases n lo hi :=
  let H := fresh "Hcase" in
  assert (H : In n (map (fun i => lo + Z.of_nat i) (seq 0 (Z.to_nat (hi - lo + 1)))))
    by (apply in_map_iff; exists (Z.to_nat (n - lo)); split;
        [lia | apply in_seq; lia]);
  cbv in H; repeat (destruct H as [H | H]; [symmetry in H; subst n|]);
  [.. | contradiction].

Lemma digit_char_decimal (k : Z) :
  0 <= k <= 9 ->
  Str.isdecimal (digit_char k) = true /\ digit_val (digit_char k) = k.
Proof.
  intros H. small_cases k 0 9; split; reflexivity.
Qed.

Lemma match_Y_pad4 (y : Z) :
  0 <= y <= 9999 -> match_Y (pad4 y) = Some (y, EmptyString).
Proof.
  intros Hy. unfold pad4, pad2, match_Y.
  assert (H3 : 0 <= y / 1000 mod 10 <= 9) by (Z.div_mod_to_equations; lia).
  assert (H2 : 0 <= y / 100 mod 10 <= 9) by (Z.div_mod_to_equations; lia).
  assert (H1 : 0 <= y / 10 mod 10 <= 9) by (Z.div_mod_to_equations; lia).
  assert (H0 : 0 <= y mod 10 <= 9) by (Z.div_mod_to_equations; lia).
  destruct (digit_char_decimal _ H3) as [-> ->].
  destruct (digit_char_decimal _ H2) as [-> ->].
  destruct (digit_char_decimal _ H1) as [-> ->].
  destruct (digit_char_decimal _ H0) as [-> ->].
  cbn [andb]. do 2 f_equal. Z.div_mod_to_equations. lia.
Qed.

Lemma alts_d_pad2 {B} (d : Z) (rest : string) (k : Z -> string -> option B) (v : B) :
  1 <= d <= 31 -> k d rest = Some v ->
  first_match (alts_d (pad2 d ++ rest)%string) k = Some v.
Proof.
  intros Hd Hk. small_cases d 1 31; cbn; rewrite Hk; reflexivity.
Qed.

Lemma alts_m_pad2 {B} (m : Z) (rest : string) (k : Z -> string -> option B) (v : B) :
  1 <= m <= 12 -> k m rest = Some v ->
  first_match (alts_m (pad2 m ++ rest)%string) k = Some v.
Proof.
  intros Hm Hk. small_cases m 1 12; cbn; rewrite Hk; reflexivity.
Qed.

Lemma days_in_month_le_31 (y m : Z) : days_in_month y m <= 31.
Proof.
  unfold days_in_month, DAYS_IN_MONTH.
  destruct ((m =? 2) && is_leap y); [lia|].
  destruct m as [|p|p]; try lia.
  do 4 (destruct p as [p|p|]; try lia).
Qed.

Lemma make_valid (y m d : Z) :
  valid y m d = true -> make y m d = Return {| year := y; month := m; day := d |}.
Proof.
  unfold valid, make. intros H.
  repeat (apply andb_prop in H; destruct H as [H ?]).
  repeat match goal with H : _ = true |- _ => rewrite H; clear H end.
  reflexivity.
Qed.

Lemma make_return (y m d : Z) (dt : date) :
  make y m d = Return dt -> valid_date dt /\ dt = {| year := y; month := m; day := d |}.
Proof.
  unfold make, valid_date, valid.
  destruct ((MINYEAR <=? y) && (y <=? MAXYEAR)) eqn:E1; simpl; [|discriminate].
  destruct ((1 <=? m) && (m <=? 12) && (1 <=? d) && (d <=? days_in_month y m)) eqn:E2;
    simpl; [|discriminate].
  intros H. inversion H. subst. simpl. split; [|reflexivity].
  repeat (apply andb_prop in E2; destruct E2 as [E2 ?]).
  repeat match goal with H : _ = true |- _ => rewrite H; clear H end.
  reflexivity.
Qed.

Lemma year_text_pad4 (y : Z) : 1000 <= y -> year_text y = pad4 y.
Proof.
  intros Hy. unfold year_text.
  destruct (Z.ltb_spec y 10); [lia|].
  destruct (Z.ltb_spec y 100); [lia|].
  destruct (Z.ltb_spec y 1000); [lia|]. reflexivity.
Qed.

(** Formatting a valid date of a year from 1000 on and parsing the text
    gives the date back. *)
Lemma strptime_strftime (d : date) :
  valid_date d -> 1000 <= year d -> strptime (strftime d) = Return d.
Proof.
  intros Hv Hy4. pose proof Hv as Hv'. unfold valid_date in Hv'.
  apply valid_spec in Hv'. destruct Hv' as (Hy & Hm & Hd).
  pose proof (days_in_month_le_31 (year d) (month d)).
  unfold strptime, strftime, match_dmY. rewrite (year_text_pad4 _ Hy4).
  erewrite alts_d_pad2; [| lia |].
  2:{ cbn [append match_dot is_char]. change (is_char 46 "."%char) with true.
      cbv iota.
      erewrite alts_m_pad2; [reflexivity | lia |].
      cbn [append match_dot is_char]. change (is_char 46 "."%char) with true.
      cbv iota. rewrite match_Y_pad4 by lia. reflexivity. }
  cbv iota beta. rewrite make_valid by exact Hv. destruct d; reflexivity.
Qed.

(** A date that [strptime] returns is valid. *)
Lemma strptime_valid (s : string) (d : date) :
  strptime s = Return d -> valid_date d.
Proof.
  unfold strptime.
  destruct (match_dmY s) as [[[[dd m] y] rest]|]; [|discriminate].
  destruct rest; [|discriminate].
  intros H. apply make_return in H. tauto.
Qed.

Lemma toordinal_bounds (d : date) :
  valid_date d ->
  days_before_year (year d) < toordinal d <= days_before_year (year d + 1).
Proof.
  unfold valid_date. rewrite valid_spec. intros (Hy & Hm & Hd).
  pose proof (day_of_year_bounds _ _ _ Hm Hd).
  rewrite days_before_year_succ. unfold toordinal, ymd2ord. lia.
Qed.

Lemma toordinal_range (d : date) :
  valid_date d -> 1 <= toordinal d <= MAXORDINAL.
Proof.
  intros Hv. pose proof (toordinal_bounds d Hv) as Hb.
  unfold valid_date in Hv. apply valid_spec in Hv. destruct Hv as (Hy & _).
  pose proof (days_before_year_mono 1 (year d) ltac:(lia)) as H1.
  pose proof (days_before_year_mono (year d + 1) 10000 ltac:(lia)) as H2.
  change (days_before_year 1) with 0 in H1.
  change (days_before_year 10000) with 3652059 in H2.
  unfold MAXORDINAL. lia.
Qed.

Lemma toordinal_before_last_year (d : date) :
  valid_date d -> year d <= 9998 -> toordinal d + 2 <= MAXORDINAL.
Proof.
  intros Hv Hy. pose proof (toordinal_bounds d Hv) as Hb.
  pose proof (days_before_year_mono (year d + 1) 9999 ltac:(lia)) as H2.
  change (days_before_year 9999) with 3651694 in H2.
  unfold MAXORDINAL. lia.
Qed.

Lemma add_days_in_range (d : date) (n : Z) :
  1 <= toordinal d + n <= MAXORDINAL ->
  add_days d n = Return (fromordinal (toordinal d + n))
  /\ valid_date (fromordinal (toordinal d + n))
  /\ toordinal (fromordinal (toordinal d + n)) = toordinal d + n.
Proof.
  intros H. unfold add_days.
  destruct (Z.ltb_spec 0 (toordinal d + n)); [|lia].
  destruct (Z.leb_spec (toordinal d + n) MAXORDINAL); [|lia].
  simpl. split; [reflexivity|]. apply ord2ymd_correct. exact H.
Qed.

Lemma days_in_month_any_year (y y' m d : Z) :
  1 <= m <= 12 -> 1 <= d <= days_in_month y m -> ~ (m = 2 /\ d = 29) ->
  1 <= d <= days_in_month y' m.
Proof.
  intros Hm Hd Hn. unfold days_in_month in *.
  destruct (is_leap y), (is_leap y'); month_cases m;
    cbn -[Z.add Z.sub] in *; lia.
Qed.

Lemma replace_year_valid (d : date) (y : Z) :
  valid_date d -> not_leap_day d -> 1 <= y <= 9999 ->
  replace_year d y = Return (mkdate y (month d) (day d))
  /\ valid_date (mkdate y (month d) (day d)).
Proof.
  unfold valid_date, not_leap_day. rewrite valid_spec.
  intros (Hy & Hm & Hd) Hn Hy'.
  assert (Hv : valid y (month d) (day d) = true).
  { apply valid_spec. repeat split; try lia;
      apply (days_in_month_any_year (year d) y); auto. }
  unfold replace_year. rewrite (make_valid _ _ _ Hv). auto.
Qed.

Lemma spec_project_valid (today bday : date) :
  valid_date today -> year today <= 9997 -> valid_date bday -> not_leap_day bday ->
  valid_date (spec_project today bday) /\ year (spec_project today bday) <= 9998.
Proof.
  intros Ht Hy Hb Hn.
  assert (H1 : 1 <= year today <= 9999).
  { unfold valid_date in Ht. apply valid_spec in Ht. lia. }
  unfold spec_project. cbv zeta.
  destruct (_ <? _).
  - split; [apply (replace_year_valid bday); auto; lia | simpl; lia].
  - split; [apply (replace_year_valid bday); auto; lia | simpl; lia].
Qed.

Lemma shift_refines (p : date) :
  valid_date p -> year p <= 9998 ->
  _shift_if_weekend p = Return (spec_shift p) /\ valid_date (spec_shift p).
Proof.
  intros Hv Hy. unfold _shift_if_weekend, spec_shift.
  pose proof (toordinal_range p Hv). pose proof (toordinal_before_last_year p Hv Hy).
  destruct (weekday p =? 5).
  - destruct (add_days_in_range p 2 ltac:(lia)) as (-> & Hv' & _). auto.
  - destruct (weekday p =? 6).
    + destruct (add_days_in_range p 1 ltac:(lia)) as (-> & Hv' & _). auto.
    + auto.
Qed.

(** A later day is not in an earlier year. *)
Lemma year_le_of_toordinal (a b : date) :
  valid_date a -> valid_date b -> toordinal a <= toordinal b -> year a <= year b.
Proof.
  intros Ha Hb Hab.
  pose proof (toordinal_bounds a Ha). pose proof (toordinal_bounds b Hb).
  destruct (Z_le_gt_dec (year a) (year b)) as [Hle|Hgt]; [exact Hle|].
  pose proof (days_before_year_mono (year b + 1) (year a) ltac:(lia)). lia.
Qed.

(** The shift does not move a date to an earlier year. *)
Lemma spec_shift_year (p : date) :
  valid_date p -> year p <= 9998 -> year p <= year (spec_shift p).
Proof.
  intros Hv Hy. unfold spec_shift.
  pose proof (toordinal_range p Hv). pose proof (toordinal_before_last_year p Hv Hy).
  destruct (weekday p =? 5).
  - destruct (add_days_in_range p 2 ltac:(lia)) as (_ & Hv' & Ho).
    apply year_le_of_toordinal; auto; lia.
  - destruct (weekday p =? 6).
    + destruct (add_days_in_range p 1 ltac:(lia)) as (_ & Hv' & Ho).
      apply year_le_of_toordinal; auto; lia.
    + lia.
Qed.

Lemma spec_project_year (today bday : date) :
  year today <= year (spec_project today bday).
Proof.
  unfold spec_project. cbv zeta. destruct (_ <? _); simpl; lia.
Qed.

(** The body of the loop computes the entry of the specification. *)
Lemma upcoming_entry_refines (today end_date : date) (windowDays : Z)
      (rec : ContactRecord) :
  valid_date today -> 1000 <= year today <= 9997 ->
  valid_date end_date -> toordinal end_date = toordinal today + (windowDays - 1) ->
  (forall bd, birthday rec = Some bd ->
     exists d, strptime (value bd) = Return d /\ not_leap_day d) ->
  upcoming_entry today end_date rec
  = Return (match spec_entry today windowDays rec with
            | [] => None
            | e :: _ => Some (snd e)
            end)
  /\ Forall well_formed_entry (spec_entry today windowDays rec).
Proof.
  intros Ht [Hy4 Hy] He Hend Hrec.
  unfold upcoming_entry, spec_entry, birthday_date.
  destruct (birthday rec) as [bd|]; [|split; [reflexivity | constructor]].
  destruct (Hrec bd eq_refl) as (bday & Hparse & Hn).
  rewrite Hparse. unfold bind_result at 1.
  pose proof (strptime_valid _ _ Hparse) as Hb.
  assert (H1 : 1 <= year today <= 9999).
  { unfold valid_date in Ht. apply valid_spec in Ht. lia. }
  destruct (replace_year_valid bday (year today) Hb Hn ltac:(lia)) as [Hr0 Hv0].
  rewrite Hr0. unfold bind_result at 1.
  rewrite (ltb_toordinal _ _ Hv0 Ht).
  destruct (spec_project_valid today bday Ht Hy Hb Hn) as [Hvp Hyp].
  assert (Hproj :
            (if toordinal (mkdate (year today) (month bday) (day bday)) <? toordinal today
             then replace_year (mkdate (year today) (month bday) (day bday)) (year today + 1)
             else Return (mkdate (year today) (month bday) (day bday)))
            = Return (spec_project today bday)).
  { unfold spec_project. cbv zeta. destruct (_ <? _); [|reflexivity].
    unfold replace_year. simpl month. simpl day.
    apply (replace_year_valid bday (year today + 1) Hb Hn). lia. }
  rewrite Hproj. unfold bind_result at 1.
  destruct (shift_refines _ Hvp Hyp) as [Hs Hvs]. rewrite Hs.
  unfold bind_result.
  rewrite (leb_toordinal _ _ Ht Hvs), (leb_toordinal _ _ Hvs He), Hend.
  fold (spec_in_window today windowDays (spec_shift (spec_project today bday))).
  pose proof (spec_shift_year _ Hvp Hyp) as Hys.
  pose proof (spec_project_year today bday) as Hyp'.
  destruct (spec_in_window _ _ _).
  - split; [reflexivity|].
    constructor; [unfold well_formed_entry; simpl; repeat split; auto; lia
                 | constructor].
  - split; [reflexivity | constructor].
Qed.

Lemma upcoming_loop_refines (today end_date : date) (windowDays : Z)
      (recs : list ContactRecord) :
  valid_date today -> 1000 <= year today <= 9997 ->
  valid_date end_date -> toordinal end_date = toordinal today + (windowDays - 1) ->
  (forall rec bd, In rec recs -> birthday rec = Some bd ->
     exists d, strptime (value bd) = Return d /\ not_leap_day d) ->
  upcoming_loop today end_date recs
  = Return (map snd (flat_map (spec_entry today windowDays) recs))
  /\ Forall well_formed_entry (flat_map (spec_entry today windowDays) recs).
Proof.
  intros Ht Hy He Hend. induction recs as [|rec recs IH]; intros Hrecs.
  - split; [reflexivity | constructor].
  - destruct (upcoming_entry_refines today end_date windowDays rec Ht Hy He Hend)
      as [Hentry Hwf].
    { intros bd. apply Hrecs. left. reflexivity. }
    destruct IH as [Hloop Hwfs].
    { intros r bd Hin. apply Hrecs. right. exact Hin. }
    simpl. rewrite Hentry, Hloop. unfold bind_result.
    split.
    + rewrite map_app. unfold spec_entry in *.
      destruct (birthday_date rec); [|reflexivity].
      destruct (spec_in_window _ _ _); reflexivity.
    + apply Forall_app. split; assumption.
Qed.

Lemma keyed_entries (l : list (date * item)) :
  Forall well_formed_entry l ->
  keyed (fun x => strptime (item_date x)) (map snd l) = Return l.
Proof.
  induction 1 as [|[g it] l (Hv & Hy & Hd) _ IH]; [reflexivity|].
  simpl in *. rewrite Hd, (strptime_strftime g Hv Hy). unfold bind_result at 1.
  rewrite IH. reflexivity.
Qed.

Section SortStable.
Context {K A : Type}.
Variables (f g : K -> K -> bool) (P : K -> Prop).
Hypothesis agree : forall a b, P a -> P b -> f a b = g a b.

Lemma insert_stable_ext (x : K * A) (l : list (K * A)) :
  P (fst x) -> Forall (fun e => P (fst e)) l ->
  insert_stable f x l = insert_stable g x l.
Proof.
  intros Hx. induction 1 as [|y l Hy _ IH]; [reflexivity|].
  simpl. rewrite (agree _ _ Hy Hx), IH. reflexivity.
Qed.

Lemma insert_stable_Forall (Q : K * A -> Prop) (x : K * A) (l : list (K * A)) :
  Q x -> Forall Q l -> Forall Q (insert_stable g x l).
Proof.
  intros Hx. induction 1 as [|y l Hy Hl IH]; simpl.
  - constructor; [exact Hx | constructor].
  - destruct (g (fst y) (fst x)); constructor; auto.
Qed.

Lemma sort_stable_Forall (Q : K * A -> Prop) (l : list (K * A)) :
  Forall Q l -> Forall Q (sort_stable g l).
Proof.
  induction 1 as [|x l Hx _ IH]; simpl; [constructor|].
  apply insert_stable_Forall; assumption.
Qed.

Lemma sort_stable_ext (l : list (K * A)) :
  Forall (fun e => P (fst e)) l -> sort_stable f l = sort_stable g l.
Proof.
  induction 1 as [|x l Hx Hl IH]; [reflexivity|].
  simpl. rewrite IH. apply insert_stable_ext; [exact Hx|].
  apply sort_stable_Forall. exact Hl.
Qed.

Lemma insert_stable_perm (x : K * A) (l : list (K * A)) :
  Permutation (insert_stable g x l) (x :: l).
Proof.
  induction l as [|y l IH]; simpl; [reflexivity|].
  destruct (g (fst y) (fst x)); [|reflexivity].
  rewrite IH. apply perm_swap.
Qed.

Lemma sort_stable_perm (l : list (K * A)) : Permutation (sort_stable g l) l.
Proof.
  induction l as [|x l IH]; simpl; [reflexivity|].
  rewrite insert_stable_perm. constructor. exact IH.
Qed.

End SortStable.

Lemma insert_stable_sorted (x : date * item) (l : list (date * item)) :
  StronglySorted not_after l -> StronglySorted not_after (insert_stable before x l).
Proof.
  induction 1 as [|y l Hl IH Hy]; simpl.
  - constructor; constructor.
  - unfold before at 1. destruct (Z.ltb_spec (toordinal (fst y)) (toordinal (fst x))).
    + constructor; [exact IH|].
      eapply Permutation_Forall.
      * symmetry. apply insert_stable_perm.
      * constructor; [unfold not_after; lia | exact Hy].
    + constructor; [constructor; assumption|].
      constructor; [exact H|].
      eapply Forall_impl; [|exact Hy]. unfold not_after. intros; lia.
Qed.

Lemma sort_stable_sorted (l : list (date * item)) :
  StronglySorted not_after (sort_stable before l).
Proof.
  induction l as [|x l IH]; simpl; [constructor|].
  apply insert_stable_sorted. exact IH.
Qed.

(** The query computes the result of the specification. *)
Theorem get_upcoming_birthdays_refines (today : date) (windowDays : Z)
        (b : AddressBook) :
  valid_date today -> 1000 <= year today <= 9997 ->
  1 <= windowDays -> toordinal today + (windowDays - 1) <= MAXORDINAL ->
  birthdays_projectable b ->
  get_upcoming_birthdays today windowDays b
  = (Return (spec_upcoming today windowDays (dict_values (data b))), b).
Proof.
  intros Ht Hy Hw Hmax Hb.
  pose proof (toordinal_range today Ht) as Hr.
  destruct (add_days_in_range today (windowDays - 1) ltac:(lia))
    as (Hend & Hve & Hoe).
  destruct (upcoming_loop_refines today _ windowDays (dict_values (data b))
              Ht Hy Hve Hoe Hb) as [Hloop Hwf].
  unfold get_upcoming_birthdays, bind, lift, get.
  rewrite Hend. cbv beta iota. rewrite Hloop. cbv beta iota.
  unfold sort_by_key.
  rewrite (keyed_entries _ Hwf). unfold bind_result, spec_upcoming.
  rewrite (sort_stable_ext ltb before valid_date).
  - reflexivity.
  - intros x y Hx Hy'. apply ltb_toordinal; assumption.
  - eapply Forall_impl; [|exact Hwf]. intros e [H _]. exact H.
Qed.

(** The hypotheses of [get_upcoming_birthdays_refines] hold for the store
    with the birthdays 03.01.1990 and 06.01.1990 on 01.01.2024. *)
Lemma get_upcoming_birthdays_refines_january :
  get_upcoming_birthdays (mkdate 2024 1 1) 7 january_book
  = (Return (spec_upcoming (mkdate 2024 1 1) 7 (dict_values (data january_book))),
     january_book)
  /\ spec_upcoming (mkdate 2024 1 1) 7 (dict_values (data january_book))
     = [{| item_name := "Ann"; item_date := "03.01.2024" |}].
Proof.
  split; [|vm_compute; reflexivity].
  apply get_upcoming_birthdays_refines.
  - reflexivity.
  - simpl. lia.
  - lia.
  - vm_compute. discriminate.
  - intros rec bd [<- | [<- | []]] Hbd; inversion Hbd; subst; simpl.
    + exists (mkdate 1990 1 3). split; [reflexivity|].
      unfold not_leap_day. simpl. lia.
    + exists (mkdate 1990 1 6). split; [reflexivity|].
      unfold not_leap_day. simpl. lia.
Defined.

(** The shifted date is never a Saturday or a Sunday. *)
Lemma spec_shift_weekday (p : date) :
  valid_date p -> year p <= 9998 -> 0 <= weekday (spec_shift p) <= 4.
Proof.
  intros Hv Hy. unfold spec_shift.
  pose proof (toordinal_range p Hv). pose proof (toordinal_before_last_year p Hv Hy).
  destruct (Z.eqb_spec (weekday p) 5) as [E5|E5].
  - destruct (add_days_in_range p 2 ltac:(lia)) as (_ & _ & Ho).
    unfold weekday in *. rewrite Ho. Z.div_mod_to_equations. lia.
  - destruct (Z.eqb_spec (weekday p) 6) as [E6|E6].
    + destruct (add_days_in_range p 1 ltac:(lia)) as (_ & _ & Ho).
      unfold weekday in *. rewrite Ho. Z.div_mod_to_equations. lia.
    + unfold weekday in *. Z.div_mod_to_equations. lia.
Qed.

(** The value a [Birthday] stores is the text of the valid date that was
    parsed; it parses back to that date when the year has four digits. *)
Lemma Birthday_init_value (s : string) (b : Birthday) :
  Birthday_init s = Return b ->
  exists d, valid_date d /\ strptime (Str.strip s) = Return d
            /\ value b = strftime d
            /\ (1000 <= year d -> strptime (value b) = Return d).
Proof.
  unfold Birthday_init.
  destruct (strptime (Str.strip s)) as [d|e] eqn:E.
  - intros H. inversion H. subst. simpl. exists d.
    pose proof (strptime_valid _ _ E) as Hv.
    split; [exact Hv|]. split; [reflexivity|]. split; [reflexivity|].
    apply strptime_strftime. exact Hv.
  - destruct e; discriminate.
Qed.

(** The result of the specification is sorted by greeting date, and holds
    exactly the entries of the records whose greeting date is in the
    window. *)
Lemma spec_upcoming_sorted (today : date) (windowDays : Z) (recs : list ContactRecord) :
  exists entries,
    spec_upcoming today windowDays recs = map snd entries
    /\ StronglySorted not_after entries
    /\ Permutation entries (flat_map (spec_entry today windowDays) recs).
Proof.
  exists (sort_stable before (flat_map (spec_entry today windowDays) recs)).
  split; [reflexivity|]. split; [apply sort_stable_sorted | apply sort_stable_perm].
Qed.

Lemma spec_entry_In (today : date) (windowDays : Z) (recs : list ContactRecord)
      (e : date * item) :
  In e (flat_map (spec_entry today windowDays) recs) <->
  exists rec bday,
    In rec recs /\ birthday_date rec = Some bday
    /\ fst e = spec_shift (spec_project today bday)
    /\ toordinal today <= toordinal (fst e) <= toordinal today + (windowDays - 1)
    /\ snd e = {| item_name := value (name rec); item_date := strftime (fst e) |}.
Proof.
  rewrite in_flat_map. split.
  - intros (rec & Hin & He). exists rec. unfold spec_entry in He.
    destruct (birthday_date rec) as [bday|]; [|contradiction].
    exists bday. cbv zeta in He.
    destruct (spec_in_window _ _ _) eqn:Hw; [|contradiction].
    destruct He as [<- | []]. simpl.
    unfold spec_in_window in Hw. apply andb_prop in Hw. destruct Hw as [H1 H2].
    apply Z.leb_le in H1, H2. repeat split; auto.
  - intros (rec & bday & Hin & Hb & Hfst & Hwin & Hsnd). exists rec.
    split; [exact Hin|]. unfold spec_entry. rewrite Hb. cbv zeta.
    rewrite <- Hfst.
    assert (Hw : spec_in_window today windowDays (fst e) = true).
    { unfold spec_in_window. apply andb_true_intro. split; apply Z.leb_le; lia. }
    rewrite Hw. left. destruct e as [g it]. simpl in *. subst. reflexivity.
Qed.

(* ================================================================== *)
(** * Claims about the upcoming birthdays and the command loop *)

Lemma january_book_reached :
  book (snd (run (map (pair (mkdate 2024 1 1))
                      ["add Ann 0123456789"; "add-birthday Ann 03.01.1990";
                       "add Bob 0987654321"; "add-birthday Bob 06.01.1990";
                       "exit"])
                 (App_init empty_book)))
  = january_book.
Proof. vm_compute. reflexivity. Qed.

Lemma leap_day_book_reached :
  book (snd (run (map (pair (mkdate 2024 3 1))
                      ["add Ann 0123456789"; "add-birthday Ann 29.02.2024";
                       "exit"])
                 (App_init empty_book)))
  = leap_day_book.
Proof. vm_compute. reflexivity. Qed.

(** C1 (fails on 29 February): for a store that holds a birthday on
    29.02.2024, a date the command add-birthday accepts, and a today in a
    year that is not a leap year, [get_upcoming_birthdays] raises the
    ValueError of [replace] and returns no list; it does so too in a leap
    year once 29 February has passed.  For the stores without a birthday
    on 29 February the query is the one the claim describes
    ([get_upcoming_birthdays_refines], [spec_upcoming_sorted],
    [spec_entry_In]), and it never changes the store
    ([get_upcoming_birthdays_frame]). *)
Theorem get_upcoming_birthdays_leap_day_raises :
  Birthday_init "29.02.2024" = Return {| value := "29.02.2024" |}
  /\ get_upcoming_birthdays (mkdate 2025 2 25) 7 leap_day_book
     = (Raise (ValueError (Builtin DayOutOfRange)), leap_day_book)
  /\ get_upcoming_birthdays (mkdate 2024 3 1) 7 leap_day_book
     = (Raise (ValueError (Builtin DayOutOfRange)), leap_day_book).
Proof. vm_compute. repeat split. Qed.

(** C2, as the claim states it, fails: with today = 01.01.2024 and a
    window of 7 days the result holds no entry for the birthday
    06.01.1990. *)
Lemma saturday_birthday_outside_7_day_window :
  ~ (exists items,
        fst (get_upcoming_birthdays (mkdate 2024 1 1) 7 january_book) = Return items
        /\ In {| item_name := "Ann"; item_date := "03.01.2024" |} items
        /\ In {| item_name := "Bob"; item_date := "08.01.2024" |} items).
Proof.
  intros (items & Hrun & _ & Hbob).
  vm_compute in Hrun. inversion Hrun; subst.
  destruct Hbob as [H | []]. discriminate.
Qed.

(** C2, amended: with today = 01.01.2024 the birthday 03.01.1990 is
    greeted on 03.01.2024, a Wednesday, and is in the window of 7 days; the
    birthday 06.01.1990 falls on Saturday 06.01.2024 and is shifted to
    Monday 08.01.2024, which lies after the last day 07.01.2024 of the
    window of 7 days, so the result for 7 days holds the first birthday
    only; with a window of 8 days both are reported, in this order. *)
Theorem upcoming_birthdays_example :
  Date.weekday (mkdate 2024 1 3) = 2
  /\ Date.weekday (mkdate 2024 1 6) = 5
  /\ _shift_if_weekend (mkdate 2024 1 6) = Return (mkdate 2024 1 8)
  /\ Date.weekday (mkdate 2024 1 8) = 0
  /\ Date.add_days (mkdate 2024 1 1) (7 - 1) = Return (mkdate 2024 1 7)
  /\ get_upcoming_birthdays (mkdate 2024 1 1) 7 january_book
     = (Return [{| item_name := "Ann"; item_date := "03.01.2024" |}],
        january_book)
  /\ get_upcoming_birthdays (mkdate 2024 1 1) 8 january_book
     = (Return [{| item_name := "Ann"; item_date := "03.01.2024" |};
                {| item_name := "Bob"; item_date := "08.01.2024" |}],
        january_book).
Proof. vm_compute. repeat split. Qed.

(** [input_error] lets no exception through: the wrapped handler returns,
    and when its body raised, one error has been shown after whatever the
    body did. *)
Lemma input_error_catches (m : M App unit) (s : App) :
  fst (input_error m s) = Return tt
  /\ (forall e, fst (m s) = Raise e ->
        input_error m s
        = (Return tt, {| book := book (snd (m s));
                         events := events (snd (m s)) ++ [ShowError (report e)] |})).
Proof.
  unfold input_error. destruct (m s) as [[[]|e] s']; simpl.
  - split; [reflexivity | discriminate].
  - split; [reflexivity|]. intros e' H. inversion H. reflexivity.
Qed.

(** Every command but birthdays returns to the loop after exactly one
    call to the view, preceded by one save of the store when the command
    changed it. *)
Lemma execute_reports_once (today : date) (cmd : string) (args : list string)
      (s : App) :
  cmd <> "birthdays" ->
  fst (execute today cmd args s) = Return tt
  /\ exists e,
       is_save e = false
       /\ (events (snd (execute today cmd args s)) = events s ++ [e]
           \/ events (snd (execute today cmd args s))
              = events s ++ [SaveData (book (snd (execute today cmd args s))); e]).
Proof.
  intros Hcmd.
  assert (Hsave : forall m, saves_then_reports m ->
            fst (input_error m s) = Return tt
            /\ exists e,
                 is_save e = false
                 /\ (events (snd (input_error m s)) = events s ++ [e]
                     \/ events (snd (input_error m s))
                        = events s ++ [SaveData (book (snd (input_error m s))); e])).
  { intros m Hm.
    destruct (input_error_saves_then_reports m s Hm) as [Hr [[l Hl] | [t Ht]]].
    - split; [exact Hr|]. exists (ShowMessage (Msg (Lit l))). auto.
    - split; [exact Hr|]. exists (ShowError t). auto. }
  assert (Hemit : forall e, is_save e = false ->
            fst (emit e s) = Return tt
            /\ exists e',
                 is_save e' = false
                 /\ (events (snd (emit e s)) = events s ++ [e']
                     \/ events (snd (emit e s))
                        = events s ++ [SaveData (book (snd (emit e s))); e'])).
  { intros e He. split; [reflexivity|]. exists e. auto. }
  unfold execute.
  repeat match goal with
         | |- context [if String.eqb cmd ?v then _ else _] =>
             destruct (String.eqb_spec cmd v)
         end; try contradiction.
  - apply Hemit. reflexivity.
  - apply Hemit. reflexivity.
  - apply Hsave, handle_add_saves.
  - apply Hsave, handle_change_saves.
  - apply Hsave, handle_remove_phone_saves.
  - apply Hsave, handle_delete_saves.
  - unfold handle_phone, input_error, handle_phone_body, bind, lift, get.
    destruct args as [|a rest]; simpl.
    + split; [reflexivity|]. eexists. split; [|left; reflexivity]. reflexivity.
    + destruct (find a (book s)); simpl;
        (split; [reflexivity|]; eexists; split; [|left; reflexivity]; reflexivity).
  - unfold handle_all, bind, get. apply Hemit. reflexivity.
  - apply Hsave, handle_add_birthday_saves.
  - unfold handle_show_birthday, input_error, handle_show_birthday_body, bind,
      lift, get.
    destruct args as [|a rest]; simpl.
    + split; [reflexivity|]. eexists. split; [|left; reflexivity]. reflexivity.
    + destruct (find a (book s)) as [rec|]; simpl.
      * destruct (birthday rec); simpl;
          (split; [reflexivity|]; eexists; split; [|left; reflexivity]; reflexivity).
      * split; [reflexivity|]. eexists. split; [|left; reflexivity]. reflexivity.
  - apply Hemit. reflexivity.
Qed.

(** The command birthdays returns too, and shows the result of the
    specification, when no birthday of the store is on 29 February (and
    the year of today has four digits). *)
Lemma handle_birthdays_returns (today : date) (s : App) :
  valid_date today -> 1000 <= year today <= 9997 ->
  birthdays_projectable (book s) ->
  handle_birthdays today s
  = (Return tt,
     {| book := book s;
        events := events s
                  ++ [ShowBirthdays (spec_upcoming today 7 (dict_values (data (book s))))] |}).
Proof.
  intros Ht Hy Hb.
  pose proof (toordinal_before_last_year today Ht ltac:(lia)) as Hmax.
  pose proof (toordinal_bounds today Ht) as Hbd.
  pose proof (days_before_year_mono (year today + 1) 9998 ltac:(lia)) as Hmono.
  change (days_before_year 9998) with 3651329 in Hmono.
  unfold handle_birthdays, bind, on_book.
  rewrite (get_upcoming_birthdays_refines today 7 (book s) Ht Hy); auto.
  - lia.
  - unfold MAXORDINAL in *. lia.
Qed.

(** After a line that parses to a command other than exit, close and
    birthdays, the loop goes on with the next line, whatever the command
    did. *)
Lemma loop_continues (today : date) (line cmd : string) (args : list string)
      (rest : list (date * string)) (s : App) :
  parse_input line = Return (cmd, args) ->
  Shlex.nonempty cmd = true ->
  cmd <> "exit" -> cmd <> "close" -> cmd <> "birthdays" ->
  loop ((today, line) :: rest) s = loop rest (snd (execute today cmd args s)).
Proof.
  intros Hparse Hne Hexit Hclose Hb.
  simpl. unfold bind at 1. unfold lift at 1. rewrite Hparse. rewrite Hne. simpl.
  apply String.eqb_neq in Hexit, Hclose. rewrite Hexit, Hclose. simpl.
  unfold bind.
  destruct (execute_reports_once today cmd args s Hb) as [Hr _].
  destruct (execute today cmd args s) as [r s']. simpl in *. subst. reflexivity.
Qed.

(** The loop ends without an exception at the first line whose verb is
    exit or close, with the goodbye as its last action. *)
Lemma loop_exits (today : date) (line cmd : string) (args : list string)
      (rest : list (date * string)) (s : App) :
  parse_input line = Return (cmd, args) ->
  cmd = "exit" \/ cmd = "close" ->
  loop ((today, line) :: rest) s
  = (Return tt, {| book := book s; events := events s ++ [ShowGoodbye] |}).
Proof.
  intros Hparse Hcmd.
  simpl. unfold bind at 1. unfold lift at 1. rewrite Hparse.
  destruct Hcmd; subst; reflexivity.
Qed.

(** C3 (fails for the command birthdays): in the session of 1 March 2025
    the third line, "birthdays", raises a ValueError that no handler
    catches: [run] ends with that exception after its final save, no error
    is ever shown, and the lines "hello" and "exit" are never processed.
    [handle_birthdays] is not wrapped by [input_error], which catches
    every exception of the handlers it wraps ([input_error_catches]); every
    other command reports once and lets the loop go on
    ([execute_reports_once], [loop_continues], [loop_exits]). *)
Theorem run_birthdays_exception_escapes :
  fst (run leap_day_session (App_init empty_book))
  = Raise (ValueError (Builtin DayOutOfRange))
  /\ existsb is_show_error
       (events (snd (run leap_day_session (App_init empty_book)))) = false
  /\ ~ In (ShowMessage (Msg (Lit HowCanIHelp)))
          (events (snd (run leap_day_session (App_init empty_book))))
  /\ ~ In ShowGoodbye
          (events (snd (run leap_day_session (App_init empty_book)))).
Proof.
  vm_compute. split; [reflexivity|]. split; [reflexivity|].
  split; intros H;
    repeat (destruct H as [H | H]; [discriminate|]); exact H.
Qed.

(** A line with an unclosed quotation mark makes [shlex.split] raise inside
    [parse_input], outside every handler: the exception leaves [run]. *)
Lemma run_unbalanced_quote_escapes :
  fst (run [(mkdate 2025 3 1, unbalanced_line); (mkdate 2025 3 1, "exit")]
           (App_init empty_book))
  = Raise (ValueError (Builtin NoClosingQuotation)).
Proof. vm_compute. reflexivity. Qed.

(* ================================================================== *)
(** * Further properties of the fields and the records *)

Lemma forallb_str_app (p : ascii -> bool) (s t : string) :
  Str.forallb_str p (s ++ t)%string = Str.forallb_str p s && Str.forallb_str p t.
Proof.
  induction s as [|c s IH]; simpl; [reflexivity|].
  rewrite IH, andb_assoc. reflexivity.
Qed.

Lemma lstrip_nonspace (s : string) :
  Str.forallb_str (fun c => negb (Str.isspace c)) s = true -> Str.lstrip s = s.
Proof.
  destruct s as [|c s]; simpl; [reflexivity|].
  intros H. apply andb_prop in H. destruct H as [Hc _].
  apply negb_true_iff in Hc. rewrite Hc. reflexivity.
Qed.

Lemma rstrip_nonspace (s : string) :
  Str.forallb_str (fun c => negb (Str.isspace c)) s = true -> Str.rstrip s = s.
Proof.
  induction s as [|c s IH]; simpl; [reflexivity|].
  intros H. apply andb_prop in H. destruct H as [Hc Hs].
  apply negb_true_iff in Hc. rewrite (IH Hs), Hc. destruct s; reflexivity.
Qed.

Lemma strip_nonspace (s : string) :
  Str.forallb_str (fun c => negb (Str.isspace c)) s = true -> Str.strip s = s.
Proof.
  intros H. unfold Str.strip. rewrite (lstrip_nonspace s H).
  apply rstrip_nonspace. exact H.
Qed.

Lemma digit_char_nonspace (n : Z) :
  Str.isspace (digit_char (n mod 10)) = false.
Proof.
  assert (H : 0 <= n mod 10 <= 9) by (Z.div_mod_to_equations; lia).
  generalize dependent (n mod 10). intros k H.
  small_cases k 0 9; reflexivity.
Qed.

Lemma digit_nonspace (k : Z) :
  0 <= k <= 9 -> Str.isspace (digit_char k) = false.
Proof.
  intros H. small_cases k 0 9; reflexivity.
Qed.

Lemma pad2_nonspace (n : Z) :
  Str.forallb_str (fun c => negb (Str.isspace c)) (pad2 n) = true.
Proof.
  unfold pad2. cbn [Str.forallb_str]. rewrite !digit_char_nonspace. reflexivity.
Qed.

Lemma year_text_nonspace (y : Z) :
  1 <= y -> Str.forallb_str (fun c => negb (Str.isspace c)) (year_text y) = true.
Proof.
  intros Hy. unfold year_text, pad4.
  destruct (Z.ltb_spec y 10).
  - cbn [Str.forallb_str]. rewrite digit_nonspace by lia. reflexivity.
  - destruct (Z.ltb_spec y 100); [apply pad2_nonspace|].
    destruct (Z.ltb_spec y 1000); cbn [Str.forallb_str];
      rewrite !digit_char_nonspace, pad2_nonspace; reflexivity.
Qed.

Lemma strftime_nonspace (d : date) :
  valid_date d ->
  Str.forallb_str (fun c => negb (Str.isspace c)) (strftime d) = true.
Proof.
  intros Hv. unfold valid_date in Hv. apply valid_spec in Hv.
  unfold strftime. rewrite !forallb_str_app, !pad2_nonspace.
  rewrite year_text_nonspace by lia. reflexivity.
Qed.

(** The text of a year below 1000 is not a match of %Y. *)
Lemma match_Y_year_text (y : Z) : y < 1000 -> match_Y (year_text y) = None.
Proof.
  intros Hy. unfold year_text, pad2.
  destruct (Z.ltb_spec y 10); [reflexivity|].
  destruct (Z.ltb_spec y 100); [reflexivity|].
  destruct (Z.ltb_spec y 1000); [reflexivity | lia].
Qed.

Lemma alts_d_pad2_none {B} (d : Z) (rest : string) (k : Z -> string -> option B) :
  1 <= d <= 31 -> k d rest = None ->
  (forall v c r, Str.isdecimal c = true -> k v (String c r) = None) ->
  first_match (alts_d (pad2 d ++ rest)%string) k = None.
Proof.
  intros Hd Hk Hdigit.
  small_cases d 1 31; cbn; rewrite Hk; try rewrite Hdigit by reflexivity;
    reflexivity.
Qed.

Lemma alts_m_pad2_none {B} (m : Z) (rest : string) (k : Z -> string -> option B) :
  1 <= m <= 12 -> k m rest = None ->
  (forall v c r, Str.isdecimal c = true -> k v (String c r) = None) ->
  first_match (alts_m (pad2 m ++ rest)%string) k = None.
Proof.
  intros Hm Hk Hdigit.
  small_cases m 1 12; cbn; rewrite Hk; try rewrite Hdigit by reflexivity;
    reflexivity.
Qed.

Lemma match_dot_digit (c : ascii) (r : string) :
  Str.isdecimal c = true -> match_dot (String c r) = None.
Proof.
  unfold Str.isdecimal, Str.between, match_dot, is_char. intros H.
  apply andb_prop in H. destruct H as [H1 H2]. apply Z.leb_le in H1, H2.
  destruct (Z.eqb_spec (Str.ord c) 46); [lia | reflexivity].
Qed.

(** The text of a valid date of a year below 1000 does not parse. *)
Lemma strptime_strftime_short_year (d : date) :
  valid_date d -> year d < 1000 ->
  strptime (strftime d) = Raise (ValueError (Builtin NoMatchFormat)).
Proof.
  intros Hv Hy3. unfold valid_date in Hv. apply valid_spec in Hv.
  destruct Hv as (Hy & Hm & Hd).
  pose proof (days_in_month_le_31 (year d) (month d)).
  unfold strptime, strftime, match_dmY.
  rewrite alts_d_pad2_none; [reflexivity | lia | |].
  - cbn [append match_dot is_char]. change (is_char 46 "."%char) with true.
    cbv iota.
    apply alts_m_pad2_none; [lia | |].
    + cbn [append match_dot is_char]. change (is_char 46 "."%char) with true.
      cbv iota. rewrite match_Y_year_text by lia. reflexivity.
    + intros v c r Hc. rewrite (match_dot_digit c r Hc). reflexivity.
  - intros v c r Hc. rewrite (match_dot_digit c r Hc). reflexivity.
Qed.

Lemma Birthday_init_strftime (d : date) :
  valid_date d ->
  Birthday_init (strftime d)
  = if 1000 <=? year d then Return {| value := strftime d |}
    else Raise (ValueError (Lit InvalidDateFormat)).
Proof.
  intros Hv. unfold Birthday_init.
  rewrite (strip_nonspace _ (strftime_nonspace d Hv)).
  destruct (Z.leb_spec 1000 (year d)).
  - rewrite (strptime_strftime d Hv) by lia. reflexivity.
  - rewrite (strptime_strftime_short_year d Hv) by lia. reflexivity.
Qed.

(** X1: [Birthday] stores the text that [strftime] gives for the date it
    parsed.  For a valid date of a year from 1000 on that text is accepted
    and stored as it is, so the stored value is accepted again with the
    same result.  For a year below 1000, which [strptime] reads from four
    digits with leading zeros, the stored text has a shorter year and
    [Birthday] rejects it.  The only error is the format error. *)
Theorem Birthday_init_round_trip :
  (forall d, valid_date d -> 1000 <= year d ->
     Birthday_init (strftime d) = Return {| value := strftime d |})
  /\ (forall s b, Birthday_init s = Return b ->
        exists d, valid_date d /\ strptime (Str.strip s) = Return d
                  /\ value b = strftime d
                  /\ (1000 <= year d -> Birthday_init (value b) = Return b)
                  /\ (year d < 1000 ->
                        Birthday_init (value b)
                        = Raise (ValueError (Lit InvalidDateFormat))))
  /\ (forall s e, Birthday_init s = Raise e ->
        e = ValueError (Lit InvalidDateFormat)).
Proof.
  split; [|split].
  - intros d Hv Hy. rewrite (Birthday_init_strftime d Hv).
    destruct (Z.leb_spec 1000 (year d)); [reflexivity | lia].
  - intros s b Hb.
    destruct (Birthday_init_value s b Hb) as (d & Hv & Hparse & Hval & _).
    exists d. split; [exact Hv|]. split; [exact Hparse|]. split; [exact Hval|].
    rewrite Hval, (Birthday_init_strftime d Hv).
    split; intros Hy; destruct (Z.leb_spec 1000 (year d)); try lia.
    + f_equal. apply field_value_inj. simpl. symmetry. exact Hval.
    + reflexivity.
  - apply Birthday_init_raise.
Qed.

Lemma Birthday_init_round_trip_witness :
  Birthday_init "03.01.1990" = Return {| value := "03.01.1990" |}
  /\ (exists d, valid_date d /\ strptime "01.01.0999" = Return d
                /\ "01.01.999" = strftime d
                /\ (1000 <= year d ->
                      Birthday_init "01.01.999" = Return {| value := "01.01.999" |})
                /\ (year d < 1000 ->
                      Birthday_init "01.01.999"
                      = Raise (ValueError (Lit InvalidDateFormat))))
  /\ ValueError (Lit InvalidDateFormat) = ValueError (Lit InvalidDateFormat).
Proof.
  destruct Birthday_init_round_trip as (Hfmt & Hnorm & Hraise).
  split; [|split].
  - apply (Hfmt (mkdate 1990 1 3)); [reflexivity | simpl; lia].
  - apply (Hnorm "01.01.0999" {| value := "01.01.999" |}). reflexivity.
  - apply (Hraise "30.02.1990"). reflexivity.
Defined.

Lemma del_first_found (v : string) (before after : list Phone) (ph : Phone) :
  value ph = v -> ~ In v (map value before) ->
  del_first v (before ++ ph :: after) = Some (before ++ after).
Proof.
  intros Hph. induction before as [|b t IH]; simpl; intros Hb.
  - apply has_value_true in Hph. rewrite Hph. reflexivity.
  - destruct (has_value v b) eqn:Hv.
    + apply has_value_true in Hv. exfalso. auto.
    + rewrite IH; auto.
Qed.

Lemma record_eta (r : ContactRecord) : set_phones r (phones r) = r.
Proof. destruct r; reflexivity. Qed.

Lemma remove_phone_found (r : ContactRecord) (raw : string) (p : Phone)
      (before after : list Phone) (ph : Phone) :
  Phone_init raw = Return p ->
  phones r = before ++ ph :: after ->
  value ph = value p -> ~ In (value p) (map value before) ->
  remove_phone raw r = (Return tt, set_phones r (before ++ after)).
Proof.
  intros Hp Hl Hph Hb. unfold remove_phone, bind, lift, get, put, raise.
  rewrite Hp, Hl, (del_first_found _ _ _ _ Hph Hb). reflexivity.
Qed.

(** X2: [remove_phone] raises the validation error on an invalid number
    and the not-in-contact error when no phone has the normalized value,
    leaving the record as it was; otherwise it deletes the first phone with
    that value and keeps the others in order; when the values are distinct
    the value is gone afterwards. *)
Theorem remove_phone_spec (r : ContactRecord) (raw : string) :
  (forall e, Phone_init raw = Raise e ->
     remove_phone raw r = (Raise (ValueError (Lit PhoneTenDigits)), r))
  /\ (forall p, Phone_init raw = Return p -> ~ In (value p) (phone_values r) ->
     remove_phone raw r = (Raise (ValueError (Lit PhoneNotInContact)), r))
  /\ (forall p before ph after,
     Phone_init raw = Return p ->
     phones r = before ++ ph :: after ->
     value ph = value p -> ~ In (value p) (map value before) ->
     remove_phone raw r = (Return tt, set_phones r (before ++ after)))
  /\ (forall p, Phone_init raw = Return p ->
     NoDup (phone_values r) -> In (value p) (phone_values r) ->
     fst (remove_phone raw r) = Return tt
     /\ ~ In (value p) (phone_values (snd (remove_phone raw r)))).
Proof.
  unfold remove_phone, bind, lift, get, put, raise.
  split; [|split; [|split]].
  - intros e He. rewrite He. apply Phone_init_raise in He. subst. reflexivity.
  - intros p Hp Hnin. rewrite Hp.
    apply del_first_none in Hnin. rewrite Hnin. reflexivity.
  - intros p before ph after. apply remove_phone_found.
  - intros p Hp Hnd Hin. rewrite Hp.
    destruct (del_first (value p) (phones r)) as [l'|] eqn:Hd.
    + simpl. split; [reflexivity|].
      apply del_first_some in Hd.
      destruct Hd as (b & ph & a & Hl & Hv & _ & ->).
      unfold phone_values in *. simpl. rewrite Hl in Hnd.
      rewrite map_app in *. simpl in Hnd. apply NoDup_remove_2 in Hnd.
      rewrite Hv in Hnd. exact Hnd.
    + exfalso. apply del_first_none in Hd. apply Hd. exact Hin.
Qed.

Lemma remove_phone_spec_witness :
  let r := snd (add_phone "2222222222" (snd (add_phone "1111111111" (Record_init "Ann")))) in
  remove_phone "1111111111" r
  = (Return tt, set_phones r [{| value := "2222222222" |}])
  /\ remove_phone "3333333333" r = (Raise (ValueError (Lit PhoneNotInContact)), r)
  /\ remove_phone "33" r = (Raise (ValueError (Lit PhoneTenDigits)), r)
  /\ ~ In "2222222222" (phone_values (snd (remove_phone " 2222222222" r))).
Proof.
  intros r. split; [|split; [|split]].
  - apply (proj1 (proj2 (proj2 (remove_phone_spec r "1111111111")))
             {| value := "1111111111" |} [] {| value := "1111111111" |}
             [{| value := "2222222222" |}]); try reflexivity.
    simpl. intros [].
  - apply (proj1 (proj2 (remove_phone_spec r "3333333333"))
             {| value := "3333333333" |}); try reflexivity.
    simpl. intros [H | [H | []]]; discriminate.
  - apply (proj1 (remove_phone_spec r "33") (ValueError (Lit PhoneTenDigits))).
    reflexivity.
  - apply (proj2 (proj2 (proj2 (remove_phone_spec r " 2222222222")))
             {| value := "2222222222" |}); try reflexivity.
    + change (NoDup ["1111111111"; "2222222222"]%string).
      constructor; [intros [H | []]; discriminate|].
      constructor; [intros [] | constructor].
    + change (In "2222222222"%string ["1111111111"; "2222222222"]%string).
      right. left. reflexivity.
Defined.

(** X3: adding a valid number that the record does not hold and removing
    it again gives the record back. *)
Theorem add_phone_then_remove_phone (raw : string) (p : Phone) (r : ContactRecord) :
  Phone_init raw = Return p -> ~ In (value p) (phone_values r) ->
  remove_phone raw (snd (add_phone raw r)) = (Return tt, r).
Proof.
  intros Hp Hnin. rewrite (add_phone_valid _ _ _ Hp).
  apply existsb_has_value_false in Hnin as Hex. rewrite Hex. simpl.
  rewrite (remove_phone_found (set_phones r (phones r ++ [p])) raw p
             (phones r) [] p Hp eq_refl eq_refl Hnin).
  rewrite app_nil_r. destruct r; reflexivity.
Qed.

Lemma add_phone_then_remove_phone_witness :
  remove_phone "0123456789" (snd (add_phone "0123456789" (Record_init "Ann")))
  = (Return tt, Record_init "Ann").
Proof.
  apply (add_phone_then_remove_phone "0123456789" {| value := "0123456789" |}).
  - reflexivity.
  - simpl. intros [].
Defined.

(** X4: [add_phone] is idempotent: a second call with the same string has
    the same result and leaves the record the first call left. *)
Theorem add_phone_idempotent (raw : string) (r : ContactRecord) :
  add_phone raw (snd (add_phone raw r)) = add_phone raw r.
Proof.
  destruct (Phone_init_total raw) as [[p Hp] | He].
  - rewrite !(add_phone_valid _ _ _ Hp).
    destruct (existsb (has_value (value p)) (phones r)) eqn:Hex; simpl.
    + rewrite Hex. reflexivity.
    + rewrite existsb_app. simpl.
      assert (H : has_value (value p) p = true) by (apply has_value_true; reflexivity).
      rewrite H, orb_true_r. reflexivity.
  - rewrite !(add_phone_invalid _ _ _ He). simpl.
    rewrite ?(add_phone_invalid _ _ _ He). reflexivity.
Qed.

Lemma assign_first_some_inv (o n : string) (l l' : list Phone) :
  assign_first o n l = Some l' ->
  exists before ph after,
    l = before ++ ph :: after /\ value ph = o
    /\ l' = before ++ {| value := n |} :: after.
Proof.
  revert l'. induction l as [|ph t IH]; simpl; intros l' H; [discriminate|].
  destruct (has_value o ph) eqn:Hv.
  - apply has_value_true in Hv. inversion H; subst.
    exists [], ph, t. auto.
  - destruct (assign_first o n t) as [t'|]; simpl in H; [|discriminate].
    inversion H; subst.
    destruct (IH t' eq_refl) as (b & p & a & -> & Hp & ->).
    exists (ph :: b), p, a. auto.
Qed.

(** X5: on a record with distinct phone values, [add_phone] and
    [remove_phone] keep them distinct whatever their argument, and
    [edit_phone] does when the new number is not one of the record. *)
Theorem phone_values_stay_distinct (r : ContactRecord) :
  NoDup (phone_values r) ->
  (forall raw, NoDup (phone_values (snd (add_phone raw r))))
  /\ (forall raw, NoDup (phone_values (snd (remove_phone raw r))))
  /\ (forall old new n, Phone_init new = Return n ->
        ~ In (value n) (phone_values r) ->
        NoDup (phone_values (snd (edit_phone old new r)))).
Proof.
  intros Hnd. split; [|split].
  - intros raw. apply add_phone_NoDup. exact Hnd.
  - intros raw. apply remove_phone_NoDup. exact Hnd.
  - intros old new n Hn Hnin.
    unfold edit_phone, bind, lift, get, put, raise.
    destruct (Phone_init old) as [o|e]; simpl; auto.
    rewrite Hn.
    destruct (assign_first (value o) (value n) (phones r)) as [l'|] eqn:Ha;
      simpl; auto.
    apply assign_first_some_inv in Ha.
    destruct Ha as (b & ph & a & Hl & _ & ->).
    unfold phone_values in *. simpl. rewrite Hl in Hnd, Hnin.
    rewrite map_app in *. simpl in *.
    pose proof (NoDup_remove_1 _ _ _ Hnd) as Hrest.
    eapply Permutation_NoDup; [apply Permutation_middle|].
    constructor; [|exact Hrest].
    intros Hin. apply Hnin. apply in_app_or in Hin. apply in_or_app.
    destruct Hin; [left | right; right]; assumption.
Qed.

Lemma phone_values_stay_distinct_witness :
  let r := snd (add_phone "1111111111" (Record_init "Ann")) in
  NoDup (phone_values (snd (add_phone "2222222222" r)))
  /\ NoDup (phone_values (snd (remove_phone "1111111111" r)))
  /\ NoDup (phone_values (snd (edit_phone "1111111111" "3333333333" r))).
Proof.
  intros r.
  assert (Hnd : NoDup (phone_values r)).
  { change (NoDup ["1111111111"%string]).
    constructor; [intros [] | constructor]. }
  destruct (phone_values_stay_distinct r Hnd) as (Hadd & Hrem & Hedit).
  split; [apply Hadd|]. split; [apply Hrem|].
  apply (Hedit "1111111111" "3333333333" {| value := "3333333333" |});
    [reflexivity|].
  change (~ In "3333333333"%string ["1111111111"%string]).
  intros [H | []]. discriminate.
Defined.

(* ================================================================== *)
(** * Further properties of the store *)

Lemma dict_del_absent {V} (k : string) (d : dict V) :
  ~ In k (dict_keys d) -> dict_del k d = d.
Proof.
  induction d as [|[k' v'] t IH]; simpl; intros H; [reflexivity|].
  destruct (String.eqb_spec k' k) as [E|E]; [exfalso; auto|].
  rewrite IH; auto.
Qed.

Lemma dict_get_del_same {V} (k : string) (d : dict V) :
  NoDup (dict_keys d) -> dict_get k (dict_del k d) = None.
Proof.
  induction d as [|[k' v'] t IH]; simpl; intros Hnd; [reflexivity|].
  inversion Hnd as [|? ? Hnin Ht]; subst.
  destruct (String.eqb_spec k' k) as [E|E].
  - subst. apply dict_get_None. exact Hnin.
  - simpl. apply String.eqb_neq in E. rewrite E. apply IH. exact Ht.
Qed.

Lemma dict_get_del_other {V} (k k' : string) (d : dict V) :
  k <> k' -> dict_get k' (dict_del k d) = dict_get k' d.
Proof.
  intros Hne. induction d as [|[k0 v0] t IH]; simpl; [reflexivity|].
  destruct (String.eqb_spec k0 k) as [E|E]; simpl.
  - subst. apply String.eqb_neq in Hne. rewrite Hne. reflexivity.
  - destruct (String.eqb k0 k'); auto.
Qed.

Lemma dict_del_length {V} (k : string) (d : dict V) :
  dict_mem k d = true -> S (List.length (dict_del k d)) = List.length d.
Proof.
  unfold dict_mem. induction d as [|[k' v'] t IH]; simpl; [discriminate|].
  destruct (String.eqb k' k); simpl; [reflexivity|].
  intros H. rewrite IH; auto.
Qed.

Lemma dict_set_absent {V} (k : string) (v : V) (d : dict V) :
  dict_get k d = None -> dict_set k v d = d ++ [(k, v)].
Proof.
  induction d as [|[k' v'] t IH]; simpl; [reflexivity|].
  destruct (String.eqb k' k); [discriminate|].
  intros H. rewrite IH; auto.
Qed.

Lemma dict_del_set_absent {V} (k : string) (v : V) (d : dict V) :
  dict_get k d = None -> dict_del k (dict_set k v d) = d.
Proof.
  induction d as [|[k' v'] t IH]; simpl.
  - rewrite String.eqb_refl. reflexivity.
  - destruct (String.eqb k' k) eqn:E; [discriminate|].
    intros H. simpl. rewrite E, IH; auto.
Qed.

Lemma book_eta (b : AddressBook) : {| data := data b |} = b.
Proof. destruct b; reflexivity. Qed.

(** X6: [delete] of a name that [find] does not know raises the KeyError
    and leaves the store as it was; of a known name it removes one entry,
    leaves the lookup of every other folded name as it was, and, the keys
    being distinct, [find] no longer knows the name. *)
Theorem delete_spec (n : string) (b : AddressBook) :
  (find n b = None ->
     delete n b = (Raise (KeyError (Lit ContactNameNotFound)), b))
  /\ (find n b <> None ->
        fst (delete n b) = Return tt
        /\ S (List.length (data (snd (delete n b)))) = List.length (data b)
        /\ (forall n', _key n' <> _key n ->
              find n' (snd (delete n b)) = find n' b)
        /\ (NoDup (dict_keys (data b)) -> find n (snd (delete n b)) = None)).
Proof.
  unfold delete, bind, get, put, raise, find, dict_mem. split.
  - intros H. rewrite H. reflexivity.
  - intros H. destruct (dict_get (_key n) (data b)) as [rec|] eqn:E;
      [|congruence].
    simpl. split; [reflexivity|]. split; [|split].
    + apply dict_del_length. unfold dict_mem. rewrite E. reflexivity.
    + intros n' Hn'. apply dict_get_del_other. congruence.
    + apply dict_get_del_same.
Qed.

Lemma delete_spec_witness :
  let b := snd (add_record (Record_init "Ann") empty_book) in
  delete "Bob" b = (Raise (KeyError (Lit ContactNameNotFound)), b)
  /\ fst (delete "ANN" b) = Return tt
  /\ find "Ann" (snd (delete "ANN" b)) = None.
Proof.
  intros b. split; [|split].
  - apply (proj1 (delete_spec "Bob" b)). reflexivity.
  - apply (proj2 (delete_spec "ANN" b)). discriminate.
  - assert (Hfind : find "ANN" b <> None) by discriminate.
    destruct (proj2 (delete_spec "ANN" b) Hfind) as (_ & _ & Hother & Hsame).
    change (find "Ann" (snd (delete "ANN" b))) with (find "ANN" (snd (delete "ANN" b))).
    apply Hsame. constructor; [intros [] | constructor].
Defined.

Lemma dict_set_present {V} (k : string) (v old : V) (d : dict V) :
  dict_get k d = Some old ->
  exists before after,
    d = before ++ (k, old) :: after
    /\ ~ In k (dict_keys before)
    /\ dict_set k v d = before ++ (k, v) :: after.
Proof.
  induction d as [|[k' v'] t IH]; simpl; [discriminate|].
  destruct (String.eqb_spec k' k) as [-> | Hne].
  - intros H. inversion H. subst. exists [], t. simpl. auto.
  - intros H. destruct (IH H) as (before & after & Hd & Hnot & Hset).
    exists ((k', v') :: before), after. simpl. rewrite Hd at 1. rewrite Hset.
    split; [reflexivity|]. split; [|reflexivity].
    intros [Heq | Hin]; [congruence | contradiction].
Qed.

(** X7: [add_record] never raises; afterwards [find] of the name of the
    record returns the record, and the lookup of every other folded name
    is as it was; a record with a new folded name becomes the last entry; a
    record whose folded name is present takes the place of the entry of
    that key, the entries before and after staying as they were, so the
    keys and their order stay. *)
Theorem add_record_spec (rec : ContactRecord) (b : AddressBook) :
  fst (add_record rec b) = Return tt
  /\ find (value (name rec)) (snd (add_record rec b)) = Some rec
  /\ (forall n, _key n <> _key (value (name rec)) ->
        find n (snd (add_record rec b)) = find n b)
  /\ (find (value (name rec)) b = None ->
        data (snd (add_record rec b))
        = data b ++ [(_key (value (name rec)), rec)])
  /\ (forall old, find (value (name rec)) b = Some old ->
        exists before after,
          data b = before ++ (_key (value (name rec)), old) :: after
          /\ ~ In (_key (value (name rec))) (dict_keys before)
          /\ data (snd (add_record rec b))
             = before ++ (_key (value (name rec)), rec) :: after)
  /\ (find (value (name rec)) b <> None ->
        dict_keys (data (snd (add_record rec b))) = dict_keys (data b)).
Proof.
  rewrite add_record_run. simpl. split; [reflexivity|].
  split; [|split; [|split; [|split]]].
  - unfold find. simpl. apply dict_get_set_same.
  - intros n Hn. unfold find. simpl. apply dict_get_set_other. congruence.
  - unfold find. apply dict_set_absent.
  - unfold find. intros old Hold. apply dict_set_present. exact Hold.
  - unfold find. intros H. rewrite dict_set_keys. unfold dict_mem.
    destruct (dict_get _ _); [reflexivity | congruence].
Qed.

Lemma add_record_spec_witness :
  let b := snd (add_record (Record_init "Bob")
                  (snd (add_record (Record_init "Ann") empty_book))) in
  find "ANN" (snd (add_record (Record_init "ANN") b)) = Some (Record_init "ANN")
  /\ find "Bob" (snd (add_record (Record_init "ANN") b)) = find "Bob" b
  /\ data (snd (add_record (Record_init "Cid") b))
     = data b ++ [("cid"%string, Record_init "Cid")]
  /\ (exists before after,
        data b = before ++ ("ann"%string, Record_init "Ann") :: after
        /\ ~ In "ann"%string (dict_keys before)
        /\ data (snd (add_record (Record_init "ANN") b))
           = before ++ ("ann"%string, Record_init "ANN") :: after)
  /\ dict_keys (data (snd (add_record (Record_init "ANN") b))) = dict_keys (data b).
Proof.
  intros b.
  destruct (add_record_spec (Record_init "ANN") b)
    as (_ & Hfound & Hother & _ & Hplace & Hkeys).
  destruct (add_record_spec (Record_init "Cid") b) as (_ & _ & _ & Hnew & _).
  split; [exact Hfound|]. split; [|split; [|split]].
  - apply Hother. vm_compute. discriminate.
  - apply Hnew. reflexivity.
  - apply (Hplace (Record_init "Ann")). reflexivity.
  - apply Hkeys. discriminate.
Defined.

(** X8: [add_record] of a record with a new folded name, then [delete] of
    its name, gives the store back. *)
Theorem add_record_then_delete (rec : ContactRecord) (b : AddressBook) :
  find (value (name rec)) b = None ->
  delete (value (name rec)) (snd (add_record rec b)) = (Return tt, b).
Proof.
  intros H. rewrite add_record_run. simpl.
  unfold delete, bind, get, put, raise, dict_mem. simpl.
  rewrite dict_get_set_same. simpl.
  unfold find in H. rewrite (dict_del_set_absent _ _ _ H), book_eta. reflexivity.
Qed.

Lemma add_record_then_delete_witness :
  delete "Ann" (snd (add_record (Record_init "Ann") empty_book))
  = (Return tt, empty_book).
Proof.
  apply (add_record_then_delete (Record_init "Ann") empty_book). reflexivity.
Defined.

(* ================================================================== *)
(** * Further properties of the upcoming birthdays *)

(** X9: on a valid date before the year 9999, [_shift_if_weekend] returns
    a valid date that is a Monday to Friday, at most two days later, and
    the date itself when it is not a Saturday or a Sunday. *)
Theorem shift_if_weekend_spec (d : date) :
  valid_date d -> year d <= 9998 ->
  exists g,
    _shift_if_weekend d = Return g
    /\ valid_date g
    /\ 0 <= weekday g <= 4
    /\ toordinal d <= toordinal g <= toordinal d + 2
    /\ (weekday d <= 4 -> g = d).
Proof.
  intros Hv Hy. destruct (shift_refines d Hv Hy) as [Hs Hvs].
  exists (spec_shift d). split; [exact Hs|]. split; [exact Hvs|].
  split; [apply spec_shift_weekday; assumption|].
  pose proof (toordinal_range d Hv).
  pose proof (toordinal_before_last_year d Hv Hy).
  unfold spec_shift.
  destruct (Z.eqb_spec (weekday d) 5) as [E5|E5].
  - destruct (add_days_in_range d 2 ltac:(lia)) as (_ & _ & Ho).
    rewrite Ho. split; lia.
  - destruct (Z.eqb_spec (weekday d) 6) as [E6|E6].
    + destruct (add_days_in_range d 1 ltac:(lia)) as (_ & _ & Ho).
      rewrite Ho. split; lia.
    + split; [lia | reflexivity].
Qed.

Lemma shift_if_weekend_spec_witness :
  exists g,
    _shift_if_weekend (mkdate 2024 1 6) = Return g
    /\ valid_date g
    /\ 0 <= weekday g <= 4
    /\ toordinal (mkdate 2024 1 6) <= toordinal g <= toordinal (mkdate 2024 1 6) + 2
    /\ (weekday (mkdate 2024 1 6) <= 4 -> g = mkdate 2024 1 6).
Proof.
  apply (shift_if_weekend_spec (mkdate 2024 1 6)).
  - reflexivity.
  - simpl. lia.
Defined.

(** A birthday of a year below 1000 is stored as a text that the query
    cannot parse back, so the query raises on a store that holds one. *)
Lemma short_year_birthday_raises :
  let today := mkdate 2024 1 1 in
  let b := book (snd (run [(today, "add Ann 0123456789");
                           (today, "add-birthday Ann 01.01.0999")]
                          (App_init empty_book))) in
  find "Ann" b
  = Some {| name := {| value := "Ann" |};
            phones := [{| value := "0123456789" |}];
            birthday := Some {| value := "01.01.999" |} |}
  /\ fst (get_upcoming_birthdays today 7 b)
     = Raise (ValueError (Builtin NoMatchFormat)).
Proof. vm_compute. split; reflexivity. Qed.

(** X10: when today is a valid date of a year from 1000 to 9997 (so that
    the text of every greeting date has a year of four digits and the sort
    key parses it), the window ends inside the calendar and every birthday
    of the store parses to a date other than 29 February,
    [get_upcoming_birthdays] returns, leaves the store as it was, and its
    result is sorted by greeting date and holds exactly one entry for each
    record with a birthday whose shifted date lies in
    today .. today + (days - 1), with the name of the record and the text
    of that date. *)
Theorem upcoming_birthdays_correct (today : date) (windowDays : Z)
        (b : AddressBook) :
  valid_date today -> 1000 <= year today <= 9997 ->
  1 <= windowDays -> toordinal today + (windowDays - 1) <= MAXORDINAL ->
  birthdays_projectable b ->
  exists entries,
    get_upcoming_birthdays today windowDays b = (Return (map snd entries), b)
    /\ StronglySorted not_after entries
    /\ Permutation entries
         (flat_map (spec_entry today windowDays) (dict_values (data b)))
    /\ (forall e, In e entries <->
          exists rec bday,
            In rec (dict_values (data b)) /\ birthday_date rec = Some bday
            /\ fst e = spec_shift (spec_project today bday)
            /\ toordinal today <= toordinal (fst e)
               <= toordinal today + (windowDays - 1)
            /\ snd e = {| item_name := value (name rec);
                          item_date := strftime (fst e) |}).
Proof.
  intros Ht Hy Hw Hmax Hb.
  destruct (spec_upcoming_sorted today windowDays (dict_values (data b)))
    as (entries & Heq & Hsorted & Hperm).
  exists entries.
  split; [rewrite <- Heq; apply get_upcoming_birthdays_refines; assumption|].
  split; [exact Hsorted|]. split; [exact Hperm|].
  intros e. rewrite <- spec_entry_In. split; intros Hin.
  - eapply Permutation_in; [exact Hperm | exact Hin].
  - eapply Permutation_in; [symmetry; exact Hperm | exact Hin].
Qed.

Lemma upcoming_birthdays_correct_witness :
  exists entries,
    get_upcoming_birthdays (mkdate 2024 1 1) 8 january_book
    = (Return (map snd entries), january_book)
    /\ StronglySorted not_after entries
    /\ Permutation entries
         (flat_map (spec_entry (mkdate 2024 1 1) 8) (dict_values (data january_book)))
    /\ (forall e, In e entries <->
          exists rec bday,
            In rec (dict_values (data january_book)) /\ birthday_date rec = Some bday
            /\ fst e = spec_shift (spec_project (mkdate 2024 1 1) bday)
            /\ toordinal (mkdate 2024 1 1) <= toordinal (fst e)
               <= toordinal (mkdate 2024 1 1) + (8 - 1)
            /\ snd e = {| item_name := value (name rec);
                          item_date := strftime (fst e) |}).
Proof.
  apply (upcoming_birthdays_correct (mkdate 2024 1 1) 8 january_book).
  - reflexivity.
  - simpl. lia.
  - lia.
  - vm_compute. discriminate.
  - intros rec bd [<- | [<- | []]] Hbd; inversion Hbd; subst; simpl.
    + exists (mkdate 1990 1 3). split; [reflexivity|].
      unfold not_leap_day. simpl. lia.
    + exists (mkdate 1990 1 6). split; [reflexivity|].
      unfold not_leap_day. simpl. lia.
Defined.

(* ================================================================== *)
(** * Further properties of the commands *)

(** With too few arguments the handler stops at the unpacking. *)
Lemma too_few_arguments_run (today : date) (cmd : string) (need : nat)
        (args : list string) (s : App) :
  In (cmd, need) required_arguments -> (List.length args < need)%nat ->
  execute today cmd args s
  = (Return tt,
     {| book := book s;
        events := events s
                  ++ [ShowError (Msg (Builtin (UnpackTooFew need (List.length args))))] |}).
Proof.
  intros Hin Hlen. unfold required_arguments in Hin. simpl in Hin.
  destruct args as [|a0 [|a1 [|a2 args]]]; simpl in Hlen;
    repeat (destruct Hin as [Hin | Hin];
            [inversion Hin; subst; clear Hin; try lia; reflexivity|]);
    contradiction.
Qed.

(** X11: a command called with fewer arguments than its handler unpacks
    shows the unpacking error of the interpreter (a ValueError, so not the
    message of the IndexError clause), saves nothing and leaves the store as
    it was. *)
Theorem too_few_arguments_report (today : date) (cmd : string) (need : nat)
        (args : list string) (s : App) :
  In (cmd, need) required_arguments -> (List.length args < need)%nat ->
  execute today cmd args s
  = (Return tt,
     {| book := book s;
        events := events s
                  ++ [ShowError (Msg (Builtin (UnpackTooFew need (List.length args))))] |}).
Proof. apply too_few_arguments_run. Qed.

Lemma too_few_arguments_report_witness :
  execute (mkdate 2024 1 1) "change" ["Ann"; "0123456789"] (App_init empty_book)
  = (Return tt,
     {| book := empty_book;
        events := [ShowError (Msg (Builtin (UnpackTooFew 3 2)))] |}).
Proof.
  apply (too_few_arguments_report (mkdate 2024 1 1) "change" 3
           ["Ann"; "0123456789"] (App_init empty_book)).
  - simpl. auto.
  - simpl. lia.
Defined.

Lemma app_eta (s : App) : {| book := book s; events := events s |} = s.
Proof. destruct s; reflexivity. Qed.

Lemma on_found_none {A} (n : string) (m : M ContactRecord A) (b : AddressBook) :
  find n b = None ->
  on_found n m b = (Raise (AttributeError (Builtin NoneHasNoAttribute)), b).
Proof. intros H. unfold on_found. rewrite H. reflexivity. Qed.

Lemma on_found_some {A} (n : string) (m : M ContactRecord A) (b : AddressBook)
      (rec : ContactRecord) :
  find n b = Some rec ->
  on_found n m b
  = (fst (m rec), {| data := dict_set (_key n) (snd (m rec)) (data b) |}).
Proof.
  intros H. unfold on_found. rewrite H. destruct (m rec). reflexivity.
Qed.

(** A handler that runs a method of the store, saves and reports. *)
Lemma command_run (m : M AddressBook unit) (l : literal) (s : App) :
  input_error (on_book m ;;; autosave ;;; show_message (Msg (Lit l))) s
  = match m (book s) with
    | (Return _, b') =>
        (Return tt,
         {| book := b';
            events := events s ++ [SaveData b'; ShowMessage (Msg (Lit l))] |})
    | (Raise e, b') =>
        (Return tt, {| book := b'; events := events s ++ [ShowError (report e)] |})
    end.
Proof.
  unfold input_error, bind, on_book, autosave, save_data, show_message,
    show_error, emit, get.
  destruct (m (book s)) as [[[]|e] b']; simpl; [|reflexivity].
  rewrite <- app_assoc. reflexivity.
Qed.

Lemma handle_change_run (n o p : string) (rest : list string) (s : App) :
  handle_change (n :: o :: p :: rest) s
  = input_error (on_book (on_found n (edit_phone o p)) ;;; autosave
                 ;;; show_message (Msg (Lit PhoneChanged))) s.
Proof. reflexivity. Qed.

Lemma handle_remove_phone_run (n p : string) (rest : list string) (s : App) :
  handle_remove_phone (n :: p :: rest) s
  = input_error (on_book (on_found n (remove_phone p)) ;;; autosave
                 ;;; show_message (Msg (Lit PhoneRemoved))) s.
Proof. reflexivity. Qed.

Lemma handle_add_birthday_run (n d : string) (rest : list string) (s : App) :
  handle_add_birthday (n :: d :: rest) s
  = input_error (on_book (on_found n (add_birthday d)) ;;; autosave
                 ;;; show_message (Msg (Lit BirthdayAdded))) s.
Proof. reflexivity. Qed.

Lemma handle_delete_run (n : string) (rest : list string) (s : App) :
  handle_delete (n :: rest) s
  = input_error (on_book (delete n) ;;; autosave
                 ;;; show_message (Msg (Lit ContactDeleted))) s.
Proof. reflexivity. Qed.

Lemma handle_phone_run (n : string) (rest : list string) (s : App) :
  handle_phone (n :: rest) s
  = match find n (book s) with
    | Some rec => (Return tt, {| book := book s; events := events s ++ [ShowContact rec] |})
    | None => (Return tt, {| book := book s;
                             events := events s ++ [ShowError (Msg (Lit ContactNotFound))] |})
    end.
Proof.
  unfold handle_phone, input_error, handle_phone_body, bind, lift, get. simpl.
  destruct (find n (book s)); reflexivity.
Qed.

Lemma handle_show_birthday_run (n : string) (rest : list string) (s : App) :
  handle_show_birthday (n :: rest) s
  = (Return tt,
     {| book := book s;
        events := events s
                  ++ [match find n (book s) with
                      | None => ShowError (Msg (Lit ContactNotFound))
                      | Some rec =>
                          match birthday rec with
                          | Some b => ShowMessage (FieldValue (value b))
                          | None => ShowMessage (Msg (Lit NoBirthdaySet))
                          end
                      end] |}).
Proof.
  unfold handle_show_birthday, input_error, handle_show_birthday_body, bind,
    lift, get. simpl.
  destruct (find n (book s)) as [rec|]; [|reflexivity].
  destruct (birthday rec); reflexivity.
Qed.

(** X12: the commands change, remove-phone, phone, add-birthday and
    show-birthday, with enough arguments and a name [find] does not know,
    show the contact-not-found error and nothing else; the store is left as
    it was. *)
Theorem unknown_contact_report (today : date) (cmd : string) (need : nat)
        (n : string) (rest : list string) (s : App) :
  In (cmd, need) contact_commands -> (need <= S (List.length rest))%nat ->
  find n (book s) = None ->
  execute today cmd (n :: rest) s
  = (Return tt,
     {| book := book s;
        events := events s ++ [ShowError (Msg (Lit ContactNotFound))] |}).
Proof.
  intros Hin Hlen Hfind. unfold contact_commands in Hin. simpl in Hin.
  destruct Hin as [Hin | [Hin | [Hin | [Hin | [Hin | []]]]]];
    inversion Hin; subst; clear Hin.
  - destruct rest as [|o [|p rest]]; simpl in Hlen; try lia.
    change (execute today "change" (n :: o :: p :: rest) s)
      with (handle_change (n :: o :: p :: rest) s).
    rewrite handle_change_run, command_run, (on_found_none _ _ _ Hfind).
    reflexivity.
  - destruct rest as [|p rest]; simpl in Hlen; try lia.
    change (execute today "remove-phone" (n :: p :: rest) s)
      with (handle_remove_phone (n :: p :: rest) s).
    rewrite handle_remove_phone_run, command_run, (on_found_none _ _ _ Hfind).
    reflexivity.
  - change (execute today "phone" (n :: rest) s) with (handle_phone (n :: rest) s).
    rewrite handle_phone_run, Hfind. reflexivity.
  - destruct rest as [|d rest]; simpl in Hlen; try lia.
    change (execute today "add-birthday" (n :: d :: rest) s)
      with (handle_add_birthday (n :: d :: rest) s).
    rewrite handle_add_birthday_run, command_run, (on_found_none _ _ _ Hfind).
    reflexivity.
  - change (execute today "show-birthday" (n :: rest) s)
      with (handle_show_birthday (n :: rest) s).
    rewrite handle_show_birthday_run, Hfind. reflexivity.
Qed.

Lemma unknown_contact_report_witness :
  execute (mkdate 2024 1 1) "add-birthday" ["Zed"; "01.01.2000"] (App_init empty_book)
  = (Return tt,
     {| book := empty_book;
        events := [ShowError (Msg (Lit ContactNotFound))] |}).
Proof.
  apply (unknown_contact_report (mkdate 2024 1 1) "add-birthday" 2 "Zed"
           ["01.01.2000"] (App_init empty_book)).
  - simpl. auto 6.
  - simpl. lia.
  - reflexivity.
Defined.

Lemma dict_set_same {V} (k : string) (v : V) (d : dict V) :
  dict_get k d = Some v -> dict_set k v d = d.
Proof.
  induction d as [|[k' v'] t IH]; simpl; [discriminate|].
  destruct (String.eqb k' k).
  - intros H. inversion H. reflexivity.
  - intros H. rewrite IH; auto.
Qed.

Lemma dict_set_twice {V} (k : string) (v v' : V) (d : dict V) :
  dict_set k v' (dict_set k v d) = dict_set k v' d.
Proof.
  induction d as [|[k0 v0] t IH]; simpl.
  - rewrite String.eqb_refl. reflexivity.
  - destruct (String.eqb k0 k) eqn:E; simpl; rewrite E; [reflexivity|].
    rewrite IH. reflexivity.
Qed.

(** A method of the record that leaves the record alone when it raises,
    run on the record [find] returns, leaves the store alone when it
    raises. *)
Lemma on_found_raise (n : string) (m : M ContactRecord unit) (b b' : AddressBook)
      (e : exn) :
  (forall r e' r', m r = (Raise e', r') -> r' = r) ->
  on_found n m b = (Raise e, b') -> b' = b.
Proof.
  intros Hm. unfold on_found.
  destruct (find n b) as [rec|] eqn:Hf.
  - destruct (m rec) as [[[]|e'] rec'] eqn:Em; intros H; inversion H; subst.
    rewrite (Hm _ _ _ Em). unfold find in Hf.
    rewrite (dict_set_same _ _ _ Hf). apply book_eta.
  - intros H. inversion H. reflexivity.
Qed.

Lemma edit_phone_raise (o p : string) (r r' : ContactRecord) (e : exn) :
  edit_phone o p r = (Raise e, r') -> r' = r.
Proof.
  unfold edit_phone, bind, lift, get, put, raise.
  destruct (Phone_init o); [|intros H; inversion H; reflexivity].
  destruct (Phone_init p); [|intros H; inversion H; reflexivity].
  destruct (assign_first _ _ _); intros H; inversion H; reflexivity.
Qed.

Lemma remove_phone_raise (p : string) (r r' : ContactRecord) (e : exn) :
  remove_phone p r = (Raise e, r') -> r' = r.
Proof.
  unfold remove_phone, bind, lift, get, put, raise.
  destruct (Phone_init p); [|intros H; inversion H; reflexivity].
  destruct (del_first _ _); intros H; inversion H; reflexivity.
Qed.

Lemma add_birthday_raise (d : string) (r r' : ContactRecord) (e : exn) :
  add_birthday d r = (Raise e, r') -> r' = r.
Proof.
  unfold add_birthday, bind, lift, get, put, raise.
  destruct (birthday r); [intros H; inversion H; reflexivity|].
  destruct (Birthday_init d); intros H; inversion H; reflexivity.
Qed.

Lemma delete_raise (n : string) (b b' : AddressBook) (e : exn) :
  delete n b = (Raise e, b') -> b' = b.
Proof.
  unfold delete, bind, get, put, raise.
  destruct (dict_mem _ _); intros H; inversion H; reflexivity.
Qed.

(** The two outcomes of a handler whose method leaves the store alone when
    it raises. *)
Lemma command_run_atomic (m : M AddressBook unit) (l : literal) (s : App) :
  (forall b e b', m b = (Raise e, b') -> b' = b) ->
  let s' := snd (input_error (on_book m ;;; autosave
                              ;;; show_message (Msg (Lit l))) s) in
  events s' = events s ++ [SaveData (book s'); ShowMessage (Msg (Lit l))]
  \/ (exists t, events s' = events s ++ [ShowError t] /\ book s' = book s).
Proof.
  intros Hm. rewrite command_run.
  destruct (m (book s)) as [[[]|e] b'] eqn:E; simpl.
  - left. reflexivity.
  - right. exists (report e). split; [reflexivity|]. apply (Hm _ _ _ E).
Qed.

(** X13: the commands change, remove-phone, delete and add-birthday are
    all or nothing: either the store is saved and the success message shown,
    or one error is shown and the store is left as it was. *)
Theorem failed_command_leaves_store (today : date) (cmd : string)
        (args : list string) (s : App) :
  In cmd ["change"; "remove-phone"; "delete"; "add-birthday"]%string ->
  (exists l, events (snd (execute today cmd args s))
             = events s ++ [SaveData (book (snd (execute today cmd args s)));
                            ShowMessage (Msg (Lit l))])
  \/ (exists t, events (snd (execute today cmd args s)) = events s ++ [ShowError t]
                /\ book (snd (execute today cmd args s)) = book s).
Proof.
  intros Hin. simpl in Hin.
  assert (Hshort : forall need, In (cmd, need) required_arguments ->
            (List.length args < need)%nat ->
            exists t, events (snd (execute today cmd args s)) = events s ++ [ShowError t]
                      /\ book (snd (execute today cmd args s)) = book s).
  { intros need Hn Hl. rewrite (too_few_arguments_run today cmd need args s Hn Hl).
    simpl. eexists. split; reflexivity. }
  destruct Hin as [<- | [<- | [<- | [<- | []]]]].
  - destruct args as [|n [|o [|p rest]]];
      try (right; apply (Hshort 3%nat); [simpl; auto | simpl; lia]).
    change (execute today "change" (n :: o :: p :: rest) s)
      with (handle_change (n :: o :: p :: rest) s).
    rewrite handle_change_run.
    destruct (command_run_atomic (on_found n (edit_phone o p)) PhoneChanged s)
      as [H | H]; [|left; eexists; exact H | right; exact H].
    intros b e b'. apply on_found_raise. intros r e' r'. apply edit_phone_raise.
  - destruct args as [|n [|p rest]];
      try (right; apply (Hshort 2%nat); [simpl; auto | simpl; lia]).
    change (execute today "remove-phone" (n :: p :: rest) s)
      with (handle_remove_phone (n :: p :: rest) s).
    rewrite handle_remove_phone_run.
    destruct (command_run_atomic (on_found n (remove_phone p)) PhoneRemoved s)
      as [H | H]; [|left; eexists; exact H | right; exact H].
    intros b e b'. apply on_found_raise. intros r e' r'. apply remove_phone_raise.
  - destruct args as [|n rest];
      try (right; apply (Hshort 1%nat); [simpl; auto 6 | simpl; lia]).
    change (execute today "delete" (n :: rest) s) with (handle_delete (n :: rest) s).
    rewrite handle_delete_run.
    destruct (command_run_atomic (delete n) ContactDeleted s)
      as [H | H]; [|left; eexists; exact H | right; exact H].
    intros b e b'. apply delete_raise.
  - destruct args as [|n [|d rest]];
      try (right; apply (Hshort 2%nat); [simpl; auto 8 | simpl; lia]).
    change (execute today "add-birthday" (n :: d :: rest) s)
      with (handle_add_birthday (n :: d :: rest) s).
    rewrite handle_add_birthday_run.
    destruct (command_run_atomic (on_found n (add_birthday d)) BirthdayAdded s)
      as [H | H]; [|left; eexists; exact H | right; exact H].
    intros b e b'. apply on_found_raise. intros r e' r'. apply add_birthday_raise.
Qed.

Lemma failed_command_leaves_store_witness :
  let s := App_init (snd (add_record (Record_init "Ann") empty_book)) in
  (exists l, events (snd (execute (mkdate 2024 1 1) "change" ["Ann"; "1111111111"; "2222222222"] s))
             = events s
               ++ [SaveData (book (snd (execute (mkdate 2024 1 1) "change"
                                          ["Ann"; "1111111111"; "2222222222"] s)));
                   ShowMessage (Msg (Lit l))])
  \/ (exists t, events (snd (execute (mkdate 2024 1 1) "change"
                               ["Ann"; "1111111111"; "2222222222"] s))
                = events s ++ [ShowError t]
                /\ book (snd (execute (mkdate 2024 1 1) "change"
                                ["Ann"; "1111111111"; "2222222222"] s)) = book s).
Proof.
  intros s.
  apply (failed_command_leaves_store (mkdate 2024 1 1) "change"
           ["Ann"; "1111111111"; "2222222222"] s).
  simpl. auto.
Defined.

(** The command add with a valid number: the record of the name, the
    existing one or a new empty one, receives the phone, is stored under
    the folded name, and the store is saved. *)
Lemma handle_add_valid_run (n phone : string) (rest : list string) (s : App)
      (p : Phone) :
  Phone_init phone = Return p ->
  let before := match find n (book s) with
                | Some rec => rec
                | None => Record_init n
                end in
  let b' := {| data := dict_set (_key n) (snd (add_phone phone before))
                                (data (book s)) |} in
  handle_add (n :: phone :: rest) s
  = (Return tt,
     {| book := b';
        events := events s
                  ++ [SaveData b';
                      ShowMessage (Msg (Lit (match find n (book s) with
                                             | Some _ => ContactUpdated
                                             | None => ContactAdded
                                             end)))] |}).
Proof.
  intros Hp. cbv zeta.
  assert (Hret : forall r, fst (add_phone phone r) = Return tt).
  { intros r. rewrite (add_phone_valid _ _ _ Hp). reflexivity. }
  unfold handle_add, input_error, handle_add_body, bind, lift, get, ret.
  simpl unpack2. cbv iota beta.
  destruct (find n (book s)) as [rec|] eqn:Hfind.
  - unfold on_book. rewrite (on_found_some _ _ _ _ Hfind), Hret.
    unfold autosave, save_data, show_message, emit, bind, get. simpl.
    rewrite <- app_assoc. reflexivity.
  - unfold on_book at 1. rewrite add_record_run. cbv iota beta. simpl book.
    unfold on_book.
    assert (Hf : find n {| data := dict_set (_key (value (name (Record_init n))))
                                    (Record_init n) (data (book s)) |}
                 = Some (Record_init n)).
    { unfold find. simpl. apply dict_get_set_same. }
    simpl events. rewrite (on_found_some _ _ _ _ Hf), Hret.
    unfold autosave, save_data, show_message, emit, bind, get. simpl.
    rewrite dict_set_twice, <- app_assoc. reflexivity.
Qed.

(** X14: the command add with a valid number never fails: the record of
    the name (a new empty one when [find] does not know the name) receives
    the phone and is what [find] returns afterwards, the lookup of the other
    folded names is unchanged, and the store is saved before the message,
    which tells an added contact from an updated one. *)
Theorem add_command_success (today : date) (n phone : string)
        (rest : list string) (s : App) (p : Phone) :
  Phone_init phone = Return p ->
  let before := match find n (book s) with
                | Some rec => rec
                | None => Record_init n
                end in
  let s' := snd (execute today "add" (n :: phone :: rest) s) in
  fst (execute today "add" (n :: phone :: rest) s) = Return tt
  /\ find n (book s') = Some (snd (add_phone phone before))
  /\ In (value p) (phone_values (snd (add_phone phone before)))
  /\ (forall n', _key n' <> _key n -> find n' (book s') = find n' (book s))
  /\ events s'
     = events s
       ++ [SaveData (book s');
           ShowMessage (Msg (Lit (match find n (book s) with
                                  | Some _ => ContactUpdated
                                  | None => ContactAdded
                                  end)))].
Proof.
  intros Hp. cbv zeta.
  change (execute today "add" (n :: phone :: rest) s)
    with (handle_add (n :: phone :: rest) s).
  rewrite (handle_add_valid_run n phone rest s p Hp). simpl.
  split; [reflexivity|]. split; [|split; [|split]].
  - unfold find. simpl. apply dict_get_set_same.
  - rewrite (add_phone_valid _ _ _ Hp). simpl.
    destruct (existsb _ _) eqn:Hex.
    + apply existsb_has_value. exact Hex.
    + unfold phone_values, set_phones. simpl. rewrite map_app. apply in_or_app.
      right. left. reflexivity.
  - intros n' Hn'. unfold find. simpl. apply dict_get_set_other. congruence.
  - reflexivity.
Qed.

Lemma add_command_success_witness :
  let s := App_init empty_book in
  let s' := snd (execute (mkdate 2024 1 1) "add" ["Ann"; " 0123456789 "] s) in
  find "ann" (book s')
  = Some {| name := {| value := "Ann" |};
            phones := [{| value := "0123456789" |}];
            birthday := None |}
  /\ events s' = [SaveData (book s'); ShowMessage (Msg (Lit ContactAdded))].
Proof.
  intros s s'.
  destruct (add_command_success (mkdate 2024 1 1) "Ann" " 0123456789 " [] s
              {| value := "0123456789" |} eq_refl)
    as (_ & Hfind & _ & _ & Hev).
  split; [exact Hfind | exact Hev].
Defined.

(** X15: after the command add for a new name with a valid number, the
    command all shows the contacts that were there, in their order, followed
    by the new contact with that one phone and no birthday. *)
Theorem add_then_all (today today' : date) (n phone : string)
        (rest rest' : list string) (s : App) (p : Phone) :
  find n (book s) = None -> Phone_init phone = Return p ->
  let s1 := snd (execute today "add" (n :: phone :: rest) s) in
  execute today' "all" rest' s1
  = (Return tt,
     {| book := book s1;
        events := events s1
                  ++ [ShowContacts
                        (dict_values (data (book s))
                         ++ [{| name := {| value := n |};
                                phones := [p];
                                birthday := None |}])] |}).
Proof.
  intros Hfind Hp. cbv zeta.
  change (execute today "add" (n :: phone :: rest) s)
    with (handle_add (n :: phone :: rest) s).
  rewrite (handle_add_valid_run n phone rest s p Hp). rewrite Hfind.
  cbn [snd].
  match goal with
  | |- execute today' "all" rest' ?s1 = _ =>
      change (execute today' "all" rest' s1) with (handle_all s1)
  end.
  unfold handle_all, bind, get, emit. cbn [book events data fst snd].
  unfold find in Hfind. rewrite (dict_set_absent _ _ _ Hfind).
  unfold dict_values. rewrite map_app. simpl.
  rewrite (add_phone_valid _ _ _ Hp). reflexivity.
Qed.

Lemma add_then_all_witness :
  let s1 := snd (execute (mkdate 2024 1 1) "add" ["Jane Doe"; "0123456789"]
                   (App_init empty_book)) in
  execute (mkdate 2024 1 2) "all" [] s1
  = (Return tt,
     {| book := book s1;
        events := events s1
                  ++ [ShowContacts [{| name := {| value := "Jane Doe" |};
                                       phones := [{| value := "0123456789" |}];
                                       birthday := None |}]] |}).
Proof.
  apply (add_then_all (mkdate 2024 1 1) (mkdate 2024 1 2) "Jane Doe" "0123456789"
           [] [] (App_init empty_book) {| value := "0123456789" |}); reflexivity.
Defined.

(** X16: adding a new contact and deleting it, under any spelling with
    the same folded name, gives the store back, with both steps saved and
    reported. *)
Theorem add_then_delete (today today' : date) (n n' phone : string)
        (rest rest' : list string) (s : App) (p : Phone) :
  find n (book s) = None -> Phone_init phone = Return p -> _key n' = _key n ->
  let s1 := snd (execute today "add" (n :: phone :: rest) s) in
  let s2 := snd (execute today' "delete" (n' :: rest') s1) in
  book s2 = book s
  /\ events s2
     = events s
       ++ [SaveData (book s1); ShowMessage (Msg (Lit ContactAdded));
           SaveData (book s); ShowMessage (Msg (Lit ContactDeleted))].
Proof.
  intros Hfind Hp Hkey. cbv zeta.
  change (execute today "add" (n :: phone :: rest) s)
    with (handle_add (n :: phone :: rest) s).
  rewrite (handle_add_valid_run n phone rest s p Hp). rewrite Hfind.
  cbn [snd].
  match goal with
  | |- context [execute today' "delete" (n' :: rest') ?s1] =>
      change (execute today' "delete" (n' :: rest') s1)
        with (handle_delete (n' :: rest') s1)
  end.
  rewrite handle_delete_run, command_run. cbn [book events].
  unfold delete at 1 2, bind, get, put, raise, dict_mem. cbn [data].
  rewrite Hkey, dict_get_set_same. cbn [fst snd book events].
  unfold find in Hfind. rewrite (dict_del_set_absent _ _ _ Hfind), book_eta.
  split; [reflexivity|]. rewrite <- app_assoc. reflexivity.
Qed.

Lemma add_then_delete_witness :
  let s := App_init empty_book in
  let s1 := snd (execute (mkdate 2024 1 1) "add" ["Ann"; "0123456789"] s) in
  let s2 := snd (execute (mkdate 2024 1 1) "delete" ["ANN"] s1) in
  book s2 = book s
  /\ events s2
     = events s
       ++ [SaveData (book s1); ShowMessage (Msg (Lit ContactAdded));
           SaveData (book s); ShowMessage (Msg (Lit ContactDeleted))].
Proof.
  apply (add_then_delete (mkdate 2024 1 1) (mkdate 2024 1 1) "Ann" "ANN"
           "0123456789" [] [] (App_init empty_book) {| value := "0123456789" |});
    reflexivity.
Defined.

(** X17: after add-birthday with an accepted date on a contact without a
    birthday, the store is saved, the contact holds the normalized date, and
    show-birthday, under any spelling of the name with the same folded name,
    shows that normalized text. *)
Theorem add_birthday_then_show (today today' : date) (n n' raw : string)
        (rest rest' : list string) (s : App) (rec : ContactRecord) (b : Birthday) :
  find n (book s) = Some rec -> birthday rec = None ->
  Birthday_init raw = Return b -> _key n' = _key n ->
  let s1 := snd (execute today "add-birthday" (n :: raw :: rest) s) in
  events s1 = events s ++ [SaveData (book s1); ShowMessage (Msg (Lit BirthdayAdded))]
  /\ find n (book s1) = Some (set_birthday rec b)
  /\ execute today' "show-birthday" (n' :: rest') s1
     = (Return tt,
        {| book := book s1;
           events := events s1 ++ [ShowMessage (FieldValue (value b))] |}).
Proof.
  intros Hfind Hnone Hb Hkey. cbv zeta.
  change (execute today "add-birthday" (n :: raw :: rest) s)
    with (handle_add_birthday (n :: raw :: rest) s).
  rewrite handle_add_birthday_run, command_run, (on_found_some _ _ _ _ Hfind).
  assert (Hrun : add_birthday raw rec = (Return tt, set_birthday rec b)).
  { unfold add_birthday, bind, get, lift, put. rewrite Hnone, Hb. reflexivity. }
  rewrite Hrun. cbn [fst snd book events].
  assert (Hf : forall m, _key m = _key n ->
            find m {| data := dict_set (_key n) (set_birthday rec b) (data (book s)) |}
            = Some (set_birthday rec b)).
  { intros m Hm. unfold find. simpl. rewrite Hm. apply dict_get_set_same. }
  split; [reflexivity|]. split; [apply Hf; reflexivity|].
  match goal with
  | |- execute today' "show-birthday" (n' :: rest') ?s1 = _ =>
      change (execute today' "show-birthday" (n' :: rest') s1)
        with (handle_show_birthday (n' :: rest') s1)
  end.
  rewrite handle_show_birthday_run. cbn [book events].
  rewrite (Hf n' Hkey). reflexivity.
Qed.

Lemma add_birthday_then_show_witness :
  let s := App_init (snd (add_record (Record_init "Ann") empty_book)) in
  let s1 := snd (execute (mkdate 2024 1 1) "add-birthday" ["ann"; " 3.1.1990"] s) in
  events s1 = events s ++ [SaveData (book s1); ShowMessage (Msg (Lit BirthdayAdded))]
  /\ find "ann" (book s1)
     = Some (set_birthday (Record_init "Ann") {| value := "03.01.1990" |})
  /\ execute (mkdate 2024 1 2) "show-birthday" ["ANN"] s1
     = (Return tt,
        {| book := book s1;
           events := events s1 ++ [ShowMessage (FieldValue "03.01.1990")] |}).
Proof.
  apply (add_birthday_then_show (mkdate 2024 1 1) (mkdate 2024 1 2) "ann" "ANN"
           " 3.1.1990" [] []
           (App_init (snd (add_record (Record_init "Ann") empty_book)))
           (Record_init "Ann") {| value := "03.01.1990" |}); reflexivity.
Defined.

(** X18: the command birthdays, whatever its arguments, shows the result
    for a window of 7 days and changes nothing, when today is a valid date
    of a year from 1000 to 9997 and every birthday of the store parses to a
    date other than 29 February. *)
Theorem birthdays_command_shows_week (today : date) (args : list string) (s : App) :
  valid_date today -> 1000 <= year today <= 9997 ->
  birthdays_projectable (book s) ->
  execute today "birthdays" args s
  = (Return tt,
     {| book := book s;
        events := events s
                  ++ [ShowBirthdays (spec_upcoming today 7 (dict_values (data (book s))))] |}).
Proof.
  intros Ht Hy Hb.
  change (execute today "birthdays" args s) with (handle_birthdays today s).
  apply handle_birthdays_returns; assumption.
Qed.

Lemma birthdays_command_shows_week_witness :
  execute (mkdate 2024 1 1) "birthdays" [] (App_init january_book)
  = (Return tt,
     {| book := january_book;
        events := [ShowBirthdays (spec_upcoming (mkdate 2024 1 1) 7
                                    (dict_values (data january_book)))] |}).
Proof.
  apply (birthdays_command_shows_week (mkdate 2024 1 1) [] (App_init january_book)).
  - reflexivity.
  - simpl. lia.
  - intros rec bd [<- | [<- | []]] Hbd; inversion Hbd; subst; simpl.
    + exists (mkdate 1990 1 3). split; [reflexivity|].
      unfold not_leap_day. simpl. lia.
    + exists (mkdate 1990 1 6). split; [reflexivity|].
      unfold not_leap_day. simpl. lia.
Defined.

(* ================================================================== *)
(** * Further properties of the command loop *)

Lemma execute_appends (today : date) (cmd : string) (args : list string) (s : App) :
  exists es, events (snd (execute today cmd args s)) = events s ++ es.
Proof.
  destruct (String.eqb_spec cmd "birthdays") as [-> | Hne].
  - destruct (handle_birthdays_never_saves today s) as (_ & es & He & _).
    exists es. exact He.
  - destruct (execute_reports_once today cmd args s Hne) as (_ & e & _ & [H | H]);
      eexists; exact H.
Qed.

Lemma loop_appends (inputs : list (date * string)) (s : App) :
  exists es, events (snd (loop inputs s)) = events s ++ es.
Proof.
  revert s. induction inputs as [|[today line] rest IH]; intros s.
  - exists []. simpl. rewrite app_nil_r. reflexivity.
  - simpl. unfold bind at 1. unfold lift at 1.
    destruct (parse_input line) as [[cmd args]|e].
    + destruct (negb (Shlex.nonempty cmd)); [apply IH|].
      destruct (String.eqb cmd "exit" || String.eqb cmd "close").
      * exists [ShowGoodbye]. reflexivity.
      * unfold bind.
        destruct (execute_appends today cmd args s) as [es1 H1].
        destruct (execute today cmd args s) as [[[]|e] s1]; simpl in *.
        -- destruct (IH s1) as [es2 H2]. exists (es1 ++ es2).
           rewrite H2, H1, app_assoc. reflexivity.
        -- exists es1. exact H1.
    + exists []. simpl. rewrite app_nil_r. reflexivity.
Qed.

(** X19: [run] returns or raises exactly as its loop does, and in both
    cases its last two actions are the save of the final store and the
    message that follows; its first two are the welcome and the message of
    loading, and nothing that was shown before is lost. *)
Theorem run_always_saves (inputs : list (date * string)) (s : App) :
  fst (run inputs s)
  = fst (loop inputs {| book := book s;
                        events := events s ++ [ShowWelcome; Print DataLoaded] |})
  /\ exists middle,
       events (snd (run inputs s))
       = events s ++ [ShowWelcome; Print DataLoaded] ++ middle
         ++ [SaveData (book (snd (run inputs s))); Print DataSaved].
Proof.
  unfold run, bind, emit, try_finally, save_data, get. simpl.
  rewrite <- app_assoc. simpl.
  set (s0 := {| book := book s; events := events s ++ [ShowWelcome; Print DataLoaded] |}).
  destruct (loop_appends inputs s0) as [es Hes].
  destruct (loop inputs s0) as [r s1]. simpl in *.
  split; [reflexivity|]. exists es.
  rewrite Hes. unfold s0. simpl. rewrite <- !app_assoc. reflexivity.
Qed.

(** X20: a line whose verb is exit or close ends the session whatever
    follows the verb and whatever lines come after: goodbye, the final save
    of the unchanged store, and [run] returns. *)
Theorem exit_ends_session (today : date) (line cmd : string) (args : list string)
        (rest : list (date * string)) (s : App) :
  parse_input line = Return (cmd, args) -> cmd = "exit"%string \/ cmd = "close"%string ->
  run ((today, line) :: rest) s
  = (Return tt,
     {| book := book s;
        events := events s
                  ++ [ShowWelcome; Print DataLoaded; ShowGoodbye;
                      SaveData (book s); Print DataSaved] |}).
Proof.
  intros Hparse Hcmd.
  unfold run, bind at 1 2, emit at 1 2, try_finally. cbn [fst snd book events].
  rewrite (loop_exits today line cmd args rest _ Hparse Hcmd).
  unfold save_data, bind, get, emit. simpl.
  rewrite <- !app_assoc. reflexivity.
Qed.

Lemma exit_ends_session_witness :
  run [(mkdate 2024 1 1, "  EXIT now"%string); (mkdate 2024 1 1, "add Ann 0123456789"%string)]
      (App_init empty_book)
  = (Return tt,
     {| book := empty_book;
        events := [ShowWelcome; Print DataLoaded; ShowGoodbye;
                   SaveData empty_book; Print DataSaved] |}).
Proof.
  apply (exit_ends_session (mkdate 2024 1 1) "  EXIT now" "exit" ["now"%string]
           [(mkdate 2024 1 1, "add Ann 0123456789"%string)] (App_init empty_book)).
  - reflexivity.
  - left. reflexivity.
Defined.

(* ================================================================== *)
(** * Further properties of the command lines *)

Lemma plain_char_facts (c : ascii) :
  plain_char c = true ->
  Str.isspace c = false /\ Shlex.whitespace c = false
  /\ Shlex.quotes c = false /\ Shlex.escape c = false.
Proof.
  destruct c as [[] [] [] [] [] [] [] []]; vm_compute; intros H;
    try discriminate; repeat split.
Qed.

Lemma quotable_char_facts (c : ascii) :
  quotable_char c = true -> Ascii.eqb c dq = false /\ Shlex.escape c = false.
Proof.
  destruct c as [[] [] [] [] [] [] [] []]; vm_compute; intros H;
    try discriminate; repeat split.
Qed.

Lemma chars_app (s t : string) :
  list_ascii_of_string (s ++ t)%string
  = list_ascii_of_string s ++ list_ascii_of_string t.
Proof. induction s as [|c s IH]; simpl; [reflexivity | rewrite IH; reflexivity]. Qed.

Lemma append_snoc (t w : string) (c : ascii) :
  (Shlex.snoc t c ++ w)%string = (t ++ String c w)%string.
Proof.
  unfold Shlex.snoc. induction t as [|a t IH]; simpl; [reflexivity|].
  rewrite IH. reflexivity.
Qed.

Lemma append_empty (t : string) : (t ++ EmptyString)%string = t.
Proof. induction t as [|a t IH]; simpl; [reflexivity | rewrite IH; reflexivity]. Qed.

(** Plain characters extend the word being read. *)
Lemma read_plain (w : string) (quoted : bool) (tok : string) (rest : list ascii) :
  Str.forallb_str plain_char w = true ->
  Shlex.read Shlex.InWord quoted tok (list_ascii_of_string w ++ rest)
  = Shlex.read Shlex.InWord quoted (tok ++ w)%string rest.
Proof.
  revert tok. induction w as [|c w IH]; intros tok H; simpl in H.
  - rewrite append_empty. reflexivity.
  - apply andb_prop in H. destruct H as [Hc Hw].
    destruct (plain_char_facts c Hc) as (_ & Hws & Hq & He).
    cbn [list_ascii_of_string app Shlex.read]. rewrite Hws, Hq, He.
    rewrite (IH _ Hw), append_snoc. reflexivity.
Qed.

(** Between double quotes every character but the quote and the backslash
    is taken as it is, up to the closing quote. *)
Lemma read_in_quote (w : string) (quoted : bool) (tok : string) (rest : list ascii) :
  quotable w = true ->
  Shlex.read (Shlex.InQuote dq) quoted tok (list_ascii_of_string w ++ dq :: rest)
  = Shlex.read Shlex.InWord true (tok ++ w)%string rest.
Proof.
  unfold quotable. revert quoted tok. induction w as [|c w IH]; intros quoted tok H; simpl in H.
  - rewrite append_empty. reflexivity.
  - apply andb_prop in H. destruct H as [Hc Hw].
    destruct (quotable_char_facts c Hc) as (Hne & He).
    cbn [list_ascii_of_string app Shlex.read]. rewrite Hne, He. cbn [andb].
    rewrite (IH _ _ Hw), append_snoc. reflexivity.
Qed.

(** A typed argument is read back as the argument. *)
Lemma read_typed (w : string) (rest : list ascii) :
  quotable w = true ->
  exists quoted,
    Shlex.nonempty w || quoted = true
    /\ Shlex.read Shlex.InSpace false EmptyString
         (list_ascii_of_string (typed w) ++ rest)
       = Shlex.read Shlex.InWord quoted w rest.
Proof.
  intros Hq. unfold typed. destruct (plain_word w) eqn:Hp.
  - exists false. unfold plain_word in Hp. apply andb_prop in Hp.
    destruct Hp as [Hne Hall]. rewrite Hne. split; [reflexivity|].
    destruct w as [|c w]; [discriminate|]. simpl in Hall.
    apply andb_prop in Hall. destruct Hall as [Hc Hw].
    destruct (plain_char_facts c Hc) as (_ & Hws & Hqu & He).
    cbn [list_ascii_of_string app Shlex.read]. rewrite Hws, Hqu, He.
    rewrite (read_plain _ _ _ _ Hw). reflexivity.
  - exists true. rewrite orb_true_r. split; [reflexivity|].
    unfold dquote. fold dq.
    cbn [list_ascii_of_string app]. rewrite chars_app. cbn [list_ascii_of_string].
    rewrite <- app_assoc. cbn [app].
    change (Shlex.read Shlex.InSpace false EmptyString
              (dq :: list_ascii_of_string w ++ dq :: rest))
      with (Shlex.read (Shlex.InQuote dq) false EmptyString
              (list_ascii_of_string w ++ dq :: rest)).
    rewrite (read_in_quote _ _ _ _ Hq). reflexivity.
Qed.

Lemma split_command_line (words : list string) :
  Forall (fun w => quotable w = true) words ->
  Shlex.split (command_line words) = Return words.
Proof.
  unfold Shlex.split. induction 1 as [|w ws Hw Hws IH]; [reflexivity|].
  destruct ws as [|w2 ws].
  - cbn [command_line].
    destruct (read_typed w [] Hw) as (quoted & Hne & Hread).
    rewrite app_nil_r in Hread. rewrite Hread. simpl. rewrite Hne. reflexivity.
  - change (command_line (w :: w2 :: ws))
      with (typed w ++ String " " (command_line (w2 :: ws)))%string.
    rewrite chars_app. cbn [list_ascii_of_string].
    destruct (read_typed w (" "%char :: list_ascii_of_string (command_line (w2 :: ws))) Hw)
      as (quoted & Hne & Hread).
    rewrite Hread.
    change (Shlex.read Shlex.InWord quoted w
              (" "%char :: list_ascii_of_string (command_line (w2 :: ws))))
      with (if Shlex.nonempty w || quoted
            then match Shlex.read Shlex.InSpace false EmptyString
                         (list_ascii_of_string (command_line (w2 :: ws))) with
                 | Return ts => Return (w :: ts)
                 | Raise e => Raise e
                 end
            else Shlex.read Shlex.InSpace quoted w
                   (list_ascii_of_string (command_line (w2 :: ws)))).
    rewrite Hne, IH. reflexivity.
Qed.

Lemma rstrip_last (s : string) (c : ascii) :
  Str.isspace c = false ->
  Str.rstrip (s ++ String c EmptyString) = (s ++ String c EmptyString)%string.
Proof.
  intros Hc. induction s as [|a s IH]; simpl.
  - rewrite Hc. reflexivity.
  - rewrite IH. destruct s; reflexivity.
Qed.

Lemma last_char (p : ascii -> bool) (w : string) :
  Shlex.nonempty w = true -> Str.forallb_str p w = true ->
  exists t c, w = (t ++ String c EmptyString)%string /\ p c = true.
Proof.
  induction w as [|a w IH]; [discriminate|]. intros _ H. simpl in H.
  apply andb_prop in H. destruct H as [Ha Hw].
  destruct w as [|b w].
  - exists EmptyString, a. auto.
  - destruct (IH eq_refl Hw) as (t & c & Heq & Hc).
    exists (String a t), c. simpl. rewrite <- Heq. auto.
Qed.

Lemma typed_ends (w : string) :
  (exists c s, typed w = String c s /\ Str.isspace c = false)
  /\ (exists t c, typed w = (t ++ String c EmptyString)%string /\ Str.isspace c = false).
Proof.
  unfold typed. destruct (plain_word w) eqn:Hp.
  - unfold plain_word in Hp. apply andb_prop in Hp. destruct Hp as [Hne Hall].
    split.
    + destruct w as [|c w]; [discriminate|]. simpl in Hall.
      apply andb_prop in Hall. destruct Hall as [Hc _].
      exists c, w. split; [reflexivity|]. apply (plain_char_facts c Hc).
    + destruct (last_char plain_char w Hne Hall) as (t & c & Heq & Hc).
      exists t, c. split; [exact Heq|]. apply (plain_char_facts c Hc).
  - split.
    + exists dq, (w ++ String dq EmptyString)%string. split; reflexivity.
    + exists (String dq w), dq. split; reflexivity.
Qed.

Lemma append_assoc (a b c : string) :
  ((a ++ b) ++ c)%string = (a ++ (b ++ c))%string.
Proof. induction a as [|x a IH]; simpl; [reflexivity | rewrite IH; reflexivity]. Qed.

Lemma strip_command_line (w : string) (ws : list string) :
  Str.strip (command_line (w :: ws)) = command_line (w :: ws).
Proof.
  assert (Hlast : forall l v, exists t c,
            command_line (v :: l) = (t ++ String c EmptyString)%string
            /\ Str.isspace c = false).
  { induction l as [|v2 l IH]; intros v.
    - apply (typed_ends v).
    - destruct (IH v2) as (t & c & Heq & Hc).
      exists (typed v ++ String " " t)%string, c. split; [|exact Hc].
      change (command_line (v :: v2 :: l))
        with (typed v ++ String " " (command_line (v2 :: l)))%string.
      rewrite Heq, append_assoc. reflexivity. }
  assert (Hfirst : exists c s, command_line (w :: ws) = String c s
                               /\ Str.isspace c = false).
  { destruct (proj1 (typed_ends w)) as (c & s & Heq & Hc).
    destruct ws as [|w2 ws].
    - exists c, s. auto.
    - exists c, (s ++ String " " (command_line (w2 :: ws)))%string.
      change (command_line (w :: w2 :: ws))
        with (typed w ++ String " " (command_line (w2 :: ws)))%string.
      rewrite Heq. auto. }
  destruct Hfirst as (c & s & Heq & Hc).
  destruct (Hlast ws w) as (t & c' & Heq' & Hc').
  unfold Str.strip.
  assert (Hl : Str.lstrip (command_line (w :: ws)) = command_line (w :: ws)).
  { rewrite Heq. simpl. rewrite Hc. reflexivity. }
  rewrite Hl, Heq'. apply rstrip_last. exact Hc'.
Qed.

(** X21: a command typed as its words separated by one space, each word
    as it is when it is a plain word and between double quotes otherwise, is
    parsed into the verb in lower case and the words as arguments, for all
    words without a double quote or a backslash (a name with spaces, or an
    empty argument, between quotes is one argument). *)
Theorem parse_input_command_line (verb : string) (args : list string) :
  Forall (fun w => quotable w = true) (verb :: args) ->
  parse_input (command_line (verb :: args)) = Return (Str.lower verb, args).
Proof.
  intros H. unfold parse_input.
  rewrite strip_command_line, (split_command_line _ H). reflexivity.
Qed.

Lemma parse_input_command_line_witness :
  command_line ["ADD"; "Jane Doe"; "0123456789"]%string
  = ("ADD " ++ String dq "Jane Doe" ++ String dq " 0123456789")%string
  /\ parse_input (command_line ["ADD"; "Jane Doe"; "0123456789"]%string)
     = Return ("add"%string, ["Jane Doe"; "0123456789"]%string).
Proof.
  split; [reflexivity|].
  apply (parse_input_command_line "ADD" ["Jane Doe"; "0123456789"]%string).
  repeat constructor.
Defined.

(** X22: a line that is empty once trimmed parses to the empty verb and
    the loop goes on to the next line without any action. *)
Theorem blank_line_is_skipped (today : date) (line : string)
        (rest : list (date * string)) (s : App) :
  Str.strip line = EmptyString ->
  parse_input line = Return (EmptyString, [])
  /\ loop ((today, line) :: rest) s = loop rest s.
Proof.
  intros H.
  assert (Hp : parse_input line = Return (EmptyString, [])).
  { unfold parse_input. rewrite H. reflexivity. }
  split; [exact Hp|].
  simpl. unfold bind at 1. unfold lift at 1. rewrite Hp. reflexivity.
Qed.

Lemma blank_line_is_skipped_witness :
  loop [(mkdate 2024 1 1, "   "%string); (mkdate 2024 1 1, "exit"%string)]
       (App_init empty_book)
  = loop [(mkdate 2024 1 1, "exit"%string)] (App_init empty_book).
Proof.
  apply (proj2 (blank_line_is_skipped (mkdate 2024 1 1) "   "
                  [(mkdate 2024 1 1, "exit"%string)] (App_init empty_book) eq_refl)).
Defined.

(* ================================================================== *)
(** * Invariants of whole sessions *)

Lemma loop_book_inv (Q : AddressBook -> Prop) (inputs : list (date * string)) :
  (forall today cmd args, book_inv Q (execute today cmd args)) ->
  book_inv Q (loop inputs).
Proof.
  intros Hex. induction inputs as [|[today line] rest IH]; intros s Hs.
  - exact Hs.
  - simpl. unfold bind at 1. unfold lift at 1.
    destruct (parse_input line) as [[cmd args]|e]; [|exact Hs].
    destruct (negb (Shlex.nonempty cmd)); [apply IH; exact Hs|].
    destruct (String.eqb cmd "exit" || String.eqb cmd "close"); [exact Hs|].
    unfold bind. pose proof (Hex today cmd args s Hs) as H1.
    destruct (execute today cmd args s) as [[[]|e] s1]; simpl in *.
    + apply IH. exact H1.
    + exact H1.
Qed.

Lemma run_book_inv (Q : AddressBook -> Prop) (inputs : list (date * string)) :
  (forall today cmd args, book_inv Q (execute today cmd args)) ->
  book_inv Q (run inputs).
Proof.
  intros Hex s Hs.
  unfold run, bind, emit, try_finally, save_data, get. simpl.
  pose proof (loop_book_inv Q inputs Hex
                {| book := book s;
                   events := (events s ++ [ShowWelcome]) ++ [Print DataLoaded] |} Hs)
    as H.
  destruct (loop inputs _) as [r s1]. simpl in *. exact H.
Qed.

(** X23: a whole session keeps the store keyed by the folded names, with
    distinct keys, whatever the lines typed and however the session ends. *)
Theorem run_keeps_store_keyed (inputs : list (date * string)) (s : App) :
  keyed_by_name (book s) -> keyed_by_name (book (snd (run inputs s))).
Proof.
  apply (run_book_inv keyed_by_name). intros today cmd args.
  apply execute_keyed.
Qed.

Lemma run_keeps_store_keyed_witness :
  keyed_by_name
    (book (snd (run [(mkdate 2024 1 1, "add Ann 0123456789"%string);
                     (mkdate 2024 1 1, "add ANN 1111111111"%string);
                     (mkdate 2024 1 1, "exit"%string)]
                    (App_init empty_book)))).
Proof.
  apply (run_keeps_store_keyed _ (App_init empty_book)).
  split; [constructor | intros k r []].
Defined.

Lemma record_valid_init (n : string) : record_valid (Record_init n).
Proof. split; [constructor | intros b H; discriminate]. Qed.

Lemma Phone_init_ok (s : string) (p : Phone) :
  Phone_init s = Return p -> phone_value_ok (value p).
Proof.
  intros H. apply Phone_init_return in H. destruct H as (Hd & Hl & ->).
  split; assumption.
Qed.

Lemma add_phone_valid_record (raw : string) (r : ContactRecord) :
  record_valid r -> record_valid (snd (add_phone raw r)).
Proof.
  intros [Hp Hb].
  destruct (Phone_init_total raw) as [[p Hi] | He].
  - rewrite (add_phone_valid _ _ _ Hi). simpl.
    destruct (existsb _ _); [split; assumption|].
    split; [|exact Hb]. simpl. apply Forall_app. split; [exact Hp|].
    constructor; [apply (Phone_init_ok raw); exact Hi | constructor].
  - rewrite (add_phone_invalid _ _ _ He). split; assumption.
Qed.

Lemma remove_phone_valid_record (raw : string) (r : ContactRecord) :
  record_valid r -> record_valid (snd (remove_phone raw r)).
Proof.
  intros [Hp Hb]. unfold remove_phone, bind, lift, get, put, raise.
  destruct (Phone_init raw) as [p|e]; simpl; [|split; assumption].
  destruct (del_first (value p) (phones r)) as [l'|] eqn:Hd; simpl;
    [|split; assumption].
  apply del_first_some in Hd. destruct Hd as (b & ph & a & Hl & _ & _ & ->).
  split; [|exact Hb]. simpl. rewrite Hl in Hp.
  apply Forall_app in Hp. destruct Hp as [H1 H2]. inversion H2; subst.
  apply Forall_app. split; assumption.
Qed.

Lemma edit_phone_valid_record (o n : string) (r : ContactRecord) :
  record_valid r -> record_valid (snd (edit_phone o n r)).
Proof.
  intros [Hp Hb]. unfold edit_phone, bind, lift, get, put, raise.
  destruct (Phone_init o) as [po|e]; simpl; [|split; assumption].
  destruct (Phone_init n) as [pn|e] eqn:Hn; simpl; [|split; assumption].
  destruct (assign_first (value po) (value pn) (phones r)) as [l'|] eqn:Ha; simpl;
    [|split; assumption].
  apply assign_first_some_inv in Ha. destruct Ha as (b & ph & a & Hl & _ & ->).
  split; [|exact Hb]. simpl. rewrite Hl in Hp.
  apply Forall_app in Hp. destruct Hp as [H1 H2]. inversion H2; subst.
  apply Forall_app. split; [assumption|].
  constructor; [|assumption]. simpl. apply (Phone_init_ok n). exact Hn.
Qed.

Lemma add_birthday_valid_record (d : string) (r : ContactRecord) :
  record_valid r -> record_valid (snd (add_birthday d r)).
Proof.
  intros [Hp Hb]. unfold add_birthday, bind, lift, get, put, raise.
  destruct (birthday r) eqn:E; simpl; [split; [assumption | rewrite E; exact Hb]|].
  destruct (Birthday_init d) as [b|e] eqn:Hi; simpl;
    [|split; [assumption | rewrite E; exact Hb]].
  split; [exact Hp|]. simpl. intros b' H. inversion H; subst.
  destruct (Birthday_init_value d b' Hi) as (dt & Hv & _ & Hval & _).
  exists dt. split; assumption.
Qed.

Lemma dict_set_Forall {V} (P : V -> Prop) (k : string) (v : V) (d : dict V) :
  P v -> Forall P (dict_values d) -> Forall P (dict_values (dict_set k v d)).
Proof.
  intros Hv. unfold dict_values.
  induction d as [|[k' v'] t IH]; simpl; intros H.
  - constructor; [exact Hv | constructor].
  - inversion H; subst.
    destruct (String.eqb k' k); simpl; constructor; auto.
Qed.

Lemma dict_del_Forall {V} (P : V -> Prop) (k : string) (d : dict V) :
  Forall P (dict_values d) -> Forall P (dict_values (dict_del k d)).
Proof.
  unfold dict_values.
  induction d as [|[k' v'] t IH]; simpl; intros H; [constructor|].
  inversion H; subst.
  destruct (String.eqb k' k); simpl; [assumption|]. constructor; auto.
Qed.

Lemma dict_get_Forall {V} (P : V -> Prop) (k : string) (v : V) (d : dict V) :
  Forall P (dict_values d) -> dict_get k d = Some v -> P v.
Proof.
  intros H Hg. apply dict_get_In in Hg. rewrite Forall_forall in H. apply H.
  unfold dict_values. apply (in_map snd) in Hg. exact Hg.
Qed.

Lemma on_found_store_valid {A} (n : string) (m : M ContactRecord A) (b : AddressBook) :
  (forall r, record_valid r -> record_valid (snd (m r))) ->
  store_valid b -> store_valid (snd (on_found n m b)).
Proof.
  intros Hm Hb. unfold on_found.
  destruct (find n b) as [rec|] eqn:Hf; [|exact Hb].
  pose proof (Hm rec (dict_get_Forall _ _ _ _ Hb Hf)) as Hrec.
  destruct (m rec) as [r rec']. simpl in *.
  apply dict_set_Forall; assumption.
Qed.

Lemma execute_store_valid (today : date) (cmd : string) (args : list string) :
  book_inv store_valid (execute today cmd args).
Proof.
  apply execute_cases; unfold_handlers; repeat book_inv_step;
    try (apply book_inv_on_book; intros b Hb).
  all: try (rewrite get_upcoming_birthdays_frame; exact Hb).
  all: try (unfold delete, bind, get, put, raise;
            destruct (dict_mem _ _); simpl; [apply dict_del_Forall|]; exact Hb).
  all: try (rewrite add_record_run; simpl;
            apply dict_set_Forall; [apply record_valid_init | exact Hb]).
  all: apply on_found_store_valid;
    [ intros r; first [ apply add_phone_valid_record | apply edit_phone_valid_record
                      | apply remove_phone_valid_record
                      | apply add_birthday_valid_record ]
    | exact Hb ].
Qed.

(** X24: a whole session keeps the fields of the store in the form their
    constructors give them: every stored phone is ten digits in the sense
    of [Phone], and every stored birthday is the text that [strftime] gives
    for a valid date (day and month on two digits, then the year in
    decimal: four digits from the year 1000 on, fewer below), whatever the
    lines typed and however the session ends. *)
Theorem run_keeps_fields_valid (inputs : list (date * string)) (s : App) :
  store_valid (book s) -> store_valid (book (snd (run inputs s))).
Proof.
  apply (run_book_inv store_valid). apply execute_store_valid.
Qed.

Lemma run_keeps_fields_valid_witness :
  store_valid
    (book (snd (run [(mkdate 2024 1 1, "add Ann 0123456789"%string);
                     (mkdate 2024 1 1, "add-birthday Ann 3.1.1990"%string);
                     (mkdate 2024 1 1, "change Ann 0123456789 1111111111"%string)]
                    (App_init empty_book)))).
Proof.
  apply (run_keeps_fields_valid _ (App_init empty_book)). constructor.
Defined.




